(** * Markdown outline and user-data-profile service: a shallow embedding

    Two fragments of the editor are embedded and verified here:

    - the markdown table of contents ([TableOfContents.buildToc]) and the
      document-symbol provider built on it
      ([MdDocumentSymbolProvider.buildTree], [provideDocumentSymbols]);
    - the main-process profile service ([UserDataProfilesMainService]).

    Definitions come first (markdown, then profiles, then the concrete
    instances used to exercise them); lemmas and theorems follow. *)

From stdpp Require Import base option list gmap strings pretty.
From Stdlib Require Import ZArith Lia Ascii.

Set Default Proof Using "Type".
Set Warnings "-register-all".

(* ===================================================================== *)
(** * Part I: definitions                                                 *)
(* ===================================================================== *)

(** ** Strings

    A JavaScript string is a sequence of UTF-16 code units.  Line texts are
    modelled as [string], one character per code unit, which covers the code
    units below 256; [String.length] is then the [.length] of the source. *)

(** The class [\s] of a JavaScript regular expression, on code units below
    256: tab, line feed, vertical tab, form feed, carriage return, space and
    no-break space. *)
Definition isSpace (c : ascii) : bool :=
  let n := nat_of_ascii c in
  ((9 <=? n) && (n <=? 13)) || (n =? 32) || (n =? 160).

(** Line terminators, which [.] does not match. *)
Definition isLineTerminator (c : ascii) : bool :=
  let n := nat_of_ascii c in (n =? 10) || (n =? 13).

Definition isHash (c : ascii) : bool := nat_of_ascii c =? 35.

Fixpoint takeWhile (p : ascii → bool) (s : list ascii) : list ascii :=
  match s with
  | c :: s' => if p c then c :: takeWhile p s' else []
  | [] => []
  end.

Fixpoint dropWhile (p : ascii → bool) (s : list ascii) : list ascii :=
  match s with
  | c :: s' => if p c then dropWhile p s' else s
  | [] => []
  end.

(** [String.prototype.trim]. *)
Definition trim (s : list ascii) : list ascii :=
  reverse (dropWhile isSpace (reverse (dropWhile isSpace s))).

(** Length of the match of [/^#+\s*/], or [0] when there is none
    ([line.text.match(/^#+\s*/)?.[0].length ?? 0]). *)
Definition leadingMarkLength (text : string) : nat :=
  let s := String.list_ascii_of_string text in
  let hashes := takeWhile isHash s in
  match hashes with
  | [] => 0
  | _ => length hashes + length (takeWhile isSpace (dropWhile isHash s))
  end.

(** Length of the match of [/\s*#*$/]: the leftmost match is the longest
    suffix made of white space followed by hashes. *)
Definition trailingMarkLength (text : string) : nat :=
  let r := reverse (String.list_ascii_of_string text) in
  length (takeWhile isHash r) + length (takeWhile isSpace (dropWhile isHash r)).

(** Does [s] match [(\s+#+)?$], that is, is it empty or white space (at
    least one) followed by hashes (at least one) up to the end? *)
Definition closingMark (s : list ascii) : bool :=
  match s with
  | [] => true
  | _ =>
    match takeWhile isSpace s, dropWhile isSpace s with
    | _ :: _, (_ :: _) as hs =>
        match dropWhile isHash hs with
        | [] => true
        | _ => false
        end
    | _, _ => false
    end
  end.

(** The lazy group [(.*?)] followed by [(\s+#+)?$]: the shortest prefix
    free of line terminators after which the remainder is a closing mark. *)
Fixpoint lazyWord (s : list ascii) : option (list ascii) :=
  if closingMark s then Some []
  else
    match s with
    | [] => None
    | c :: s' =>
        if isLineTerminator c then None
        else w ← lazyWord s'; Some (c :: w)
    end.

(** ** The editor API types

    Modelled from the spec: the editor API ([import * as vscode]) is not
    among the sources.  Its positions, ranges and locations are "named,
    ranged symbols" and "text ranges": a position is a zero-based line and
    character, a range is an ordered pair of positions. *)
Module vscode.

Record Position := mkPosition { line : Z; character : Z }.

(** [new vscode.Position(line, character)] rejects negative arguments. *)
Definition newPosition (l c : Z) : option Position :=
  if bool_decide (0 ≤ l ∧ 0 ≤ c)%Z then Some (mkPosition l c) else None.

Definition isBefore (a b : Position) : bool :=
  bool_decide (line a < line b)%Z
  || (bool_decide (line a = line b) && bool_decide (character a < character b)%Z).

Record Range := mkRange { start : Position; end_ : Position }.

(** [new vscode.Range(start, end)]: the range is kept ordered, the two
    positions are swapped when [start] is not before [end]. *)
Definition newRange (s e : Position) : Range :=
  if isBefore s e then mkRange s e else mkRange e s.

(** [new vscode.Range(startLine, startCharacter, endLine, endCharacter)]. *)
Definition newRange4 (sl sc el ec : Z) : option Range :=
  s ← newPosition sl sc; e ← newPosition el ec; Some (newRange s e).

Record Location := mkLocation { uri : string; range : Range }.

(** A [vscode.DocumentSymbol].  Its [children] array is a mutable object
    shared with the [MarkdownSymbol] that stands for the same heading; it
    is kept as the address of that array in the store of arrays. *)
Record DocumentSymbol := mkDocumentSymbol {
  name : string;
  symRange : Range;
  selectionRange : Range;
  children : nat
}.

End vscode.

Global Instance Position_eq_dec : EqDecision vscode.Position.
Proof. solve_decision. Defined.
Global Instance Range_eq_dec : EqDecision vscode.Range.
Proof. solve_decision. Defined.
Global Instance DocumentSymbol_eq_dec : EqDecision vscode.DocumentSymbol.
Proof. solve_decision. Defined.

(** ** Documents, tokens and the parser *)

(** [SkinnyTextDocument]: a uri and its lines. *)
Record SkinnyTextDocument := mkDocument {
  uri : string;
  lines : list string
}.

Definition lineCount (document : SkinnyTextDocument) : Z :=
  Z.of_nat (length (lines document)).

(** [document.lineAt(n).text]; it throws when [n] is not a line of the
    document. *)
Definition lineAt (document : SkinnyTextDocument) (n : Z) : option string :=
  if bool_decide (0 ≤ n)%Z then lines document !! Z.to_nat n else None.

(** A markdown-it token: its type, its source map (first line and line after
    the last) when it has one, and its markup. *)
Record Token := mkToken {
  type : string;
  map : option (Z * Z);
  markup : string
}.

(** A slug is a wrapped string. *)
Record Slug := mkSlug { value : string }.

Global Instance Slug_eq_dec : EqDecision Slug.
Proof. solve_decision. Defined.

(** The [Slugifier] interface: the slugify module is not among the sources,
    and every statement below is made for an arbitrary implementation. *)
Record Slugifier := mkSlugifier { fromHeading : string → Slug }.

(** [IMdParser]: a slugifier and a tokenizer. *)
Record IMdParser := mkParser {
  slugifier : Slugifier;
  tokenize : SkinnyTextDocument → list Token
}.

(** ** The table of contents *)

Record TocEntry := mkTocEntry {
  slug : Slug;
  text : string;
  level : Z;
  line : Z;
  sectionLocation : vscode.Location;
  headerLocation : vscode.Location;
  headerTextLocation : vscode.Location
}.

Module TableOfContents.

Definition getHeaderLevel (markup : string) : Z :=
  if bool_decide (markup = "=") then 1
  else if bool_decide (markup = "-") then 2
  else Z.of_nat (String.length markup).

(** [header.replace(/^\s*#+\s*(.*?)(\s+#+)?$/, (_, word) => word.trim())]:
    the greedy prefix takes the leading white space, the hashes and the
    white space after them; when the expression does not match, the
    header is returned as it is. *)
Definition getHeaderText (header : string) : string :=
  let s1 := dropWhile isSpace (String.list_ascii_of_string header) in
  match takeWhile isHash s1 with
  | [] => header
  | _ =>
      match lazyWord (dropWhile isSpace (dropWhile isHash s1)) with
      | Some word => String.string_of_list_ascii (trim word)
      | None => header
      end
  end.

(** The disambiguation step of the first loop: the slug given to a
    heading line and the updated map [existingSlugEntries] (each value is
    the [count] field of the stored object). *)
Definition nextSlug (parser : IMdParser)
    (existingSlugEntries : gmap string nat) (lineText : string)
    : Slug * gmap string nat :=
  let slug := fromHeading (slugifier parser) lineText in
  match existingSlugEntries !! value slug with
  | Some count =>
      (fromHeading (slugifier parser)
         (value slug +:+ "-" +:+ pretty (S count)),
       <[value slug := S count]> existingSlugEntries)
  | None => (slug, <[value slug := 0]> existingSlugEntries)
  end.

(** The body of the first loop for one [heading_open] token: [state] is
    the array [toc] built so far and the map [existingSlugEntries]. *)
Definition addHeading (parser : IMdParser) (document : SkinnyTextDocument)
    (state : list TocEntry * gmap string nat) (heading : Token)
    : option (list TocEntry * gmap string nat) :=
  let '(toc, existingSlugEntries) := state in
  match map heading with
  | None => Some state
  | Some (lineNumber, _) =>
      lineText ← lineAt document lineNumber;
      let '(slug, existingSlugEntries) :=
        nextSlug parser existingSlugEntries lineText in
      let len := Z.of_nat (String.length lineText) in
      headerRange ← vscode.newRange4 lineNumber 0 lineNumber len;
      headerTextRange ← vscode.newRange4
        lineNumber (Z.of_nat (leadingMarkLength lineText))
        lineNumber (len - Z.of_nat (trailingMarkLength lineText));
      let headerLocation := vscode.mkLocation (uri document) headerRange in
      Some (toc ++ [ {|
        slug := slug;
        text := getHeaderText lineText;
        level := getHeaderLevel (markup heading);
        line := lineNumber;
        sectionLocation := headerLocation;
        headerLocation := headerLocation;
        headerTextLocation := vscode.mkLocation (uri document) headerTextRange
      |} ], existingSlugEntries)
  end.

(** The first loop, over the [heading_open] tokens in order. *)
Fixpoint addHeadings (parser : IMdParser) (document : SkinnyTextDocument)
    (state : list TocEntry * gmap string nat) (headings : list Token)
    : option (list TocEntry * gmap string nat) :=
  match headings with
  | [] => Some state
  | heading :: rest =>
      state' ← addHeading parser document state heading;
      addHeadings parser document state' rest
  end.

(** The inner [for] loop of the second pass, over the entries [later]
    that follow the current one ([toc[i]] for [i] from [startIndex + 1]
    on): the line before the first of them whose level is at most
    [entryLevel], or [undefined]. *)
Fixpoint findEnd (later : list TocEntry) (entryLevel : Z) : option Z :=
  match later with
  | [] => None
  | next :: rest =>
      if bool_decide (level next ≤ entryLevel)%Z then Some (line next - 1)%Z
      else findEnd rest entryLevel
  end.

(** The callback of [toc.map((entry, startIndex) => ...)]. *)
Definition withSection (document : SkinnyTextDocument) (toc : list TocEntry)
    (startIndex : nat) (entry : TocEntry) : option TocEntry :=
  let end_ := findEnd (drop (S startIndex) toc) (level entry) in
  let endLine := default (lineCount document - 1)%Z end_ in
  endText ← lineAt document endLine;
  endPosition ← vscode.newPosition endLine (Z.of_nat (String.length endText));
  Some {|
    slug := slug entry;
    text := text entry;
    level := level entry;
    line := line entry;
    sectionLocation := vscode.mkLocation (uri document)
      (vscode.newRange
         (vscode.start (vscode.range (sectionLocation entry))) endPosition);
    headerLocation := headerLocation entry;
    headerTextLocation := headerTextLocation entry
  |}.

Definition buildToc (parser : IMdParser) (document : SkinnyTextDocument)
    : option (list TocEntry) :=
  let tokens := tokenize parser document in
  '(toc, _) ← addHeadings parser document ([], ∅)
                (filter (λ token, type token = "heading_open") tokens);
  mapM id (imap (withSection document toc) toc).

End TableOfContents.

(** The [heading_open] tokens of a document and the lines their source
    maps start at, in token order. *)
Definition headingTokens (parser : IMdParser) (document : SkinnyTextDocument)
    : list Token :=
  filter (λ token, type token = "heading_open") (tokenize parser document).

Definition headingLines (parser : IMdParser) (document : SkinnyTextDocument)
    : list Z :=
  omap (λ token, fst <$> map token) (headingTokens parser document).

Fixpoint increasing (l : list Z) : bool :=
  match l with
  | a :: ((b :: _) as tl) => bool_decide (a < b)%Z && increasing tl
  | _ => true
  end.

(** What the tokenizer is relied on for: the headings it reports start at
    lines of the document, and come in document order. *)
Definition wellFormed (parser : IMdParser) (document : SkinnyTextDocument)
    : Prop :=
  increasing (headingLines parser document) = true
  ∧ Forall (λ n, 0 ≤ n < lineCount document)%Z (headingLines parser document).

(** The slug of the heading at line [n] before any disambiguation. *)
Definition rawSlug (parser : IMdParser) (document : SkinnyTextDocument)
    (n : Z) : string :=
  value (fromHeading (slugifier parser) (default "" (lineAt document n))).

(** How many of the heading lines [ns] have the raw slug [v]. *)
Definition occurrences (parser : IMdParser) (document : SkinnyTextDocument)
    (v : string) (ns : list Z) : nat :=
  length (filter (λ n, rawSlug parser document n = v) ns).

(** The identifier of a heading at line [n] that [k] earlier headings share
    their raw slug with. *)
Definition numberedSlug (parser : IMdParser) (document : SkinnyTextDocument)
    (k : nat) (n : Z) : Slug :=
  match k with
  | O => fromHeading (slugifier parser) (default "" (lineAt document n))
  | S _ =>
      fromHeading (slugifier parser)
        (rawSlug parser document n +:+ "-" +:+ pretty k)
  end.

(** A slugifier that leaves alone a slug it produced once a counter has
    been appended to it. *)
Definition keepsNumbered (s : Slugifier) : Prop :=
  ∀ (text : string) (k : nat),
    fromHeading s (value (fromHeading s text) +:+ "-" +:+ pretty k)
    = mkSlug (value (fromHeading s text) +:+ "-" +:+ pretty k).

(** What holds of the array [toc] and of the map [existingSlugEntries]
    once the first loop has gone through the tokens [processed]. *)
Definition firstLoopInvariant (parser : IMdParser)
    (document : SkinnyTextDocument) (processed : list Token)
    (toc : list TocEntry) (existingSlugEntries : gmap string nat) : Prop :=
  line <$> toc = omap (λ token, fst <$> map token) processed
  ∧ level <$> toc
    = omap (λ token, (λ _, TableOfContents.getHeaderLevel (markup token))
                     <$> map token)
        processed
  ∧ Forall (λ entry, vscode.start (vscode.range (sectionLocation entry))
                     = vscode.mkPosition (line entry) 0) toc
  ∧ (∀ i entry, toc !! i = Some entry →
       slug entry
       = numberedSlug parser document
           (occurrences parser document (rawSlug parser document (line entry))
              (line <$> take i toc))
           (line entry))
  ∧ (∀ v, existingSlugEntries !! v
          = match occurrences parser document v (line <$> toc) with
            | O => None
            | S count => Some count
            end).

(** ** The document-symbol provider *)

(** A level of a [MarkdownSymbol]: a number, or [-Infinity] for the root. *)
Inductive Level := NegInfinity | Finite (n : Z).

(** [a <= b] where [a] is a heading level. *)
Definition levelLe (a : Z) (b : Level) : bool :=
  match b with
  | NegInfinity => false
  | Finite n => bool_decide (a ≤ n)%Z
  end.

(** The interface [MarkdownSymbol]; [children] is the address of the array
    it shares with its [DocumentSymbol]. *)
Module MarkdownSymbol.
Inductive t := make (level : Level) (parent : option t) (children : nat).
Definition level (m : t) : Level := let 'make l _ _ := m in l.
Definition parent (m : t) : option t := let 'make _ p _ := m in p.
Definition children (m : t) : nat := let 'make _ _ c := m in c.
End MarkdownSymbol.

(** The store of [children] arrays, indexed by address. *)
Abbreviation Store := (list (list vscode.DocumentSymbol)).

Module MdDocumentSymbolProvider.

Definition getSymbolName (entry : TocEntry) : string :=
  String.string_of_list_ascii (replicate (Z.to_nat (level entry)) "#"%char)
    +:+ " " +:+ text entry.

(** The symbol of an entry whose [children] array is at [address]. *)
Definition symbolOf (entry : TocEntry) (address : nat)
    : vscode.DocumentSymbol :=
  let r := vscode.range (sectionLocation entry) in
  vscode.mkDocumentSymbol (getSymbolName entry) r r address.

(** [toDocumentSymbol] followed by [symbol.children = []]: the fresh array
    is allocated at the end of the store. *)
Definition toDocumentSymbol (store : Store) (entry : TocEntry)
    : vscode.DocumentSymbol * Store :=
  (symbolOf entry (length store), store ++ [[]]).

(** [while (entry.level <= parent.level) { parent = parent.parent!; }]:
    reading [level] of an [undefined] parent throws. *)
Fixpoint climb (entryLevel : Z) (parent : MarkdownSymbol.t)
    : option MarkdownSymbol.t :=
  match parent with
  | MarkdownSymbol.make l p _ =>
      if levelLe entryLevel l then
        match p with
        | Some parent' => climb entryLevel parent'
        | None => None
        end
      else Some parent
  end.

(** [parent.children.push(symbol)]. *)
Definition push (store : Store) (array : nat) (symbol : vscode.DocumentSymbol)
    : Store :=
  alter (λ a, a ++ [symbol]) array store.

(** One call of [buildTree] on a non-empty list, up to the recursive call:
    the new store and the parent handed to the recursive call. *)
Definition place (store : Store) (parent : MarkdownSymbol.t) (entry : TocEntry)
    : option (Store * MarkdownSymbol.t) :=
  let '(symbol, store) := toDocumentSymbol store entry in
  parent ← climb (level entry) parent;
  Some (push store (MarkdownSymbol.children parent) symbol,
        MarkdownSymbol.make (Finite (level entry)) (Some parent)
          (vscode.children symbol)).

Fixpoint buildTree (store : Store) (parent : MarkdownSymbol.t)
    (entries : list TocEntry) : option Store :=
  match entries with
  | [] => Some store
  | entry :: rest =>
      '(store, parent) ← place store parent entry;
      buildTree store parent rest
  end.

(** The root symbol owns the array at address [0]; the result is that
    array, read in the final store, together with the store that holds
    the arrays of the nested symbols. *)
Definition provideDocumentSymbols (parser : IMdParser)
    (document : SkinnyTextDocument)
    : option (list vscode.DocumentSymbol * Store) :=
  entries ← TableOfContents.buildToc parser document;
  let root := MarkdownSymbol.make NegInfinity None 0 in
  store ← buildTree [[]] root entries;
  children ← store !! 0;
  Some (children, store).

(** The symbol tree with its arrays read out of the store. *)
Inductive SymbolTree :=
  Node (name : string) (range : vscode.Range) (children : list SymbolTree).

Fixpoint readTree (store : Store) (fuel : nat) (symbol : vscode.DocumentSymbol)
    : SymbolTree :=
  Node (vscode.name symbol) (vscode.symRange symbol)
    match fuel with
    | O => []
    | S fuel' =>
        readTree store fuel' <$> default [] (store !! vscode.children symbol)
    end.

(** The result of [provideDocumentSymbols] as trees; no chain of nested
    arrays is longer than the store. *)
Definition outline (parser : IMdParser) (document : SkinnyTextDocument)
    : option (list SymbolTree) :=
  match provideDocumentSymbols parser document with
  | Some (roots, store) => Some (readTree store (length store) <$> roots)
  | None => None
  end.

End MdDocumentSymbolProvider.

(** ** Vocabulary for the symbol tree *)

(** [a < b] on levels. *)
Definition levelLt (a b : Level) : Prop :=
  match a, b with
  | NegInfinity, Finite _ => True
  | Finite x, Finite y => (x < y)%Z
  | _, NegInfinity => False
  end.

(** The level of the symbol that owns the array at [address]: the root owns
    address [0], the symbol of the entry of index [i] owns address [S i]. *)
Definition levelOf (entries : list TocEntry) (address : nat) : Level :=
  match address with
  | O => NegInfinity
  | S i => from_option (λ entry, Finite (level entry)) NegInfinity (entries !! i)
  end.

(** [b] is in the [children] array of [a], or of a descendant of [a]. *)
Inductive Descendant (store : Store)
    : vscode.DocumentSymbol → vscode.DocumentSymbol → Prop :=
  | Descendant_child a b array :
      store !! vscode.children a = Some array → b ∈ array →
      Descendant store a b
  | Descendant_deeper a b c array :
      store !! vscode.children a = Some array → b ∈ array →
      Descendant store b c → Descendant store a c.

(** A chain of [MarkdownSymbol]s linked by [parent]: each one carries the
    level of the symbol that owns its array, its array is allocated, and the
    chain ends at a symbol of level [-Infinity]. *)
Fixpoint chainOk (entries : list TocEntry) (allocated : nat)
    (m : MarkdownSymbol.t) : Prop :=
  match m with
  | MarkdownSymbol.make l p c =>
      l = levelOf entries c ∧ c < allocated
      ∧ match p with
        | Some m' => chainOk entries allocated m'
        | None => l = NegInfinity
        end
  end.

(** What holds of the store and of the current parent when [buildTree] is
    called, the entries [placed] having been placed already: one array per
    symbol and one for the root; every element of an array is the symbol of
    a placed entry, whose level is above that of the owner of the array. *)
Definition treeInvariant (placed : list TocEntry) (store : Store)
    (parent : MarkdownSymbol.t) : Prop :=
  length store = S (length placed)
  ∧ chainOk placed (length store) parent
  ∧ ∀ p array s, store !! p = Some array → s ∈ array →
      ∃ i entry,
        placed !! i = Some entry
        ∧ s = MdDocumentSymbolProvider.symbolOf entry (S i)
        ∧ levelLt (levelOf placed p) (Finite (level entry)).

(** ** Sample documents *)

Definition identitySlugifier : Slugifier := mkSlugifier mkSlug.

(** A tokenizer for documents of setext headings: every line followed by a
    line of [=] or [-] is a heading. *)
Fixpoint setextTokens (n : Z) (ls : list string) : list Token :=
  match ls with
  | l1 :: ((l2 :: rest) as tl) =>
      if bool_decide (l2 = "===") then
        mkToken "heading_open" (Some (n, n + 2)%Z) "="
          :: mkToken "inline" (Some (n, n + 1)%Z) ""
          :: mkToken "heading_close" None "=" :: setextTokens (n + 2) rest
      else if bool_decide (l2 = "---") then
        mkToken "heading_open" (Some (n, n + 2)%Z) "-"
          :: mkToken "inline" (Some (n, n + 1)%Z) ""
          :: mkToken "heading_close" None "-" :: setextTokens (n + 2) rest
      else setextTokens (n + 1) tl
  | _ => []
  end.

Definition sampleParser : IMdParser :=
  mkParser identitySlugifier (λ document, setextTokens 0 (lines document)).

(** Four headings: "a" (level 1), "a" and "a-1" (level 2), "b" (level 1). *)
Definition sampleDocument : SkinnyTextDocument :=
  mkDocument "file:///notes.md"
    ["a"; "==="; "a"; "---"; "a-1"; "---"; "text"; "b"; "==="; "more"].

(** For a slugifier [s], three setext headings: "a", "a", and a third one
    whose text is the numbered slug out of which the identifier of the
    second is made. *)
Definition clashParser (s : Slugifier) : IMdParser :=
  mkParser s (λ _,
    [mkToken "heading_open" (Some (0, 2)%Z) "=";
     mkToken "heading_open" (Some (2, 4)%Z) "=";
     mkToken "heading_open" (Some (4, 6)%Z) "="]).

Definition clashDocument (s : Slugifier) : SkinnyTextDocument :=
  mkDocument "file:///clash.md"
    ["a"; "==="; "a"; "===";
     value (fromHeading s "a") +:+ "-" +:+ pretty 1; "==="].

(** ** The profile service: data *)

(** Modelled from the spec: the [URI] class is not among the sources; a
    profile has a "filesystem location" and a workspace is identified by
    one.  A URI is kept as its five components. *)
Record URI := mkURI {
  scheme : string;
  authority : string;
  path : string;
  query : string;
  fragment : string
}.

Global Instance URI_eq_dec : EqDecision URI.
Proof. solve_decision. Defined.

Global Instance URI_countable : Countable URI.
Proof.
  refine (inj_countable'
    (λ u, (scheme u, authority u, path u, query u, fragment u))
    (λ t, let '(s, a, p, q, f) := t in mkURI s a p q f) _).
  by intros [].
Defined.

(** Modelled from the spec: [UseDefaultProfileFlags] is not among the
    sources; a profile record carries a "default-flag set". *)
Definition UseDefaultProfileFlags := list string.

(** [IUserDataProfile] is declared in the common profile module, which is
    not among the sources; these are the fields the service reads. *)
Record IUserDataProfile := mkProfile {
  name : string;
  location : URI;
  isDefault : bool;
  useDefaultFlags : option UseDefaultProfileFlags
}.

Global Instance IUserDataProfile_eq_dec : EqDecision IUserDataProfile.
Proof. solve_decision. Defined.

Module StoredUserDataProfile.
Record t := make {
  name : string;
  location : URI;
  useDefaultFlags : option UseDefaultProfileFlags
}.
End StoredUserDataProfile.

Module StoredWorkspaceInfo.
Record t := make { workspace : URI; profile : URI }.
End StoredWorkspaceInfo.

(** [ISingleFolderWorkspaceIdentifier | IWorkspaceIdentifier]. *)
Inductive WorkspaceIdentifier :=
  | SingleFolderWorkspace (id : string) (uri : URI)
  | MultiRootWorkspace (id : string) (configPath : URI).

(** [UserDataProfilesObject]; the [ResourceMap] is keyed by the URI. *)
Record UserDataProfilesObject := mkProfilesObject {
  profiles : list IUserDataProfile;
  workspaces : gmap URI IUserDataProfile
}.

(** An [Error] is its message. *)
Definition Error := string.

Inductive Result (A : Type) :=
  | Ok (a : A)
  | Throw (e : Error).
Arguments Ok {A} a.
Arguments Throw {A} e.

(** A promise handed to [join]: it settles, fulfilled ([None]) or rejected
    with an error. *)
Record Promise := mkPromise { promiseId : nat; outcome : option Error }.

(** A listener of [onWillCreateProfile] or [onWillRemoveProfile]: the
    promises it passes to [join] while the event is fired. *)
Definition WillListener := IUserDataProfile → list Promise.

(** The values kept in the state store, one shape per key. *)
Inductive Item :=
  | ProfilesItem (v : list StoredUserDataProfile.t)
  | WorkspaceInfosItem (v : list StoredWorkspaceInfo.t).

(** What the service does to the world around it, in program order. *)
Inductive Effect :=
  | SetItem (key : string) (v : Item)
  | CreateFolder (resource : URI)
  | Del (resource : URI) (recursive : bool)
  | WillCreateProfile (profile : IUserDataProfile)
  | WillRemoveProfile (profile : IUserDataProfile)
  | Joined (promise : Promise)
  | Settled (promise : Promise)
  | DidChangeProfiles (all : list IUserDataProfile).

(** The collaborators the service is built on.  [FS] is the state of the
    file system behind [IFileService]; [extUri_isEqual] is
    [uriIdentityService.extUri.isEqual]; [toUserDataProfile],
    [reviveProfile] and [createDefaultUserDataProfile] come from the common
    profile module, which is not among the sources: reviving rewrites the
    scheme of the URIs of a profile, so that reviving twice is reviving
    once, and keeps its name and default flag. *)
Class Host (FS : Type) := {
  extUri_isEqual : URI → URI → bool;
  toUserDataProfile :
    string → URI → option UseDefaultProfileFlags → IUserDataProfile;
  reviveProfile : IUserDataProfile → string → IUserDataProfile;
  createDefaultUserDataProfile : bool → IUserDataProfile;
  fileService_exists : FS → URI → bool;
  fileService_createFolder : FS → URI → Result FS;
  fileService_del : FS → URI → bool → Result FS;
  reviveProfile_name p s : name (reviveProfile p s) = name p;
  reviveProfile_isDefault p s : isDefault (reviveProfile p s) = isDefault p;
  reviveProfile_again p s :
    reviveProfile (reviveProfile p s) s = reviveProfile p s
}.

(** The service object: the state store and the file system it talks to,
    its fields, the listeners of its two emitters, and the effects it has
    produced so far. *)
Record Service (FS : Type) := mkService {
  stateMainService : gmap string Item;
  fileSystem : FS;
  profilesHome : URI;
  defaultProfile : IUserDataProfile;
  _profilesObject : option UserDataProfilesObject;
  _onWillCreateProfile : list WillListener;
  _onWillRemoveProfile : list WillListener;
  effects : list Effect
}.
Arguments mkService {FS}.
Arguments stateMainService {FS}.
Arguments fileSystem {FS}.
Arguments profilesHome {FS}.
Arguments defaultProfile {FS}.
Arguments _profilesObject {FS}.
Arguments _onWillCreateProfile {FS}.
Arguments _onWillRemoveProfile {FS}.
Arguments effects {FS}.

(** ** The profile service: operations *)

Module UserDataProfilesMainService.
Section Operations.
Context {FS : Type} `{!Host FS}.

Definition PROFILES_KEY : string := "userDataProfiles".
Definition WORKSPACE_PROFILE_INFO_KEY : string := "workspaceAndProfileInfo".

(** Computations of the service: they read and write the service object
    and either return or throw; what was written before a throw stays. *)
Definition M (A : Type) : Type := Service FS → Result A * Service FS.

Definition ret {A} (a : A) : M A := λ s, (Ok a, s).
Definition throw {A} (e : Error) : M A := λ s, (Throw e, s).
Definition bind {A B} (m : M A) (k : A → M B) : M B :=
  λ s, match m s with
       | (Ok a, s') => k a s'
       | (Throw e, s') => (Throw e, s')
       end.
Definition gets {A} (f : Service FS → A) : M A := λ s, (Ok (f s), s).

Local Notation "'let!' x ':=' m 'in' k" := (bind m (λ x, k))
  (at level 10, x name, m at level 100, k at level 200).
Local Notation "m ';;' k" := (bind m (λ _, k))
  (at level 100, k at level 200, right associativity).

Definition emit (e : Effect) : M unit :=
  λ s, (Ok (),
        mkService (stateMainService s) (fileSystem s) (profilesHome s)
          (defaultProfile s) (_profilesObject s) (_onWillCreateProfile s)
          (_onWillRemoveProfile s) (effects s ++ [e])).

Definition setProfilesObject (o : option UserDataProfilesObject) : M unit :=
  λ s, (Ok (),
        mkService (stateMainService s) (fileSystem s) (profilesHome s)
          (defaultProfile s) o (_onWillCreateProfile s)
          (_onWillRemoveProfile s) (effects s)).


(** [stateMainService.setItem(key, value)]. *)
Definition setItem (key : string) (v : Item) : M unit :=
  (λ s, (Ok (),
         mkService (<[key := v]> (stateMainService s)) (fileSystem s)
           (profilesHome s) (defaultProfile s) (_profilesObject s)
           (_onWillCreateProfile s) (_onWillRemoveProfile s) (effects s))) ;;
  emit (SetItem key v).

(** A call of the file service that changes the file system or throws. *)
Definition fileOp (op : FS → Result FS) (e : Effect) : M unit :=
  emit e ;;
  λ s, match op (fileSystem s) with
       | Ok fs =>
           (Ok (),
            mkService (stateMainService s) fs (profilesHome s)
              (defaultProfile s) (_profilesObject s) (_onWillCreateProfile s)
              (_onWillRemoveProfile s) (effects s))
       | Throw err => (Throw err, s)
       end.

(** The getters [storedProfiles] and [storedWorskpaceInfos]:
    [getItem(key, [])]. *)
Definition storedProfiles (s : Service FS) : list StoredUserDataProfile.t :=
  match stateMainService s !! PROFILES_KEY with
  | Some (ProfilesItem v) => v
  | _ => []
  end.

Definition storedWorskpaceInfos (s : Service FS) : list StoredWorkspaceInfo.t :=
  match stateMainService s !! WORKSPACE_PROFILE_INFO_KEY with
  | Some (WorkspaceInfosItem v) => v
  | _ => []
  end.

(** What the getter [profilesObject] computes when nothing is cached. *)
Definition readProfilesObject (s : Service FS) : UserDataProfilesObject :=
  let profiles :=
    defaultProfile s ::
    ((λ storedProfile,
        toUserDataProfile (StoredUserDataProfile.name storedProfile)
          (StoredUserDataProfile.location storedProfile)
          (StoredUserDataProfile.useDefaultFlags storedProfile))
     <$> storedProfiles s) in
  let workspaces :=
    fold_left
      (λ workspaces workspaceProfileInfo,
         match List.find
                 (λ p, extUri_isEqual (location p)
                         (StoredWorkspaceInfo.profile workspaceProfileInfo))
                 profiles with
         | Some profile =>
             <[StoredWorkspaceInfo.workspace workspaceProfileInfo := profile]>
               workspaces
         | None => workspaces
         end)
      (storedWorskpaceInfos s) ∅ in
  mkProfilesObject profiles workspaces.

Definition profilesObject : M UserDataProfilesObject :=
  let! cached := gets _profilesObject in
  match cached with
  | Some o => ret o
  | None =>
      let! o := gets readProfilesObject in
      setProfilesObject (Some o) ;;
      ret o
  end.

Definition getProfiles : M (list IUserDataProfile) :=
  let! o := profilesObject in ret (profiles o).

Definition getAllProfiles : M (list IUserDataProfile) := getProfiles.

(** The setters. *)
Definition setStoredProfiles (v : list StoredUserDataProfile.t) : M unit :=
  setItem PROFILES_KEY (ProfilesItem v) ;;
  setProfilesObject None ;;
  let! all := getProfiles in
  emit (DidChangeProfiles all).

Definition setStoredWorskpaceInfos (v : list StoredWorkspaceInfo.t) : M unit :=
  setItem WORKSPACE_PROFILE_INFO_KEY (WorkspaceInfosItem v) ;;
  setProfilesObject None.


Definition getWorkspace (workspaceIdentifier : WorkspaceIdentifier) : URI :=
  match workspaceIdentifier with
  | SingleFolderWorkspace _ uri => uri
  | MultiRootWorkspace _ configPath => configPath
  end.

Definition getProfile (workspaceIdentifier : WorkspaceIdentifier)
    : M IUserDataProfile :=
  let! o := profilesObject in
  match workspaces o !! getWorkspace workspaceIdentifier with
  | Some profile => ret profile
  | None => gets defaultProfile
  end.

(** [emitter.fire({ profile, join })]: the event is delivered to the
    listeners in order and [joiners] collects what they join. *)
Definition fire (event : Effect) (listeners : list WillListener)
    (profile : IUserDataProfile) : M (list Promise) :=
  emit event ;;
  let joiners := listeners ≫= (λ listener, listener profile) in
  (λ s, (Ok joiners,
         mkService (stateMainService s) (fileSystem s) (profilesHome s)
           (defaultProfile s) (_profilesObject s) (_onWillCreateProfile s)
           (_onWillRemoveProfile s) (effects s ++ (Joined <$> joiners)))).

(** Modelled from the spec: [Promises.settled] (the async utilities are
    not among the sources) is "a simple settle-all join ... so that
    listeners can veto or delay the operation": it resumes once every
    promise has settled, and throws the first rejection when there is
    one. *)
Definition settled (promises : list Promise) : M unit :=
  (λ s, (Ok (),
         mkService (stateMainService s) (fileSystem s) (profilesHome s)
           (defaultProfile s) (_profilesObject s) (_onWillCreateProfile s)
           (_onWillRemoveProfile s) (effects s ++ (Settled <$> promises)))) ;;
  match omap outcome promises with
  | firstError :: _ => throw firstError
  | [] => ret ()
  end.

Definition findByLocation (profile : IUserDataProfile)
    : M (option IUserDataProfile) :=
  let! o := profilesObject in
  ret (List.find (λ p, extUri_isEqual (location p) (location profile))
         (profiles o)).

Definition setProfileForWorkspace (profile : IUserDataProfile)
    (workspaceIdentifier : WorkspaceIdentifier)
    : M (option IUserDataProfile) :=
  let! home := gets profilesHome in
  let profile := reviveProfile profile (scheme home) in
  let workspace := getWorkspace workspaceIdentifier in
  let! infos := gets storedWorskpaceInfos in
  let storedWorkspaceInfos :=
    List.filter
      (λ info, negb (extUri_isEqual (StoredWorkspaceInfo.workspace info)
                       workspace))
      infos in
  let storedWorkspaceInfos :=
    if isDefault profile then storedWorkspaceInfos
    else storedWorkspaceInfos
           ++ [StoredWorkspaceInfo.make workspace (location profile)] in
  setStoredWorskpaceInfos storedWorkspaceInfos ;;
  findByLocation profile.

Definition createProfile (profile : IUserDataProfile)
    (workspaceIdentifier : option WorkspaceIdentifier)
    : M (option IUserDataProfile) :=
  let! home := gets profilesHome in
  let profile := reviveProfile profile (scheme home) in
  let! stored := gets storedProfiles in
  if existsb (λ p, bool_decide (StoredUserDataProfile.name p = name profile))
       stored
  then throw ("Profile with name " +:+ name profile +:+ " already exists")
  else
    let! present := gets (λ s, fileService_exists (fileSystem s) home) in
    (if present then ret ()
     else fileOp (λ fs, fileService_createFolder fs home) (CreateFolder home)) ;;
    let! listeners := gets _onWillCreateProfile in
    let! joiners := fire (WillCreateProfile profile) listeners profile in
    settled joiners ;;
    let storedProfile :=
      StoredUserDataProfile.make (name profile) (location profile)
        (useDefaultFlags profile) in
    let! stored := gets storedProfiles in
    setStoredProfiles (stored ++ [storedProfile]) ;;
    match workspaceIdentifier with
    | Some workspaceIdentifier =>
        setProfileForWorkspace profile workspaceIdentifier
    | None => ret None
    end ;;
    findByLocation profile.

Definition removeProfile (profile : IUserDataProfile) : M unit :=
  if isDefault profile then throw "Cannot remove default profile"
  else
    let! home := gets profilesHome in
    let profile := reviveProfile profile (scheme home) in
    let! stored := gets storedProfiles in
    if negb (existsb
               (λ p, extUri_isEqual (StoredUserDataProfile.location p)
                       (location profile))
               stored)
    then throw ("Profile with name " +:+ name profile +:+ " does not exist")
    else
      let! listeners := gets _onWillRemoveProfile in
      let! joiners := fire (WillRemoveProfile profile) listeners profile in
      settled joiners ;;
      let! all := getProfiles in
      (if bool_decide (length all = 2)
       then fileOp (λ fs, fileService_del fs home true) (Del home true)
       else fileOp (λ fs, fileService_del fs (location profile) true)
              (Del (location profile) true)) ;;
      let! infos := gets storedWorskpaceInfos in
      setStoredWorskpaceInfos
        (List.filter
           (λ p, negb (extUri_isEqual (StoredWorkspaceInfo.profile p)
                         (location profile)))
           infos) ;;
      let! stored := gets storedProfiles in
      setStoredProfiles
        (List.filter
           (λ p, negb (extUri_isEqual (StoredUserDataProfile.location p)
                         (location profile)))
           stored).

End Operations.

Notation "'let!' x ':=' m 'in' k" := (bind m (λ x, k))
  (at level 10, x name, m at level 100, k at level 200).
Notation "m ';;' k" := (bind m (λ _, k))
  (at level 100, k at level 200, right associativity).

End UserDataProfilesMainService.

(** ** Vocabulary for the profile service *)

Section ServiceVocabulary.
Context {FS : Type} `{!Host FS}.
Import UserDataProfilesMainService.

(** The cached [_profilesObject], when there is one, is what the getter
    would compute from the state store. *)
Definition cacheCoherent (s : Service FS) : Prop :=
  _profilesObject s = None ∨ _profilesObject s = Some (readProfilesObject s).

(** The writes of a sequence of effects, applied to the state store. *)
Definition replay (new : list Effect) (store : gmap string Item)
    : gmap string Item :=
  fold_left
    (λ store e, match e with SetItem key v => <[key := v]> store | _ => store end)
    new store.

(** [s'] is [s] after the effects [new]: the log has grown by [new], the
    state store has taken the writes of [new], the fields set at
    construction and the listeners are the same, and a coherent cache
    stays coherent. *)
Definition evolves (s s' : Service FS) (new : list Effect) : Prop :=
  effects s' = effects s ++ new
  ∧ stateMainService s' = replay new (stateMainService s)
  ∧ profilesHome s' = profilesHome s
  ∧ defaultProfile s' = defaultProfile s
  ∧ _onWillCreateProfile s' = _onWillCreateProfile s
  ∧ _onWillRemoveProfile s' = _onWillRemoveProfile s
  ∧ (cacheCoherent s → cacheCoherent s').

(** An operation commits when it writes to the state store or deletes a
    file. *)
Definition isCommit (e : Effect) : bool :=
  match e with
  | SetItem _ _ | Del _ _ => true
  | _ => false
  end.

Definition isWrite (e : Effect) : bool :=
  match e with
  | SetItem _ _ => true
  | _ => false
  end.

Definition isJoined (e : Effect) : bool :=
  match e with
  | Joined _ => true
  | _ => false
  end.


(** In the effects [new] of one operation, every promise that was joined
    has settled before anything is committed. *)
Definition settledBeforeCommit (new : list Effect) : Prop :=
  ∀ before e after promise,
    new = before ++ e :: after → isCommit e = true →
    Joined promise ∈ new → Settled promise ∈ before.

(** No stored association refers to the location of the default
    profile. *)
Definition noDefaultAssociation (s : Service FS) : Prop :=
  Forall
    (λ info, extUri_isEqual (StoredWorkspaceInfo.profile info)
               (location (defaultProfile s)) = false)
    (storedWorskpaceInfos s).

(** A profile handed to the service is flagged as the default one when it
    is located where the default profile is. *)
Definition wellFlagged (s : Service FS) (profile : IUserDataProfile) : Prop :=
  isDefault profile = false →
  extUri_isEqual
    (location (reviveProfile profile (scheme (profilesHome s))))
    (location (defaultProfile s)) = false.

(** The promises joined when an event about [profile] is delivered to
    [listeners]. *)
Definition joinedBy (listeners : list WillListener)
    (profile : IUserDataProfile) : list Promise :=
  listeners ≫= (λ listener, listener profile).

(** The effects of announcing an operation on [profile] to [listeners]
    and waiting for what they joined. *)
Definition announced (event : Effect) (listeners : list WillListener)
    (profile : IUserDataProfile) : list Effect :=
  event :: (Joined <$> joinedBy listeners profile)
    ++ (Settled <$> joinedBy listeners profile).

End ServiceVocabulary.

Global Arguments announced : simpl never.

(** ** A sample host and sample states *)

(** A file system as the list of the resources that exist; deleting
    recursively removes a resource and everything below its path. *)
Definition withScheme (s : string) (u : URI) : URI :=
  mkURI s (authority u) (path u) (query u) (fragment u).

Definition below (parent child : URI) : bool :=
  bool_decide (scheme parent = scheme child)
  && String.prefix (path parent) (path child).

#[export] Instance sampleHost : Host (list URI) := {|
  extUri_isEqual a b := bool_decide (a = b);
  toUserDataProfile n l f := mkProfile n l false f;
  reviveProfile p s :=
    mkProfile (name p) (withScheme s (location p)) (isDefault p)
      (useDefaultFlags p);
  createDefaultUserDataProfile _ :=
    mkProfile "default" (mkURI "file" "" "/user" "" "") true None;
  fileService_exists fs u := bool_decide (u ∈ fs);
  fileService_createFolder fs u := Ok (u :: fs);
  fileService_del fs u _ :=
    if bool_decide (u ∈ fs) then Ok (List.filter (λ v, negb (below u v)) fs)
    else Throw "Unable to delete nonexistent file";
  reviveProfile_name _ _ := eq_refl;
  reviveProfile_isDefault _ _ := eq_refl;
  reviveProfile_again _ _ := eq_refl
|}.

Definition fileUri (p : string) : URI := mkURI "file" "" p "" "".

Definition sampleDefault : IUserDataProfile :=
  mkProfile "default" (fileUri "/user") true None.

Definition sampleWork : IUserDataProfile :=
  mkProfile "work" (fileUri "/user/profiles/work") false None.

Definition sampleHome : IUserDataProfile :=
  mkProfile "home" (fileUri "/user/profiles/home") false None.

Definition stored (p : IUserDataProfile) : StoredUserDataProfile.t :=
  StoredUserDataProfile.make (name p) (location p) (useDefaultFlags p).

(** A listener that joins one promise that fulfils. *)
Definition sampleListener : WillListener := λ _, [mkPromise 7 None].

(** A freshly started service: nothing stored, nothing cached. *)
Definition sampleEmpty : Service (list URI) :=
  mkService ∅ [fileUri "/user"] (fileUri "/user/profiles") sampleDefault None
    [sampleListener] [sampleListener] [].

(** A service with one stored profile, associated with one workspace. *)
Definition sampleOne : Service (list URI) :=
  mkService
    (<[UserDataProfilesMainService.PROFILES_KEY :=
         ProfilesItem [stored sampleWork]]>
     (<[UserDataProfilesMainService.WORKSPACE_PROFILE_INFO_KEY :=
          WorkspaceInfosItem
            [StoredWorkspaceInfo.make (fileUri "/src/app") (location sampleWork)]]>
      ∅))
    [fileUri "/user"; fileUri "/user/profiles"; fileUri "/user/profiles/work"]
    (fileUri "/user/profiles") sampleDefault None
    [sampleListener] [sampleListener] [].


(** ** Further vocabulary for the table of contents *)

(** [a] is not after [b]. *)
Definition positionLe (a b : vscode.Position) : bool :=
  negb (vscode.isBefore b a).

(** Both ends of [inner] lie within [outer]. *)
Definition rangeContains (outer inner : vscode.Range) : bool :=
  positionLe (vscode.start outer) (vscode.start inner)
  && positionLe (vscode.end_ inner) (vscode.end_ outer).

(** [c.repeat(n)]. *)
Definition repeatChar (c : ascii) (n : nat) : string :=
  String.string_of_list_ascii (replicate n c).

(** A character that is neither white space nor a hash. *)
Definition isPlain (c : ascii) : bool := negb (isSpace c) && negb (isHash c).

(** A heading text that starts and ends with a plain character and has no
    line terminator. *)
Definition plainText (w : string) : bool :=
  let s := String.list_ascii_of_string w in
  from_option isPlain false (head s)
  && from_option isPlain false (last s)
  && forallb (λ c, negb (isLineTerminator c)) s.

(** The line of an ATX heading: [n] hashes, [g] spaces, the text, and a
    closing sequence of [a] spaces and [b] hashes. *)
Definition atxLine (n g : nat) (w : string) (a b : nat) : string :=
  repeatChar "#" n +:+ repeatChar " " g +:+ w
    +:+ repeatChar " " a +:+ repeatChar "#" b.

(** What the first loop records of the heading line of an entry: its text,
    the range of the whole line and the range between the marks. *)
Definition headerShaped (document : SkinnyTextDocument) (entry : TocEntry)
    : Prop :=
  ∃ lineText,
    lineAt document (line entry) = Some lineText
    ∧ text entry = TableOfContents.getHeaderText lineText
    ∧ headerLocation entry
      = vscode.mkLocation (uri document)
          (vscode.mkRange (vscode.mkPosition (line entry) 0)
             (vscode.mkPosition (line entry)
                (Z.of_nat (String.length lineText))))
    ∧ headerTextLocation entry
      = vscode.mkLocation (uri document)
          (vscode.newRange
             (vscode.mkPosition (line entry)
                (Z.of_nat (leadingMarkLength lineText)))
             (vscode.mkPosition (line entry)
                (Z.of_nat (String.length lineText)
                 - Z.of_nat (trailingMarkLength lineText)))).

(** The last line of the section of the entry of index [i] and level [lv]
    in the array [toc] of the first loop ([end ?? document.lineCount - 1]). *)
Definition sectionEndLine (document : SkinnyTextDocument) (toc : list TocEntry)
    (i : nat) (lv : Z) : Z :=
  default (lineCount document - 1)%Z
    (TableOfContents.findEnd (drop (S i) toc) lv).

(** A tokenizer for documents of ATX headings: every line that starts with
    hashes is a heading, whose markup is these hashes. *)
Fixpoint atxTokens (n : Z) (ls : list string) : list Token :=
  match ls with
  | l :: rest =>
      match takeWhile isHash (String.list_ascii_of_string l) with
      | [] => atxTokens (n + 1) rest
      | hashes =>
          mkToken "heading_open" (Some (n, n + 1)%Z)
            (String.string_of_list_ascii hashes)
            :: mkToken "inline" (Some (n, n + 1)%Z) ""
            :: mkToken "heading_close" None
                 (String.string_of_list_ascii hashes)
            :: atxTokens (n + 1) rest
      end
  | [] => []
  end.

Definition atxParser : IMdParser :=
  mkParser identitySlugifier (λ document, atxTokens 0 (lines document)).

(** Five headings, of levels 1, 2, 3, 2 and 1. *)
Definition atxDocument : SkinnyTextDocument :=
  mkDocument "file:///guide.md"
    ["# Guide"; "intro"; "## Install ##"; "steps"; "### Linux"; "apt";
     "## Use"; "# Notes"].

(** ** Further vocabulary for the symbol tree *)

(** The address of the array that should receive the heading of index [j]
    and level [lv]: that of the nearest earlier heading whose level is
    below [lv], or the root array when there is none. *)
Fixpoint ownerOf (toc : list TocEntry) (lv : Z) (j : nat) : nat :=
  match j with
  | O => 0
  | S i =>
      match toc !! i with
      | Some entry =>
          if bool_decide (level entry < lv)%Z then S i else ownerOf toc lv i
      | None => ownerOf toc lv i
      end
  end.

(** The symbols of the headings owned by the array at [address], in
    document order. *)
Definition childOf (toc : list TocEntry) (address : nat) (j : nat)
    (entry : TocEntry) : option vscode.DocumentSymbol :=
  if decide (ownerOf toc (level entry) j = address)
  then Some (MdDocumentSymbolProvider.symbolOf entry (S j)) else None.

Definition childrenOf (toc : list TocEntry) (address : nat)
    : list vscode.DocumentSymbol :=
  omap id (imap (childOf toc address) toc).

(** The chain of [MarkdownSymbol]s that [buildTree] holds once the entries
    [placed] are placed: the first one owns the array of the entry placed
    last; each one carries the level of the owner of its array; going to
    the parent, levels decrease, and the headings placed between a symbol
    of the chain and the one [above] it (of level [lv], at address
    [cAbove]) are of level at least [lv]. *)
Fixpoint chainBelow (placed : list TocEntry) (above : option (Z * nat))
    (m : MarkdownSymbol.t) : Prop :=
  match m with
  | MarkdownSymbol.make l p c =>
      l = levelOf placed c ∧ c ≤ length placed
      ∧ match above with
        | Some (lv, cAbove) =>
            levelLt l (Finite lv) ∧ c < cAbove
            ∧ ∀ k entry, c ≤ k → S k < cAbove → placed !! k = Some entry →
                (lv ≤ level entry)%Z
        | None => c = length placed
        end
      ∧ match p with
        | Some m' => ∃ lz, l = Finite lz ∧ chainBelow placed (Some (lz, c)) m'
        | None => l = NegInfinity ∧ c = 0
        end
  end.

(** What holds of the store and of the current parent when [buildTree] is
    called, beyond [treeInvariant]: each array holds the symbols of the
    headings it owns. *)
Definition treeShape (placed : list TocEntry) (store : Store)
    (parent : MarkdownSymbol.t) : Prop :=
  chainBelow placed None parent
  ∧ ∀ q, q ≤ length placed → store !! q = Some (childrenOf placed q).

(** ** The table of contents as an object, and the flat list of symbols *)

(** An instance of the class [TableOfContents]: its entries and the
    slugifier of the parser that made them. *)
Module TableOfContentsClass.

Record t := make { entries : list TocEntry; slugifier : Slugifier }.

Definition create (parser : IMdParser) (document : SkinnyTextDocument)
    : option t :=
  entries ← TableOfContents.buildToc parser document;
  Some (make entries (let 'mkParser s _ := parser in s)).

(** [TableOfContents.empty], for the slugifier it is given. *)
Definition empty (githubSlugifier : Slugifier) : t := make [] githubSlugifier.

Section Lookup.
(** [Slug.equals] belongs to the slugify module, which is not among the
    sources: [lookup] is defined for an arbitrary one. *)
Variable equals : Slug → Slug → bool.

Definition lookup (toc : t) (fragment : string) : option TocEntry :=
  let fragmentSlug := fromHeading (slugifier toc) fragment in
  List.find (λ entry, equals (slug entry) fragmentSlug) (entries toc).
End Lookup.

End TableOfContentsClass.

(** The other entry point of [MdDocumentSymbolProvider]: the flat list of
    [vscode.SymbolInformation], one per heading. *)
Module MdDocumentSymbolInformation.

Inductive SymbolKind := SymbolKindString.

(** Modelled from the spec: [vscode.SymbolInformation] is part of the
    editor API, a "named, ranged" symbol of the "flat list": the four
    arguments of its constructor. *)
Record SymbolInformation := mkSymbolInformation {
  name : string;
  kind : SymbolKind;
  containerName : string;
  location : vscode.Location
}.

Definition toSymbolInformation (entry : TocEntry) : SymbolInformation :=
  mkSymbolInformation (MdDocumentSymbolProvider.getSymbolName entry)
    SymbolKindString EmptyString (sectionLocation entry).

Definition provideDocumentSymbolInformation (parser : IMdParser)
    (document : SkinnyTextDocument) : option (list SymbolInformation) :=
  entries ← TableOfContents.buildToc parser document;
  Some (fmap (M := list) toSymbolInformation entries).

End MdDocumentSymbolInformation.

(** A parser that reports a heading at line 5 whatever the document, and
    a document of one line without any heading. *)
Definition strayParser : IMdParser :=
  mkParser identitySlugifier
    (λ _, [mkToken "heading_open" (Some (5, 6)%Z) "#"]).

Definition plainDocument : SkinnyTextDocument :=
  mkDocument "file:///plain.md" ["just text"].

(** ** Further vocabulary for the profile service *)

Definition isDidChange (e : Effect) : bool :=
  match e with
  | DidChangeProfiles _ => true
  | _ => false
  end.


Section ServiceVocabulary2.
Context {FS : Type} `{!Host FS}.
Import UserDataProfilesMainService.


(** The profile made of a stored record. *)
Definition listed (p : StoredUserDataProfile.t) : IUserDataProfile :=
  toUserDataProfile (StoredUserDataProfile.name p)
    (StoredUserDataProfile.location p) (StoredUserDataProfile.useDefaultFlags p).

(** The stored associations once [workspace] is associated with the
    profile [revived]. *)
Definition associate (workspace : URI) (revived : IUserDataProfile)
    (infos : list StoredWorkspaceInfo.t) : list StoredWorkspaceInfo.t :=
  let kept :=
    List.filter
      (λ info, negb (extUri_isEqual (StoredWorkspaceInfo.workspace info)
                       workspace))
      infos in
  if isDefault revived then kept
  else kept ++ [StoredWorkspaceInfo.make workspace (location revived)].

End ServiceVocabulary2.

Section ServiceVocabulary3.
Context {FS : Type} `{!Host FS}.
Import UserDataProfilesMainService.

(** The map of workspaces that the getter [profilesObject] builds out of
    the profiles [all] and the stored associations [infos]. *)
Definition workspacesOf (all : list IUserDataProfile)
    (infos : list StoredWorkspaceInfo.t) : gmap URI IUserDataProfile :=
  fold_left
    (λ workspaces workspaceProfileInfo,
       match List.find
               (λ p, extUri_isEqual (location p)
                       (StoredWorkspaceInfo.profile workspaceProfileInfo))
               all with
       | Some profile =>
           <[StoredWorkspaceInfo.workspace workspaceProfileInfo := profile]>
             workspaces
       | None => workspaces
       end)
    infos ∅.

End ServiceVocabulary3.

(** A listener that vetoes: the promise it joins rejects. *)
Definition vetoingListener : WillListener :=
  λ _, [mkPromise 8 (Some "not now")].

(** The service [sampleOne] with a vetoing listener on both events. *)
Definition sampleVetoed : Service (list URI) :=
  mkService (stateMainService sampleOne) (fileSystem sampleOne)
    (profilesHome sampleOne) (defaultProfile sampleOne) None
    [sampleListener; vetoingListener] [sampleListener; vetoingListener] [].

Section ServiceVocabulary4.
Context {FS : Type} `{!Host FS}.
Import UserDataProfilesMainService.

(** No workspace has two stored associations. *)
Definition oneAssociationPerWorkspace (s : Service FS) : Prop :=
  NoDup (StoredWorkspaceInfo.workspace <$> storedWorskpaceInfos s).

End ServiceVocabulary4.

(* ===================================================================== *)
(** * Part II: the table of contents                                      *)
(* ===================================================================== *)

Section TableOfContentsFacts.
Import TableOfContents.
Variable parser : IMdParser.
Variable document : SkinnyTextDocument.

Lemma takeWhile_dropWhile_length p s :
  length (takeWhile p s) + length (dropWhile p s) = length s.
Proof.
  induction s as [|c s IH]; simpl; [done|].
  destruct (p c); simpl; lia.
Qed.

Lemma list_ascii_length s :
  length (String.list_ascii_of_string s) = String.length s.
Proof. induction s as [|c s IH]; simpl; congruence. Qed.

Lemma trailingMarkLength_le text :
  trailingMarkLength text ≤ String.length text.
Proof.
  unfold trailingMarkLength.
  rewrite <- list_ascii_length, <- (length_reverse (String.list_ascii_of_string text)).
  set (r := reverse _).
  pose proof (takeWhile_dropWhile_length isHash r).
  pose proof (takeWhile_dropWhile_length isSpace (dropWhile isHash r)).
  lia.
Qed.

Lemma newRange4_Some sl sc el ec :
  (0 ≤ sl)%Z → (0 ≤ sc)%Z → (0 ≤ el)%Z → (0 ≤ ec)%Z →
  vscode.newRange4 sl sc el ec
  = Some (vscode.newRange (vscode.mkPosition sl sc) (vscode.mkPosition el ec)).
Proof.
  intros. unfold vscode.newRange4, vscode.newPosition.
  rewrite !bool_decide_eq_true_2 by done. done.
Qed.

(** A range built from a position and a position that is not before it is
    that pair: no swap takes place. *)
Lemma newRange_ordered s e :
  vscode.isBefore e s = false → vscode.newRange s e = vscode.mkRange s e.
Proof.
  intros Hes. unfold vscode.newRange.
  destruct (vscode.isBefore s e) eqn:Hse; [done|].
  assert (s = e) as ->; [|done].
  unfold vscode.isBefore in *. destruct s as [a b], e as [c d]; simpl in *.
  repeat case_bool_decide; simpl in *; try done; f_equal; lia.
Qed.

Lemma lineAt_Some n :
  (0 ≤ n < lineCount document)%Z → is_Some (lineAt document n).
Proof.
  intros [? Hn]. unfold lineAt, lineCount in *.
  rewrite bool_decide_eq_true_2 by done.
  apply lookup_lt_is_Some. lia.
Qed.

Lemma lineAt_range n t :
  lineAt document n = Some t → (0 ≤ n < lineCount document)%Z.
Proof.
  unfold lineAt, lineCount. case_bool_decide; [|done].
  intros Hn%lookup_lt_Some. lia.
Qed.

Lemma addHeading_Some toc existing heading n m lineText :
  map heading = Some (n, m) →
  lineAt document n = Some lineText →
  ∃ entry,
    addHeading parser document (toc, existing) heading
    = Some (toc ++ [entry], (nextSlug parser existing lineText).2)
    ∧ slug entry = (nextSlug parser existing lineText).1
    ∧ level entry = getHeaderLevel (markup heading)
    ∧ line entry = n
    ∧ vscode.start (vscode.range (sectionLocation entry))
      = vscode.mkPosition n 0.
Proof.
  intros Hmap Hline. pose proof (lineAt_range _ _ Hline) as [Hn _].
  pose proof (trailingMarkLength_le lineText) as Htrail.
  unfold addHeading. rewrite Hmap, Hline. simpl.
  destruct (nextSlug parser existing lineText) as [s ex'].
  rewrite !newRange4_Some by lia; simpl.
  eexists; split; [reflexivity|]; simpl; repeat split; try done.
  unfold vscode.newRange, vscode.isBefore; simpl;
    repeat case_bool_decide; simpl; try done; f_equal; lia.
Qed.

Lemma addHeading_skip state heading :
  map heading = None → addHeading parser document state heading = Some state.
Proof. intros Hmap. destruct state. unfold addHeading. by rewrite Hmap. Qed.

Lemma occurrences_snoc v ns n :
  occurrences parser document v (ns ++ [n])
  = occurrences parser document v ns
    + (if decide (rawSlug parser document n = v) then 1 else 0).
Proof.
  unfold occurrences. rewrite filter_app, length_app. f_equal.
  rewrite filter_cons, filter_nil. by case_decide.
Qed.

Lemma nextSlug_spec existing lineText n ns :
  lineAt document n = Some lineText →
  (∀ v, existing !! v
        = match occurrences parser document v ns with
          | O => None
          | S count => Some count
          end) →
  (nextSlug parser existing lineText).1
  = numberedSlug parser document
      (occurrences parser document (rawSlug parser document n) ns) n
  ∧ ∀ v, (nextSlug parser existing lineText).2 !! v
         = match occurrences parser document v (ns ++ [n]) with
           | O => None
           | S count => Some count
           end.
Proof.
  intros Hline Hmap.
  assert (value (fromHeading (slugifier parser) lineText)
          = rawSlug parser document n) as Hraw.
  { unfold rawSlug. by rewrite Hline. }
  unfold nextSlug. rewrite Hraw, (Hmap (rawSlug parser document n)).
  destruct (occurrences parser document (rawSlug parser document n) ns)
    as [|count] eqn:Hocc; simpl.
  - split; [by rewrite Hline|].
    intros v. rewrite occurrences_snoc. case_decide as Hv.
    + subst v. rewrite lookup_insert_eq, Hocc. done.
    + rewrite lookup_insert_ne by done. rewrite Hmap, Nat.add_0_r. done.
  - split; [done|].
    intros v. rewrite occurrences_snoc. case_decide as Hv.
    + subst v. rewrite lookup_insert_eq, Hocc.
      replace (S count + 1) with (S (S count)) by lia. done.
    + rewrite lookup_insert_ne by done. rewrite Hmap, Nat.add_0_r. done.
Qed.

Lemma addHeading_invariant processed toc existing heading :
  firstLoopInvariant parser document processed toc existing →
  (∀ n m, map heading = Some (n, m) → 0 ≤ n < lineCount document)%Z →
  ∃ toc' existing',
    addHeading parser document (toc, existing) heading = Some (toc', existing')
    ∧ firstLoopInvariant parser document (processed ++ [heading]) toc' existing'.
Proof.
  intros (Hlines & Hlevels & Hstart & Hslug & Hmap) Hin.
  destruct (map heading) as [[n m]|] eqn:Hh.
  - destruct (lineAt_Some n) as [lineText Hline]; [by eapply Hin|].
    destruct (addHeading_Some toc existing heading n m lineText Hh Hline)
      as (entry & -> & Hs & Hl & Hn & Hst).
    destruct (nextSlug_spec existing lineText n (line <$> toc) Hline Hmap)
      as [Hnew Hmap'].
    eexists _, _. split; [reflexivity|].
    unfold firstLoopInvariant.
    rewrite !fmap_app, !omap_app. simpl. rewrite Hh. simpl.
    split_and!.
    + by rewrite Hlines, Hn.
    + by rewrite Hlevels, Hl.
    + apply Forall_app. split; [done|]. apply Forall_singleton.
      by rewrite Hst, Hn.
    + intros i e Hi.
      destruct (decide (i < length toc)) as [Hlt|Hge].
      * rewrite lookup_app_l in Hi by done.
        rewrite take_app_le by lia. by apply Hslug.
      * rewrite lookup_app_r in Hi by lia.
        apply list_lookup_singleton_Some in Hi as [Hi <-].
        assert (i = length toc) as -> by lia.
        rewrite take_app_length. rewrite Hs, Hnew, Hn. done.
    + intros v. rewrite Hmap'. by rewrite Hn.
  - rewrite addHeading_skip by done.
    eexists _, _. split; [reflexivity|].
    unfold firstLoopInvariant.
    rewrite !omap_app. simpl. rewrite Hh. simpl. rewrite !app_nil_r.
    done.
Qed.

Lemma addHeadings_invariant headings : ∀ processed toc existing,
  firstLoopInvariant parser document processed toc existing →
  Forall (λ n, 0 ≤ n < lineCount document)%Z
    (omap (λ token, fst <$> map token) headings) →
  ∃ toc' existing',
    addHeadings parser document (toc, existing) headings
    = Some (toc', existing')
    ∧ firstLoopInvariant parser document (processed ++ headings) toc' existing'.
Proof.
  induction headings as [|heading rest IH]; intros processed toc existing Hinv Hin.
  - eexists _, _. split; [reflexivity|]. by rewrite app_nil_r.
  - destruct (addHeading_invariant processed toc existing heading Hinv)
      as (toc1 & ex1 & Hstep & Hinv1).
    { intros n m Hh. simpl in Hin. rewrite Hh in Hin. simpl in Hin.
      by apply Forall_cons in Hin as [? _]. }
    destruct (IH (processed ++ [heading]) toc1 ex1 Hinv1)
      as (toc2 & ex2 & Hrest & Hinv2).
    { simpl in Hin. destruct (map heading) as [[??]|]; simpl in Hin; [|done].
      by apply Forall_cons in Hin as [_ ?]. }
    eexists _, _. cbn [addHeadings]. rewrite Hstep. split; [exact Hrest|].
    by rewrite <- app_assoc in Hinv2.
Qed.

Lemma increasing_head a l n :
  increasing (a :: l) = true → n ∈ l → (a < n)%Z.
Proof.
  revert a. induction l as [|b l IH]; intros a Hinc Hn; [by inv Hn|].
  simpl in Hinc. apply andb_true_iff in Hinc as [Hab Hinc].
  apply bool_decide_eq_true in Hab.
  inv Hn; [done|]. etrans; [exact Hab|]. by apply IH.
Qed.

Lemma increasing_tail a l : increasing (a :: l) = true → increasing l = true.
Proof. destruct l; simpl; [done|]. by intros [_ ?]%andb_true_iff. Qed.

Lemma increasing_lookup l i j a b :
  increasing l = true → l !! i = Some a → l !! j = Some b → i < j → (a < b)%Z.
Proof.
  revert i j. induction l as [|c l IH]; intros i j Hinc Hi Hj Hij; [done|].
  destruct j as [|j]; [lia|]. destruct i as [|i]; simpl in *.
  - inv Hi. eapply increasing_head; [done|]. by eapply list_elem_of_lookup_2.
  - eapply (IH i j); eauto using increasing_tail. lia.
Qed.

Lemma findEnd_Some later lv z :
  findEnd later lv = Some z →
  ∃ j next, later !! j = Some next ∧ (level next ≤ lv)%Z
    ∧ z = (line next - 1)%Z
    ∧ ∀ k between, k < j → later !! k = Some between → (lv < level between)%Z.
Proof.
  induction later as [|e later IH]; simpl; [done|].
  case_bool_decide as Hle.
  - intros [= <-]. exists 0, e. split_and!; [done..|]. intros; lia.
  - intros (j & next & Hj & ? & ? & Hbefore)%IH.
    exists (S j), next. split_and!; [done..|].
    intros [|k] between Hk Hb; simpl in Hb.
    + inv Hb. lia.
    + eapply Hbefore; [|done]. lia.
Qed.

Lemma findEnd_None later lv :
  findEnd later lv = None →
  ∀ j next, later !! j = Some next → (lv < level next)%Z.
Proof.
  induction later as [|e later IH]; simpl; [done|].
  case_bool_decide as Hle; [done|].
  intros Hn [|j] next Hj; simpl in Hj; [inv Hj; lia|]. by eapply IH.
Qed.

Lemma mapM_imap_Some {A B} (f : nat → A → option B) l :
  (∀ i x, l !! i = Some x → is_Some (f i x)) →
  ∃ k, mapM id (imap f l) = Some k
    ∧ ∀ i y, k !! i = Some y → ∃ x, l !! i = Some x ∧ f i x = Some y.
Proof.
  revert f. induction l as [|x l IH]; intros f Hf.
  - exists []. split; [done|]. intros i y Hi. by rewrite lookup_nil in Hi.
  - destruct (Hf 0 x eq_refl) as [y Hy].
    destruct (IH (f ∘ S)) as (k & Hk & Hlook); [intros i z Hi; by apply (Hf (S i))|].
    exists (y :: k). split.
    + rewrite imap_cons. simpl. rewrite Hy. simpl. rewrite Hk. done.
    + intros [|i] z Hi; simpl in *; [inv Hi; eauto|]. by apply Hlook.
Qed.

Lemma mapM_imap_length {A B} (f : nat → A → option B) l k :
  mapM id (imap f l) = Some k → length k = length l.
Proof.
  intros H%mapM_Some_1%Forall2_length. by rewrite length_imap in H.
Qed.

(** The second pass on one entry of an array whose lines are in range
    and increasing. *)
Lemma withSection_spec toc i entry :
  increasing (line <$> toc) = true →
  Forall (λ n, 0 ≤ n < lineCount document)%Z (line <$> toc) →
  toc !! i = Some entry →
  vscode.start (vscode.range (sectionLocation entry))
  = vscode.mkPosition (line entry) 0 →
  ∃ endText,
    let endLine :=
      default (lineCount document - 1)%Z
        (findEnd (drop (S i) toc) (level entry)) in
    lineAt document endLine = Some endText
    ∧ withSection document toc i entry
      = Some (mkTocEntry (slug entry) (text entry) (level entry) (line entry)
                (vscode.mkLocation (uri document)
                   (vscode.mkRange (vscode.mkPosition (line entry) 0)
                      (vscode.mkPosition endLine
                         (Z.of_nat (String.length endText)))))
                (headerLocation entry) (headerTextLocation entry)).
Proof.
  intros Hinc Hin Hi Hstart.
  assert (0 ≤ line entry < lineCount document)%Z as Hentry.
  { rewrite Forall_forall in Hin. apply Hin.
    apply list_elem_of_fmap. eauto using list_elem_of_lookup_2. }
  set (endLine := default _ _).
  assert (line entry ≤ endLine < lineCount document)%Z as Hend.
  { subst endLine.
    destruct (findEnd _ _) as [z|] eqn:Hfind; simpl; [|lia].
    apply findEnd_Some in Hfind as (j & next & Hj & _ & -> & _).
    rewrite lookup_drop in Hj.
    assert (line entry < line next)%Z.
    { eapply (increasing_lookup (line <$> toc) i (S i + j)); [done| | |lia].
      - by rewrite list_lookup_fmap, Hi.
      - by rewrite list_lookup_fmap, Hj. }
    assert (0 ≤ line next < lineCount document)%Z.
    { rewrite Forall_forall in Hin. apply Hin.
      apply list_elem_of_fmap. eauto using list_elem_of_lookup_2. }
    lia. }
  destruct (lineAt_Some endLine) as [endText HendText]; [lia|].
  exists endText. simpl. split; [done|].
  unfold withSection. fold endLine. rewrite HendText. simpl.
  unfold vscode.newPosition. rewrite bool_decide_eq_true_2 by lia. simpl.
  rewrite Hstart, newRange_ordered; [done|].
  unfold vscode.isBefore; simpl. repeat case_bool_decide; simpl; try done; lia.
Qed.

Lemma firstLoopInvariant_initial :
  firstLoopInvariant parser document [] [] ∅.
Proof.
  unfold firstLoopInvariant. split_and!; done.
Qed.

(** [buildToc] on a well-formed document: the array of the first loop
    satisfies its invariant, and the result has, index by index, the
    entries of that array with their section range filled in. *)
Lemma buildToc_spec :
  wellFormed parser document →
  ∃ toc0 existing toc,
    firstLoopInvariant parser document (headingTokens parser document)
      toc0 existing
    ∧ buildToc parser document = Some toc
    ∧ length toc = length toc0
    ∧ ∀ i entry, toc !! i = Some entry →
        ∃ entry0 endText,
          let endLine :=
            default (lineCount document - 1)%Z
              (findEnd (drop (S i) toc0) (level entry0)) in
          toc0 !! i = Some entry0
          ∧ lineAt document endLine = Some endText
          ∧ entry
            = mkTocEntry (slug entry0) (text entry0) (level entry0)
                (line entry0)
                (vscode.mkLocation (uri document)
                   (vscode.mkRange (vscode.mkPosition (line entry0) 0)
                      (vscode.mkPosition endLine
                         (Z.of_nat (String.length endText)))))
                (headerLocation entry0) (headerTextLocation entry0).
Proof.
  intros [Hinc Hin].
  destruct (addHeadings_invariant (headingTokens parser document) [] [] ∅
              firstLoopInvariant_initial Hin)
    as (toc0 & existing & Hfirst & Hinv).
  simpl in Hinv.
  pose proof Hinv as (Hlines & _ & Hstart & _).
  fold (headingLines parser document) in Hlines.
  assert (∀ i entry0, toc0 !! i = Some entry0 →
            is_Some (withSection document toc0 i entry0)) as Htotal.
  { intros i entry0 Hi.
    destruct (withSection_spec toc0 i entry0) as (endText & _ & ->);
      rewrite ?Hlines; try done.
    rewrite Forall_forall in Hstart. apply Hstart.
    eauto using list_elem_of_lookup_2. }
  destruct (mapM_imap_Some (withSection document toc0) toc0 Htotal)
    as (toc & Hsecond & Hlook).
  exists toc0, existing, toc. split_and!; [done| |by eapply mapM_imap_length|].
  { unfold buildToc. fold (headingTokens parser document).
    rewrite Hfirst. simpl. exact Hsecond. }
  intros i entry Hi. destruct (Hlook i entry Hi) as (entry0 & Hi0 & Hwith).
  destruct (withSection_spec toc0 i entry0) as (endText & HendText & Heq);
    rewrite ?Hlines; try done.
  { rewrite Forall_forall in Hstart. apply Hstart.
    eauto using list_elem_of_lookup_2. }
  exists entry0, endText. simpl in *. split_and!; [done..|]. congruence.
Qed.

Lemma occurrences_take_lt v ns : ∀ i j n,
  i < j → ns !! i = Some n → rawSlug parser document n = v →
  occurrences parser document v (take i ns)
  < occurrences parser document v (take j ns).
Proof.
  unfold occurrences.
  induction ns as [|m ns IH]; intros i j n Hij Hi Hv; [done|].
  destruct j as [|j]; [lia|]. destruct i as [|i]; simpl in *.
  - inv Hi. rewrite filter_cons_True by done. simpl. lia.
  - specialize (IH i j n ltac:(lia) Hi Hv).
    rewrite !filter_cons. case_decide; simpl; lia.
Qed.

Lemma string_app_length (s1 s2 : string) :
  String.length (s1 +:+ s2) = String.length s1 + String.length s2.
Proof.
  induction s1 as [|c s1 IH]; [done|].
  change (S (String.length (s1 +:+ s2)) = S (String.length s1 + String.length s2)).
  by rewrite IH.
Qed.

Lemma append_counter_ne (r : string) (k : nat) : r ≠ r +:+ "-" +:+ pretty k.
Proof.
  intros Heq. apply (f_equal String.length) in Heq.
  rewrite !string_app_length in Heq. simpl in Heq. lia.
Qed.

Lemma numberedSlug_inj n n' k k' :
  keepsNumbered (slugifier parser) →
  rawSlug parser document n = rawSlug parser document n' →
  numberedSlug parser document k n = numberedSlug parser document k' n' →
  k = k'.
Proof.
  intros Hkeep Hraw Heq. unfold numberedSlug in Heq.
  destruct k as [|k], k' as [|k']; [done| | |].
  - exfalso. apply (f_equal value) in Heq. fold (rawSlug parser document n) in Heq.
    unfold rawSlug at 2 in Heq. rewrite Hkeep in Heq. simpl in Heq.
    fold (rawSlug parser document n') in Heq. rewrite <- Hraw in Heq.
    by eapply append_counter_ne.
  - exfalso. apply (f_equal value) in Heq. fold (rawSlug parser document n') in Heq.
    unfold rawSlug at 1 in Heq. rewrite Hkeep in Heq. simpl in Heq.
    fold (rawSlug parser document n) in Heq. rewrite Hraw in Heq.
    symmetry in Heq. by eapply append_counter_ne.
  - apply (f_equal value) in Heq. unfold rawSlug in Heq.
    rewrite !Hkeep in Heq. simpl in Heq.
    fold (rawSlug parser document n) (rawSlug parser document n') in Heq.
    rewrite Hraw in Heq.
    apply (inj (String.app _)) in Heq. apply (inj (String.app _)) in Heq.
    by apply (inj pretty) in Heq.
Qed.
End TableOfContentsFacts.

(** C1.  On a document whose headings the tokenizer reports in order and
    within the document, [buildToc] returns a table whose entries are the
    headings, and the section range of every entry starts at its heading
    line, character 0, and ends at the end of a line of the document: the
    line before the first later entry whose level is at most its own, or
    the last line of the document when there is no such entry. *)
Theorem sectionLocation_ends_before_next_heading
    (parser : IMdParser) (document : SkinnyTextDocument) :
  wellFormed parser document →
  ∃ toc,
    TableOfContents.buildToc parser document = Some toc
    ∧ line <$> toc = headingLines parser document
    ∧ ∀ i entry, toc !! i = Some entry →
        let r := vscode.range (sectionLocation entry) in
        vscode.start r = vscode.mkPosition (line entry) 0
        ∧ (∃ endText,
             lineAt document (vscode.line (vscode.end_ r)) = Some endText
             ∧ vscode.character (vscode.end_ r)
               = Z.of_nat (String.length endText))
        ∧ (∀ j next,
             i < j → toc !! j = Some next → (level next ≤ level entry)%Z →
             (∀ k between, i < k < j → toc !! k = Some between →
                (level entry < level between)%Z) →
             vscode.line (vscode.end_ r) = (line next - 1)%Z)
        ∧ ((∀ j later, i < j → toc !! j = Some later →
              (level entry < level later)%Z) →
           vscode.line (vscode.end_ r) = (lineCount document - 1)%Z).
Proof.
  intros Hwf.
  destruct (buildToc_spec parser document Hwf)
    as (toc0 & existing & toc & Hinv & Hbuild & Hlen & Hentries).
  exists toc. split; [done|].
  assert (∀ j e, toc !! j = Some e →
            ∃ e0, toc0 !! j = Some e0 ∧ level e = level e0 ∧ line e = line e0)
    as Hsame.
  { intros j e Hj. destruct (Hentries j e Hj) as (e0 & t & ? & _ & ->). eauto. }
  assert (∀ j e0, toc0 !! j = Some e0 →
            ∃ e, toc !! j = Some e ∧ level e = level e0 ∧ line e = line e0)
    as Hback.
  { intros j e0 Hj.
    destruct (lookup_lt_is_Some_2 toc j) as [e He].
    { rewrite Hlen. by eapply lookup_lt_Some. }
    destruct (Hsame j e He) as (e0' & ? & ? & ?). exists e.
    by simplify_eq. }
  split.
  { destruct Hinv as (Hlines & _). fold (headingLines parser document) in Hlines.
    rewrite <- Hlines. apply list_eq. intros j. rewrite !list_lookup_fmap.
    destruct (toc !! j) as [e|] eqn:Hj.
    - destruct (Hsame j e Hj) as (e0 & He0 & _ & Hl).
      rewrite He0. simpl. by rewrite Hl.
    - apply lookup_ge_None in Hj. rewrite Hlen in Hj.
      apply lookup_ge_None in Hj. by rewrite Hj. }
  intros i entry Hi.
  destruct (Hentries i entry Hi) as (entry0 & endText & Hi0 & HendText & ->).
  simpl in *. split_and!; [done|by eauto| |].
  - intros j next Hij Hj Hle Hbetween.
    destruct (Hsame j next Hj) as (next0 & Hj0 & Hlv & Hln).
    destruct (TableOfContents.findEnd _ _) as [z|] eqn:Hfind; simpl.
    + apply findEnd_Some in Hfind as (j' & found & Hj' & Hfound & -> & Hfirst).
      rewrite lookup_drop in Hj'.
      destruct (decide (j = S i + j')) as [->|Hne]; [by simplify_eq; lia|].
      exfalso. destruct (decide (j < S i + j')).
      * specialize (Hfirst (j - S i) next0).
        rewrite lookup_drop in Hfirst.
        replace (S i + (j - S i)) with j in Hfirst by lia.
        specialize (Hfirst ltac:(lia) Hj0). lia.
      * destruct (Hback _ _ Hj') as (found' & Hf' & Hflv & _).
        specialize (Hbetween (S i + j') found' ltac:(lia) Hf'). lia.
    + exfalso. pose proof (findEnd_None _ _ Hfind (j - S i) next0) as Hnone.
      rewrite lookup_drop in Hnone.
      replace (S i + (j - S i)) with j in Hnone by lia.
      specialize (Hnone Hj0). lia.
  - intros Hlater.
    destruct (TableOfContents.findEnd _ _) as [z|] eqn:Hfind; simpl; [|done].
    exfalso.
    apply findEnd_Some in Hfind as (j' & found & Hj' & Hfound & -> & _).
    rewrite lookup_drop in Hj'.
    destruct (Hback _ _ Hj') as (found' & Hf' & Hflv & _).
    specialize (Hlater (S i + j') found' ltac:(lia) Hf'). lia.
Qed.

(** C3, as amended.  On a well-formed document, a heading whose raw slug
    no earlier heading has receives that raw slug; a heading whose raw slug
    [k] earlier headings have ([k] at least 1: 1 at the first collision, one
    more at each further one) receives what the slugifier makes of the raw
    slug with "-k" appended.  The numbering is a function of the heading
    lines alone.  When the slugifier leaves such numbered slugs unchanged,
    headings that share a raw slug receive pairwise distinct identifiers. *)
Theorem slugs_numbered_per_raw_slug
    (parser : IMdParser) (document : SkinnyTextDocument) :
  wellFormed parser document →
  ∃ toc,
    TableOfContents.buildToc parser document = Some toc
    ∧ line <$> toc = headingLines parser document
    ∧ (∀ i entry, toc !! i = Some entry →
         ∃ lineText,
           lineAt document (line entry) = Some lineText
           ∧ let raw := fromHeading (slugifier parser) lineText in
             let k := occurrences parser document (value raw)
                        (take i (headingLines parser document)) in
             (k = 0 → slug entry = raw)
             ∧ (0 < k →
                slug entry
                = fromHeading (slugifier parser)
                    (value raw +:+ "-" +:+ pretty k)))
    ∧ (keepsNumbered (slugifier parser) →
       ∀ i j a b,
         i ≠ j → toc !! i = Some a → toc !! j = Some b →
         rawSlug parser document (line a) = rawSlug parser document (line b) →
         slug a ≠ slug b).
Proof.
  intros Hwf.
  destruct (buildToc_spec parser document Hwf)
    as (toc0 & existing & toc & Hinv & Hbuild & Hlen & Hentries).
  destruct Hinv as (Hlines & _ & _ & Hslug & _).
  fold (headingLines parser document) in Hlines.
  assert (∀ i entry, toc !! i = Some entry →
            headingLines parser document !! i = Some (line entry)
            ∧ slug entry
              = numberedSlug parser document
                  (occurrences parser document
                     (rawSlug parser document (line entry))
                     (take i (headingLines parser document)))
                  (line entry)) as Hnum.
  { intros i entry Hi.
    destruct (Hentries i entry Hi) as (entry0 & t & Hi0 & _ & ->). simpl.
    rewrite <- Hlines, list_lookup_fmap, Hi0, <- fmap_take. split; [done|].
    by apply Hslug. }
  exists toc. split_and!; [done| | |].
  - rewrite <- Hlines. apply list_eq. intros i. rewrite Hlines.
    rewrite list_lookup_fmap.
    destruct (toc !! i) as [e|] eqn:Hi; simpl.
    + by destruct (Hnum i e Hi) as [-> _].
    + apply lookup_ge_None in Hi. symmetry. apply lookup_ge_None.
      by rewrite <- Hlines, length_fmap, <- Hlen.
  - intros i entry Hi. destruct (Hnum i entry Hi) as [Hline Hs].
    destruct Hwf as [_ Hin]. rewrite Forall_forall in Hin.
    destruct (lineAt_Some document (line entry)) as [lineText Htext].
    { apply Hin. eauto using list_elem_of_lookup_2. }
    exists lineText. split; [done|]. simpl.
    assert (value (fromHeading (slugifier parser) lineText)
            = rawSlug parser document (line entry)) as ->.
    { unfold rawSlug. by rewrite Htext. }
    rewrite Hs. unfold numberedSlug. rewrite Htext. simpl.
    split; [by intros ->|]. intros Hk.
    by destruct (occurrences _ _ _ _); [lia|].
  - intros Hkeep.
    assert (∀ i j a b,
              i < j → toc !! i = Some a → toc !! j = Some b →
              rawSlug parser document (line a)
              = rawSlug parser document (line b) →
              slug a ≠ slug b) as Hlt.
    { intros i j a b Hij Hi Hj Hraw Heq.
      destruct (Hnum i a Hi) as [Hla Hsa], (Hnum j b Hj) as [Hlb Hsb].
      rewrite Hsa, Hsb in Heq.
      apply numberedSlug_inj in Heq; [|done..].
      pose proof (occurrences_take_lt parser document
                    (rawSlug parser document (line a))
                    (headingLines parser document) i j (line a) Hij Hla eq_refl).
      rewrite <- Hraw in Heq. lia. }
    intros i j a b Hij Hi Hj Hraw.
    destruct (decide (i < j)); [by eapply Hlt|].
    intros Heq. eapply (Hlt j i b a); eauto. lia.
Qed.

Lemma sampleDocument_wellFormed : wellFormed sampleParser sampleDocument.
Proof. split; [done|]. vm_compute. repeat constructor; done. Qed.

Lemma sectionLocation_ends_before_next_heading_witness :
  wellFormed sampleParser sampleDocument
  ∧ ∃ toc,
      TableOfContents.buildToc sampleParser sampleDocument = Some toc
      ∧ line <$> toc = headingLines sampleParser sampleDocument.
Proof.
  split; [exact sampleDocument_wellFormed|].
  destruct (sectionLocation_ends_before_next_heading sampleParser sampleDocument
              sampleDocument_wellFormed) as (toc & Hbuild & Hlines & _).
  by exists toc.
Defined.

Lemma slugs_numbered_per_raw_slug_witness :
  wellFormed sampleParser sampleDocument
  ∧ ∃ toc,
      TableOfContents.buildToc sampleParser sampleDocument = Some toc
      ∧ line <$> toc = headingLines sampleParser sampleDocument.
Proof.
  split; [exact sampleDocument_wellFormed|].
  destruct (slugs_numbered_per_raw_slug sampleParser sampleDocument
              sampleDocument_wellFormed) as (toc & Hbuild & Hlines & _).
  by exists toc.
Defined.

(** C3, as stated, fails: identifiers are not pairwise distinct.  In the
    sample document the second heading "a" collides with the first and
    receives "a-1"; the third heading, whose own slug is "a-1", collides
    with nothing that was recorded and keeps "a-1". *)
Lemma slugs_pairwise_distinct_counterexample :
  ¬ (∀ parser document toc,
       wellFormed parser document →
       TableOfContents.buildToc parser document = Some toc →
       NoDup (slug <$> toc)).
Proof.
  intros Hdistinct.
  destruct (TableOfContents.buildToc sampleParser sampleDocument)
    as [toc|] eqn:Hbuild; [|by vm_compute in Hbuild].
  pose proof (Hdistinct sampleParser sampleDocument toc
                sampleDocument_wellFormed Hbuild) as Hnodup.
  vm_compute in Hbuild. injection Hbuild as <-.
  apply (bool_decide_pack _) in Hnodup. by vm_compute in Hnodup.
Qed.

(** The identifiers of the sample document. *)
Example sampleDocument_slugs :
  (fmap (M := list) (λ entry, value (slug entry)))
    <$> TableOfContents.buildToc sampleParser sampleDocument
  = Some ["a"; "a-1"; "a-1"; "b"].
Proof. vm_compute. reflexivity. Qed.

(** ** Identifiers are not unique, whatever the slugifier *)

Section Clash.
Variable s : Slugifier.

Lemma Slug_eq (a b : Slug) : value a = value b → a = b.
Proof. destruct a, b. simpl. by intros ->. Qed.

Lemma clashDocument_wellFormed : wellFormed (clashParser s) (clashDocument s).
Proof. split; [done|]. repeat constructor; done. Qed.

(** Whatever the slugifier, some document has two headings with one
    identifier: the headings a, a and the identifier of the second. *)
Lemma identifier_clash_whatever_the_slugifier :
  ∃ toc i j a b,
    TableOfContents.buildToc (clashParser s) (clashDocument s) = Some toc
    ∧ i ≠ j ∧ toc !! i = Some a ∧ toc !! j = Some b ∧ slug a = slug b.
Proof.
  destruct (buildToc_spec _ _ clashDocument_wellFormed)
    as (toc0 & existing & toc & Hinv & Hbuild & Hlen & Hentries).
  destruct Hinv as (Hlines & _ & _ & Hslug & _).
  change (line <$> toc0 = [0; 2; 4]%Z) in Hlines.
  destruct toc0 as [|e0 [|e1 [|e2 [|??]]]]; try done.
  assert (line e0 = 0 ∧ line e1 = 2 ∧ line e2 = 4)%Z as (Hl0 & Hl1 & Hl2)
    by (by simplify_eq/=).
  clear Hlines.
  destruct toc as [|a0 [|a1 [|a2 [|??]]]]; try done.
  destruct (Hentries 0 a0 eq_refl) as (? & ? & [= <-] & _ & Ha0).
  destruct (Hentries 1 a1 eq_refl) as (? & ? & [= <-] & _ & Ha1).
  destruct (Hentries 2 a2 eq_refl) as (? & ? & [= <-] & _ & Ha2).
  assert (slug a0 = slug e0) as Hs0 by (by subst a0).
  assert (slug a1 = slug e1) as Hs1 by (by subst a1).
  assert (slug a2 = slug e2) as Hs2 by (by subst a2).
  clear Ha0 Ha1 Ha2 Hentries.
  rewrite (Hslug 0 e0 eq_refl) in Hs0.
  rewrite (Hslug 1 e1 eq_refl) in Hs1.
  rewrite (Hslug 2 e2 eq_refl) in Hs2.
  change (line <$> take 0 [e0; e1; e2]) with (@nil Z) in Hs0.
  change (line <$> take 1 [e0; e1; e2]) with [line e0] in Hs1.
  change (line <$> take 2 [e0; e1; e2]) with [line e0; line e1] in Hs2.
  rewrite Hl0 in Hs0. rewrite Hl0, Hl1 in Hs1. rewrite Hl0, Hl1, Hl2 in Hs2.
  set (r := value (fromHeading s "a")) in *.
  set (q := value (fromHeading s (r +:+ "-" +:+ pretty 1))).
  assert (rawSlug (clashParser s) (clashDocument s) 0 = r) as Hr0 by done.
  assert (rawSlug (clashParser s) (clashDocument s) 2 = r) as Hr2 by done.
  assert (rawSlug (clashParser s) (clashDocument s) 4 = q) as Hr4 by done.
  unfold occurrences in Hs1, Hs2. rewrite Hr2 in Hs1. rewrite Hr4 in Hs2.
  rewrite filter_cons_True, filter_nil in Hs1 by done.
  change (slug a1 = fromHeading s (r +:+ "-" +:+ pretty 1)) in Hs1.
  destruct (decide (r = q)) as [Hrq|Hrq].
  - exists [a0; a1; a2], 0, 1, a0, a1. split_and!; [done..|].
    apply Slug_eq. rewrite Hs0, Hs1. exact Hrq.
  - exists [a0; a1; a2], 1, 2, a1, a2. split_and!; [done..|].
    rewrite !filter_cons_False, filter_nil in Hs2 by (by rewrite ?Hr0, ?Hr2).
    by rewrite Hs1, Hs2.
Qed.
End Clash.

(* ===================================================================== *)
(** * Part III: the symbol tree                                           *)
(* ===================================================================== *)

Section SymbolTreeFacts.
Import MdDocumentSymbolProvider.

Lemma levelLe_false lv l : levelLe lv l = false ↔ levelLt l (Finite lv).
Proof.
  destruct l as [|n]; simpl; [done|].
  rewrite bool_decide_eq_false. lia.
Qed.

Lemma levelLt_trans a b c : levelLt a b → levelLt b c → levelLt a c.
Proof. destruct a, b, c; simpl; try done. lia. Qed.

Lemma levelOf_app placed entry address :
  address ≤ length placed →
  levelOf (placed ++ [entry]) address = levelOf placed address.
Proof.
  intros Hle. destruct address as [|i]; [done|]. simpl.
  by rewrite lookup_app_l by lia.
Qed.

Lemma chainOk_grow placed entry allocated m :
  allocated ≤ S (length placed) →
  chainOk placed allocated m →
  chainOk (placed ++ [entry]) (S allocated) m.
Proof.
  intros Hle. revert m.
  fix IH 1. intros [l [m'|] c]; simpl; intros (Hl & Hc & Hp).
  - split_and!; [rewrite levelOf_app by lia; done|lia|by apply IH].
  - split_and!; [rewrite levelOf_app by lia; done|lia|done].
Qed.

(** The [while] loop ends, at a symbol of the chain whose level is below
    that of the entry. *)
Lemma climb_spec placed allocated lv parent :
  chainOk placed allocated parent →
  ∃ p, climb lv parent = Some p
    ∧ chainOk placed allocated p
    ∧ levelLe lv (MarkdownSymbol.level p) = false.
Proof.
  revert parent. fix IH 1. intros [l [m'|] c] Hchain.
  - simpl. destruct (levelLe lv l) eqn:Hle.
    + destruct Hchain as (_ & _ & Hchain). by apply IH.
    + eexists. split_and!; [done| |done]. exact Hchain.
  - simpl. destruct Hchain as (Hl & Hc & ->). simpl.
    eexists. split_and!; [done| |done]. by split_and!.
Qed.

Lemma chainOk_level placed allocated p :
  chainOk placed allocated p →
  MarkdownSymbol.level p = levelOf placed (MarkdownSymbol.children p)
  ∧ MarkdownSymbol.children p < allocated.
Proof. destruct p as [l m c]. simpl. by intros (? & ? & _). Qed.

(** Arrays only grow: [push] and the allocation of a fresh array keep
    every element where it is. *)
Lemma push_keeps (store : Store) array symbol q elements s :
  store !! q = Some elements → s ∈ elements →
  ∃ elements', push (store ++ [[]]) array symbol !! q = Some elements'
    ∧ s ∈ elements'.
Proof.
  intros Hq Hs. unfold push.
  assert ((store ++ [[]]) !! q = Some elements) as Hq'.
  { rewrite lookup_app_l; [done|]. by apply lookup_lt_Some in Hq. }
  destruct (decide (array = q)) as [->|Hne].
  - rewrite list_lookup_alter_eq, Hq'. simpl. eexists. split; [reflexivity|].
    apply elem_of_app. by left.
  - rewrite list_lookup_alter_ne by done. eauto.
Qed.

Lemma place_keeps store parent entry store' parent' q elements s :
  place store parent entry = Some (store', parent') →
  store !! q = Some elements → s ∈ elements →
  ∃ elements', store' !! q = Some elements' ∧ s ∈ elements'.
Proof.
  unfold place, toDocumentSymbol.
  destruct (climb _ _) as [p|]; simpl; [|done].
  intros [= <- <-]. apply push_keeps.
Qed.

Lemma buildTree_keeps entries : ∀ store parent final q elements s,
  buildTree store parent entries = Some final →
  store !! q = Some elements → s ∈ elements →
  ∃ elements', final !! q = Some elements' ∧ s ∈ elements'.
Proof.
  induction entries as [|entry rest IH]; intros store parent final q elements s.
  - intros [= <-]. eauto.
  - cbn [buildTree].
    destruct (place store parent entry) as [[store1 parent1]|] eqn:Hplace;
      simpl; [|done].
    intros Hrest Hq Hs.
    destruct (place_keeps _ _ _ _ _ _ _ _ Hplace Hq Hs) as (e1 & Hq1 & Hs1).
    by eapply IH.
Qed.

(** One call of [buildTree]: the loop finds a parent [p] below the level
    of the entry, the symbol of the entry is appended to the array of [p],
    and the invariant holds for the recursive call. *)
Lemma place_spec placed store parent entry :
  treeInvariant placed store parent →
  ∃ p,
    climb (level entry) parent = Some p
    ∧ levelLe (level entry) (MarkdownSymbol.level p) = false
    ∧ MarkdownSymbol.children p < length store
    ∧ place store parent entry
      = Some (push (store ++ [[]]) (MarkdownSymbol.children p)
                (symbolOf entry (length store)),
              MarkdownSymbol.make (Finite (level entry)) (Some p)
                (length store))
    ∧ treeInvariant (placed ++ [entry])
        (push (store ++ [[]]) (MarkdownSymbol.children p)
           (symbolOf entry (length store)))
        (MarkdownSymbol.make (Finite (level entry)) (Some p) (length store)).
Proof.
  intros (Hlen & Hchain & Hedges).
  destruct (climb_spec placed (length store) (level entry) parent Hchain)
    as (p & Hclimb & Hp & Hbelow).
  destruct (chainOk_level _ _ _ Hp) as [Hlevel Hcp].
  exists p. split_and!; [done..| |].
  { unfold place, toDocumentSymbol. rewrite Hclimb. done. }
  unfold treeInvariant, push.
  rewrite length_alter, !length_app, Hlen. simpl.
  split_and!.
  - lia.
  - rewrite lookup_app_r by lia.
    replace (length placed - length placed) with 0 by lia. done.
  - lia.
  - replace (S (length placed + 1)) with (S (length store)) by lia.
    apply chainOk_grow; [lia|done].
  - intros q elements s Hq Hs.
    assert (∀ elements0,
              store !! q = Some elements0 → s ∈ elements0 →
              ∃ i e, (placed ++ [entry]) !! i = Some e
                ∧ s = symbolOf e (S i)
                ∧ levelLt (levelOf (placed ++ [entry]) q) (Finite (level e)))
      as Hold.
    { intros elements0 Hq0 Hs0.
      destruct (Hedges q elements0 s Hq0 Hs0) as (i & e & Hi & -> & Hlt).
      exists i, e. split_and!; [|done|].
      - rewrite lookup_app_l; [done|]. by apply lookup_lt_Some in Hi.
      - rewrite levelOf_app; [done|].
        apply lookup_lt_Some in Hq0. lia. }
    destruct (decide (MarkdownSymbol.children p = q)) as [<-|Hne].
    + rewrite list_lookup_alter_eq in Hq.
      rewrite lookup_app_l in Hq by done.
      destruct (store !! MarkdownSymbol.children p) as [elements0|] eqn:Hq0;
        [|done].
      simpl in Hq. injection Hq as <-.
      apply elem_of_app in Hs as [Hs|Hs]; [by eapply Hold|].
      apply list_elem_of_singleton in Hs as ->.
      exists (length placed), entry. split_and!.
      * by rewrite lookup_app_r, Nat.sub_diag by lia.
      * done.
      * rewrite levelOf_app by lia. rewrite <- Hlevel.
        by apply levelLe_false.
    + rewrite list_lookup_alter_ne in Hq by done.
      destruct (decide (q < length store)) as [Hlt|Hge].
      * rewrite lookup_app_l in Hq by done. by eapply Hold.
      * rewrite lookup_app_r in Hq by lia.
        apply list_lookup_singleton_Some in Hq as [_ <-]. by inv Hs.
Qed.

Lemma push_adds (store : Store) array symbol :
  array < length store →
  ∃ elements, push (store ++ [[]]) array symbol !! array = Some elements
    ∧ symbol ∈ elements.
Proof.
  intros Hlt. destruct (lookup_lt_is_Some_2 store array Hlt) as [old Hold].
  unfold push. rewrite list_lookup_alter_eq, lookup_app_l, Hold by done.
  simpl. eexists. split; [reflexivity|]. apply elem_of_app. right.
  by apply list_elem_of_singleton.
Qed.

(** [buildTree] returns: every entry is placed in some array, and the
    invariant holds of the final store. *)
Lemma buildTree_spec rest : ∀ placed store parent,
  treeInvariant placed store parent →
  ∃ final parent',
    buildTree store parent rest = Some final
    ∧ treeInvariant (placed ++ rest) final parent'
    ∧ ∀ k entry, rest !! k = Some entry →
        ∃ q elements,
          final !! q = Some elements
          ∧ symbolOf entry (S (length placed + k)) ∈ elements.
Proof.
  induction rest as [|entry rest IH]; intros placed store parent Hinv.
  - exists store, parent. rewrite app_nil_r. split_and!; [done..|].
    intros k e Hk. by rewrite lookup_nil in Hk.
  - destruct (place_spec placed store parent entry Hinv)
      as (p & _ & _ & Hcp & Hplace & Hinv1).
    destruct (IH _ _ _ Hinv1) as (final & parent' & Hrest & Hinv2 & Hall).
    exists final, parent'. cbn [buildTree]. rewrite Hplace. simpl.
    rewrite <- app_assoc in Hinv2. split_and!; [done..|].
    intros [|k] e Hk; simpl in Hk.
    + injection Hk as <-.
      destruct (push_adds store (MarkdownSymbol.children p)
                  (symbolOf entry (length store)) Hcp) as (elements & Hq & Hs).
      destruct (buildTree_keeps _ _ _ _ _ _ _ Hrest Hq Hs) as (els & ? & ?).
      destruct Hinv as (Hlen & _). rewrite Hlen in *.
      rewrite Nat.add_0_r. eauto.
    + destruct (Hall k e Hk) as (q & elements & Hq & Hs).
      rewrite length_app in Hs. simpl in Hs.
      replace (length placed + 1 + k) with (length placed + S k) in Hs by lia.
      eauto.
Qed.

(** Two consecutive entries of equal level are appended to the same
    array. *)
Lemma buildTree_siblings rest : ∀ placed store parent final k a b,
  treeInvariant placed store parent →
  buildTree store parent rest = Some final →
  rest !! k = Some a → rest !! S k = Some b → level a = level b →
  ∃ q elements,
    final !! q = Some elements
    ∧ symbolOf a (S (length placed + k)) ∈ elements
    ∧ symbolOf b (S (S (length placed + k))) ∈ elements.
Proof.
  induction rest as [|entry rest IH];
    intros placed store parent final k a b Hinv Hbuild Ha Hb Hlevel; [done|].
  destruct (place_spec placed store parent entry Hinv)
    as (p & _ & Hbelow & Hcp & Hplace & Hinv1).
  cbn [buildTree] in Hbuild. rewrite Hplace in Hbuild. simpl in Hbuild.
  destruct k as [|k]; simpl in Ha, Hb.
  - injection Ha as <-. destruct rest as [|b' rest]; [done|].
    injection Hb as ->.
    pose proof Hinv as (Hlen & _).
    destruct (push_adds store (MarkdownSymbol.children p)
                (symbolOf entry (length store)) Hcp) as (els1 & Hq1 & Hs1).
    set (store1 := push _ _ _) in *.
    assert (length store1 = S (length store)) as Hlen1.
    { subst store1. unfold push. rewrite length_alter, length_app. simpl. lia. }
    assert (place store1
              (MarkdownSymbol.make (Finite (level entry)) (Some p)
                 (length store)) b
            = Some (push (store1 ++ [[]]) (MarkdownSymbol.children p)
                      (symbolOf b (length store1)),
                    MarkdownSymbol.make (Finite (level b)) (Some p)
                      (length store1))) as Hplace2.
    { unfold place, toDocumentSymbol. simpl. rewrite <- Hlevel.
      rewrite bool_decide_eq_true_2 by lia.
      destruct p as [l m c]. simpl in *. rewrite Hbelow. done. }
    cbn [buildTree] in Hbuild. rewrite Hplace2 in Hbuild. simpl in Hbuild.
    destruct (push_keeps store1 (MarkdownSymbol.children p)
                (symbolOf b (length store1)) _ _ _ Hq1 Hs1)
      as (els2 & Hq2 & Hs2).
    destruct (push_adds store1 (MarkdownSymbol.children p)
                (symbolOf b (length store1))) as (els2' & Hq2' & Hs2');
      [lia|].
    rewrite Hq2 in Hq2'. injection Hq2' as <-.
    destruct (buildTree_keeps _ _ _ _ _ _ _ Hbuild Hq2 Hs2) as (els & Hq & Hs).
    destruct (buildTree_keeps _ _ _ _ _ _ _ Hbuild Hq2 Hs2') as (els' & Hq' & Hs').
    rewrite Hq in Hq'. injection Hq' as <-.
    exists (MarkdownSymbol.children p), els.
    rewrite Hlen1, Hlen, Nat.add_0_r in *. done.
  - destruct (IH _ _ _ _ k a b Hinv1 Hbuild Ha Hb Hlevel)
      as (q & elements & Hq & Hsa & Hsb).
    rewrite length_app in Hsa, Hsb. simpl in Hsa, Hsb.
    replace (length placed + 1 + k) with (length placed + S k) in * by lia.
    eauto.
Qed.

Lemma treeInvariant_initial :
  treeInvariant [] [[]] (MarkdownSymbol.make NegInfinity None 0).
Proof.
  unfold treeInvariant. simpl. split_and!; [done|done|lia|done|].
  intros [|q] array s Hq Hs; simpl in Hq; [|done].
  injection Hq as <-. by inv Hs.
Qed.

(** Below a symbol, levels are strictly greater. *)
Lemma Descendant_level entries store parent a b :
  treeInvariant entries store parent →
  Descendant store a b →
  levelLt (levelOf entries (vscode.children a))
    (levelOf entries (vscode.children b)).
Proof.
  intros (_ & _ & Hedges).
  assert (∀ a b array,
            store !! vscode.children a = Some array → b ∈ array →
            levelLt (levelOf entries (vscode.children a))
              (levelOf entries (vscode.children b))) as Hchild.
  { intros x y array Hx Hy.
    destruct (Hedges _ _ _ Hx Hy) as (i & e & Hi & -> & Hlt).
    simpl. by rewrite Hi. }
  induction 1 as [a b array Ha Hb|a b c array Ha Hb _ IH]; [by eauto|].
  eapply levelLt_trans; [|exact IH]. by eauto.
Qed.
End SymbolTreeFacts.

(** C2.  On a well-formed document [provideDocumentSymbols] returns the
    array of the root together with the store of the nested arrays.  The
    symbols in the arrays are exactly the symbols of the headings; no
    heading is a descendant of a heading whose level is greater than or
    equal to its own (whether that heading comes earlier or not); and two
    consecutive headings of equal level are elements of one array, that is,
    siblings. *)
Theorem headings_never_nest_under_equal_or_deeper_level
    (parser : IMdParser) (document : SkinnyTextDocument) :
  wellFormed parser document →
  ∃ toc roots store,
    TableOfContents.buildToc parser document = Some toc
    ∧ MdDocumentSymbolProvider.provideDocumentSymbols parser document
      = Some (roots, store)
    ∧ store !! 0 = Some roots
    ∧ (∀ q elements s, store !! q = Some elements → s ∈ elements →
         ∃ j b, toc !! j = Some b
           ∧ s = MdDocumentSymbolProvider.symbolOf b (S j))
    ∧ (∀ j b, toc !! j = Some b →
         ∃ q elements,
           store !! q = Some elements
           ∧ MdDocumentSymbolProvider.symbolOf b (S j) ∈ elements)
    ∧ (∀ i j a b,
         toc !! i = Some a → toc !! j = Some b → (level b ≤ level a)%Z →
         ¬ Descendant store (MdDocumentSymbolProvider.symbolOf a (S i))
             (MdDocumentSymbolProvider.symbolOf b (S j)))
    ∧ (∀ i a b,
         toc !! i = Some a → toc !! S i = Some b → level a = level b →
         ∃ q elements,
           store !! q = Some elements
           ∧ MdDocumentSymbolProvider.symbolOf a (S i) ∈ elements
           ∧ MdDocumentSymbolProvider.symbolOf b (S (S i)) ∈ elements).
Proof.
  intros Hwf.
  destruct (buildToc_spec parser document Hwf)
    as (_ & _ & toc & _ & Hbuild & _).
  destruct (buildTree_spec toc [] [[]] _ treeInvariant_initial)
    as (store & parent & Htree & Hinv & Hall).
  simpl in Hinv, Hall.
  destruct (lookup_lt_is_Some_2 store 0) as [roots Hroots].
  { destruct Hinv as (-> & _). lia. }
  exists toc, roots, store. split_and!; [done| |done| | | |].
  - unfold MdDocumentSymbolProvider.provideDocumentSymbols.
    rewrite Hbuild. simpl. rewrite Htree. simpl. by rewrite Hroots.
  - intros q elements s Hq Hs. destruct Hinv as (_ & _ & Hedges).
    destruct (Hedges q elements s Hq Hs) as (j & b & ? & ? & _). eauto.
  - exact Hall.
  - intros i j a b Hi Hj Hle Hdesc.
    apply (Descendant_level toc store parent) in Hdesc; [|done].
    simpl in Hdesc. rewrite Hi, Hj in Hdesc. simpl in Hdesc. lia.
  - intros i a b Hi Hi' Hlevel.
    by apply (buildTree_siblings toc [] [[]] _ store i a b treeInvariant_initial).
Qed.

Lemma headings_never_nest_under_equal_or_deeper_level_witness :
  wellFormed sampleParser sampleDocument
  ∧ ∃ roots store,
      MdDocumentSymbolProvider.provideDocumentSymbols sampleParser sampleDocument
      = Some (roots, store)
      ∧ store !! 0 = Some roots.
Proof.
  split; [exact sampleDocument_wellFormed|].
  destruct (headings_never_nest_under_equal_or_deeper_level
              sampleParser sampleDocument sampleDocument_wellFormed)
    as (toc & roots & store & _ & Hsymbols & Hroots & _).
  by exists roots, store.
Defined.

(** The outline of the sample document: "a" and "b" at the top, the two
    level-2 headings side by side under "a". *)
Example sampleDocument_outline :
  MdDocumentSymbolProvider.outline sampleParser sampleDocument
  = Some
      [MdDocumentSymbolProvider.Node "# a"
         (vscode.mkRange (vscode.mkPosition 0 0) (vscode.mkPosition 6 4))
         [MdDocumentSymbolProvider.Node "## a"
            (vscode.mkRange (vscode.mkPosition 2 0) (vscode.mkPosition 3 3)) [];
          MdDocumentSymbolProvider.Node "## a-1"
            (vscode.mkRange (vscode.mkPosition 4 0) (vscode.mkPosition 6 4)) []];
       MdDocumentSymbolProvider.Node "# b"
         (vscode.mkRange (vscode.mkPosition 7 0) (vscode.mkPosition 9 4)) []].
Proof. vm_compute. reflexivity. Qed.

(* ===================================================================== *)
(** * Part IV: the profile service                                        *)
(* ===================================================================== *)

Section ProfileServiceFacts.
Import UserDataProfilesMainService.
Context {FS : Type} `{!Host FS}.
Implicit Types (s : Service FS) (profile : IUserDataProfile).
Implicit Types (new : list Effect).

(** Two lists of effects written with different bracketings. *)
Ltac same_effects :=
  repeat (rewrite <- app_assoc || rewrite <- app_comm_cons
          || rewrite app_nil_r || rewrite app_nil_l);
  simpl.

(** *** Sequencing *)

Lemma bind_inv {A B} (m : M A) (k : A → M B) s r s' :
  bind m k s = (r, s') →
  (∃ a s1, m s = (Ok a, s1) ∧ k a s1 = (r, s'))
  ∨ (∃ e, m s = (Throw e, s') ∧ r = Throw e).
Proof.
  unfold bind. destruct (m s) as [[a|e] s1]; [by eauto|].
  intros [= <- <-]. eauto.
Qed.

Lemma gets_inv {A} (f : Service FS → A) s r s' :
  gets f s = (r, s') → r = Ok (f s) ∧ s' = s.
Proof. by intros [= <- <-]. Qed.

Lemma ret_inv {A} (a : A) s r s' : ret a s = (r, s') → r = Ok a ∧ s' = s.
Proof. by intros [= <- <-]. Qed.

Lemma throw_inv {A} e s (r : Result A) s' :
  throw e s = (r, s') → r = Throw e ∧ s' = s.
Proof. by intros [= <- <-]. Qed.

(** *** Replaying writes *)

Lemma replay_app new1 new2 store :
  replay (new1 ++ new2) store = replay new2 (replay new1 store).
Proof. apply fold_left_app. Qed.

Lemma replay_silent new store :
  Forall (λ e, isWrite e = false) new → replay new store = store.
Proof.
  revert store. induction new as [|e new IH]; intros store Hnew; [done|].
  apply Forall_cons in Hnew as [He Hnew]. simpl.
  destruct e; try done; by apply IH.
Qed.

Lemma Forall_Joined (f : Effect → Prop) (promises : list Promise) :
  (∀ promise, f (Joined promise)) → Forall f (Joined <$> promises).
Proof. intros Hf. apply Forall_fmap, Forall_true. intros promise. apply Hf. Qed.

Lemma Forall_Settled (f : Effect → Prop) (promises : list Promise) :
  (∀ promise, f (Settled promise)) → Forall f (Settled <$> promises).
Proof. intros Hf. apply Forall_fmap, Forall_true. intros promise. apply Hf. Qed.

(** *** How the service evolves *)

Lemma readProfilesObject_ext s s' :
  stateMainService s' = stateMainService s →
  defaultProfile s' = defaultProfile s →
  readProfilesObject s' = readProfilesObject s.
Proof.
  intros Hstore Hdefault.
  unfold readProfilesObject, storedProfiles, storedWorskpaceInfos.
  by rewrite Hstore, Hdefault.
Qed.

Lemma evolves_refl s : evolves s s [].
Proof. unfold evolves. rewrite app_nil_r. by split_and!. Qed.

Lemma evolves_trans s s1 s2 new1 new2 :
  evolves s s1 new1 → evolves s1 s2 new2 → evolves s s2 (new1 ++ new2).
Proof.
  intros (He1 & Hs1 & Hh1 & Hd1 & Hc1 & Hr1 & Hk1)
         (He2 & Hs2 & Hh2 & Hd2 & Hc2 & Hr2 & Hk2).
  unfold evolves. rewrite replay_app, app_assoc. split_and!; try congruence.
  auto.
Qed.

Lemma evolves_eq s s' new new' :
  evolves s s' new → new = new' → evolves s s' new'.
Proof. by intros ? <-. Qed.

Lemma evolves_silent s s' new :
  evolves s s' new → Forall (λ e, isWrite e = false) new →
  stateMainService s' = stateMainService s.
Proof. intros (_ & -> & _) Hnew. by apply replay_silent. Qed.

(** A step that leaves the store, the cache and the fields alone. *)
Lemma evolves_log s fs new :
  Forall (λ e, isWrite e = false) new →
  evolves s
    (mkService (stateMainService s) fs (profilesHome s)
       (defaultProfile s) (_profilesObject s) (_onWillCreateProfile s)
       (_onWillRemoveProfile s) (effects s ++ new))
    new.
Proof.
  intros Hnew. unfold evolves. simpl. rewrite replay_silent by done.
  by split_and!.
Qed.

(** *** The building blocks *)

Lemma fire_spec event listeners profile s r s' :
  isWrite event = false →
  fire event listeners profile s = (r, s') →
  r = Ok (joinedBy listeners profile)
  ∧ evolves s s' (event :: (Joined <$> joinedBy listeners profile)).
Proof.
  intros Hevent. unfold fire, bind, emit. simpl. intros [= <- <-].
  split; [done|].
  rewrite <- app_assoc. apply evolves_log.
  apply Forall_cons. split; [done|]. by apply Forall_Joined.
Qed.

Lemma settled_spec promises s r s' :
  settled promises s = (r, s') →
  evolves s s' (Settled <$> promises)
  ∧ ((r = Ok () ∧ omap outcome promises = [])
     ∨ (∃ e rest, r = Throw e ∧ omap outcome promises = e :: rest)).
Proof.
  unfold settled, bind. simpl.
  destruct (omap outcome promises) as [|e rest]; intros [= <- <-].
  - split; [|by left]. apply evolves_log. by apply Forall_Settled.
  - split; [|by eauto]. apply evolves_log. by apply Forall_Settled.
Qed.

Lemma fileOp_spec op e s r s' :
  isWrite e = false →
  fileOp op e s = (r, s') →
  evolves s s' [e] ∧ (r = Ok () ∨ ∃ err, r = Throw err).
Proof.
  intros He. unfold fileOp, bind, emit. simpl.
  destruct (op (fileSystem s)) as [fs|err]; intros [= <- <-].
  all: split; [|by eauto].
  all: apply evolves_log; by apply Forall_singleton.
Qed.

Lemma profilesObject_spec s r s' :
  profilesObject s = (r, s') →
  ∃ o, r = Ok o ∧ evolves s s' []
    ∧ (cacheCoherent s → o = readProfilesObject s).
Proof.
  unfold profilesObject, bind, gets, setProfilesObject, ret. simpl.
  destruct (_profilesObject s) as [o|] eqn:Hcache; intros [= <- <-].
  - exists o. split_and!; [done|apply evolves_refl|].
    intros [Hc|Hc]; congruence.
  - eexists. split_and!; [done| |done].
    unfold evolves. simpl. rewrite app_nil_r. split_and!; try done.
    intros _. by right.
Qed.

Lemma getProfiles_spec s r s' :
  getProfiles s = (r, s') →
  ∃ all, r = Ok all ∧ evolves s s' []
    ∧ (cacheCoherent s → all = profiles (readProfilesObject s)).
Proof.
  unfold getProfiles. intros [(o & s1 & Ho & Hret)|(e & Ho & _)]%bind_inv.
  - apply profilesObject_spec in Ho as (o' & [= ->] & Hev & Hco).
    apply ret_inv in Hret as [-> ->].
    exists (profiles o'). split_and!; [done..|]. by intros ->%Hco.
  - by apply profilesObject_spec in Ho as (? & ? & _).
Qed.

Lemma findByLocation_spec profile s r s' :
  findByLocation profile s = (r, s') → ∃ found, r = Ok found ∧ evolves s s' [].
Proof.
  unfold findByLocation. intros [(o & s1 & Ho & Hret)|(e & Ho & _)]%bind_inv.
  - apply profilesObject_spec in Ho as (o' & [= ->] & Hev & _).
    apply ret_inv in Hret as [-> ->]. eauto.
  - by apply profilesObject_spec in Ho as (? & ? & _).
Qed.

Lemma setStoredWorskpaceInfos_spec v s r s' :
  setStoredWorskpaceInfos v s = (r, s') →
  r = Ok ()
  ∧ evolves s s' [SetItem WORKSPACE_PROFILE_INFO_KEY (WorkspaceInfosItem v)].
Proof.
  unfold setStoredWorskpaceInfos, setItem, setProfilesObject, bind, emit.
  simpl. intros [= <- <-]. split; [done|].
  unfold evolves. simpl. split_and!; try done. intros _. by left.
Qed.

Lemma setStoredProfiles_spec v s r s' :
  setStoredProfiles v s = (r, s') →
  r = Ok ()
  ∧ ∃ all,
      evolves s s' [SetItem PROFILES_KEY (ProfilesItem v); DidChangeProfiles all].
Proof.
  unfold setStoredProfiles, getProfiles, profilesObject, setItem,
    setProfilesObject, bind, gets, ret, emit.
  simpl. intros [= <- <-]. split; [done|]. eexists.
  unfold evolves. simpl. rewrite <- app_assoc. split_and!; try done.
  intros _. by right.
Qed.

Lemma bind_gets {A B} (f : Service FS → A) (k : A → M B) s :
  bind (gets f) k s = k (f s) s.
Proof. done. Qed.

(** *** The operations, step by step *)

Lemma setProfileForWorkspace_spec profile workspaceIdentifier s r s' :
  setProfileForWorkspace profile workspaceIdentifier s = (r, s') →
  let revived := reviveProfile profile (scheme (profilesHome s)) in
  let workspace := getWorkspace workspaceIdentifier in
  let kept :=
    List.filter
      (λ info, negb (extUri_isEqual (StoredWorkspaceInfo.workspace info)
                       workspace))
      (storedWorskpaceInfos s) in
  ∃ found,
    r = Ok found
    ∧ evolves s s'
        [SetItem WORKSPACE_PROFILE_INFO_KEY
           (WorkspaceInfosItem
              (if isDefault revived then kept
               else kept
                    ++ [StoredWorkspaceInfo.make workspace (location revived)]))].
Proof.
  unfold setProfileForWorkspace. rewrite !bind_gets.
  intros [(u & s1 & Hset & Hfind)|(e & Hset & _)]%bind_inv.
  - apply setStoredWorskpaceInfos_spec in Hset as [_ Hset].
    apply findByLocation_spec in Hfind as (found & -> & Hfind).
    exists found. split; [done|].
    pose proof (evolves_trans _ _ _ _ _ Hset Hfind) as Hev.
    by rewrite app_nil_r in Hev.
  - by apply setStoredWorskpaceInfos_spec in Hset as [? _].
Qed.

Lemma storedProfiles_ext s s' :
  stateMainService s' = stateMainService s →
  storedProfiles s' = storedProfiles s.
Proof. unfold storedProfiles. by intros ->. Qed.

Lemma storedWorskpaceInfos_ext s s' :
  stateMainService s' = stateMainService s →
  storedWorskpaceInfos s' = storedWorskpaceInfos s.
Proof. unfold storedWorskpaceInfos. by intros ->. Qed.

Lemma storedWorskpaceInfos_profiles_written s s' v :
  stateMainService s' = <[PROFILES_KEY := ProfilesItem v]> (stateMainService s) →
  storedWorskpaceInfos s' = storedWorskpaceInfos s.
Proof.
  unfold storedWorskpaceInfos. intros ->. by rewrite lookup_insert_ne.
Qed.

Lemma announced_silent event listeners profile :
  isWrite event = false →
  Forall (λ e, isWrite e = false) (announced event listeners profile).
Proof.
  intros Hevent. apply Forall_cons. split; [done|]. apply Forall_app.
  split; [by apply Forall_Joined|by apply Forall_Settled].
Qed.

(** Announcing: either a listener vetoes, or the operation goes on. *)
Lemma announce_spec {A} event listeners profile (k : M A) s r s' :
  isWrite event = false →
  bind (fire event listeners profile)
    (λ joiners, bind (settled joiners) (λ _, k)) s = (r, s') →
  (∃ e rest,
     r = Throw e
     ∧ omap outcome (joinedBy listeners profile) = e :: rest
     ∧ evolves s s' (announced event listeners profile))
  ∨ (∃ s1,
       omap outcome (joinedBy listeners profile) = []
       ∧ evolves s s1 (announced event listeners profile)
       ∧ k s1 = (r, s')).
Proof.
  intros Hevent.
  intros [(joiners & s1 & Hfire & Hrest)|(e & Hfire & _)]%bind_inv.
  2:{ by apply fire_spec in Hfire as [? _]. }
  apply fire_spec in Hfire as [[= ->] Hfire]; [|done].
  apply bind_inv in Hrest as [(u & s2 & Hsettled & Hk)|(e & Hsettled & ->)].
  - apply settled_spec in Hsettled as [Hsettled [[_ Hnone]|(? & ? & ? & _)]];
      [|done].
    right. exists s2. split_and!; [done| |done].
    by apply (evolves_trans _ _ _ _ _ Hfire Hsettled).
  - apply settled_spec in Hsettled as [Hsettled [[? _]|(e' & rest & [= ->] & Hsome)]];
      [done|].
    left. exists e', rest. split_and!; [done..|].
    by apply (evolves_trans _ _ _ _ _ Hfire Hsettled).
Qed.

Lemma storedProfiles_infos_written s s' v :
  stateMainService s'
  = <[WORKSPACE_PROFILE_INFO_KEY := WorkspaceInfosItem v]> (stateMainService s) →
  storedProfiles s' = storedProfiles s.
Proof. unfold storedProfiles. intros ->. by rewrite lookup_insert_ne. Qed.

(** [removeProfile], case by case: the two validation failures, a veto,
    a failed deletion, and the completed removal. *)
Lemma removeProfile_spec profile s r s' :
  removeProfile profile s = (r, s') →
  let revived := reviveProfile profile (scheme (profilesHome s)) in
  let known :=
    existsb
      (λ p, extUri_isEqual (StoredUserDataProfile.location p)
              (location revived))
      (storedProfiles s) in
  let joiners := joinedBy (_onWillRemoveProfile s) revived in
  let news :=
    announced (WillRemoveProfile revived) (_onWillRemoveProfile s) revived in
  (isDefault profile = true
   ∧ r = Throw "Cannot remove default profile" ∧ s' = s)
  ∨ (isDefault profile = false ∧ known = false
     ∧ r = Throw ("Profile with name " +:+ name revived +:+ " does not exist")
     ∧ s' = s)
  ∨ (isDefault profile = false ∧ known = true
     ∧ ((∃ e rest,
           r = Throw e ∧ omap outcome joiners = e :: rest
           ∧ evolves s s' news)
        ∨ (omap outcome joiners = []
           ∧ ∃ all,
               (cacheCoherent s → all = profiles (readProfilesObject s))
               ∧ let target :=
                   if bool_decide (length all = 2) then profilesHome s
                   else location revived in
                 (∃ e, r = Throw e ∧ evolves s s' (news ++ [Del target true]))
                 ∨ (∃ all',
                      r = Ok ()
                      ∧ evolves s s'
                          (news ++
                           [Del target true;
                            SetItem WORKSPACE_PROFILE_INFO_KEY
                              (WorkspaceInfosItem
                                 (List.filter
                                    (λ p, negb (extUri_isEqual
                                                  (StoredWorkspaceInfo.profile p)
                                                  (location revived)))
                                    (storedWorskpaceInfos s)));
                            SetItem PROFILES_KEY
                              (ProfilesItem
                                 (List.filter
                                    (λ p, negb (extUri_isEqual
                                                  (StoredUserDataProfile.location p)
                                                  (location revived)))
                                    (storedProfiles s)));
                            DidChangeProfiles all']))))).
Proof.
  unfold removeProfile. destruct (isDefault profile) eqn:Hdefault.
  { intros [-> ->]%throw_inv. by left. }
  rewrite !bind_gets. simpl.
  set (revived := reviveProfile profile (scheme (profilesHome s))).
  destruct (existsb _ (storedProfiles s)) eqn:Hknown; simpl.
  2:{ intros [-> ->]%throw_inv. right. left. done. }
  rewrite bind_gets. intros Hrun. right. right. split_and!; [done..|].
  apply announce_spec in Hrun
    as [(e & rest & -> & Hveto & Hev)|(s1 & Hnone & Hev1 & Hrun)]; [| |done].
  { left. eauto. }
  right. split; [done|].
  assert (stateMainService s1 = stateMainService s) as Hstore1.
  { apply (evolves_silent _ _ _ Hev1). by apply announced_silent. }
  pose proof Hev1 as (_ & _ & _ & Hdefault1 & _ & _ & Hcoherent1).
  apply bind_inv in Hrun as [(all & s2 & Hall & Hrun)|(e & Hall & _)].
  2:{ by apply getProfiles_spec in Hall as (? & ? & _). }
  apply getProfiles_spec in Hall as (all' & [= <-] & Hev2 & Hcached).
  exists all. split.
  { intros Hc. rewrite (Hcached (Hcoherent1 Hc)).
    by rewrite (readProfilesObject_ext s s1). }
  simpl. set (target := if bool_decide (length all = 2) then _ else _).
  assert (∃ r0 s3,
            fileOp (λ fs, fileService_del fs target true) (Del target true) s2
            = (r0, s3)
            ∧ ((∃ a, r0 = Ok a
                ∧ (let! infos := gets storedWorskpaceInfos in
                   setStoredWorskpaceInfos
                     (List.filter
                        (λ p, negb (extUri_isEqual
                                      (StoredWorkspaceInfo.profile p)
                                      (location revived)))
                        infos) ;;
                   let! stored := gets storedProfiles in
                   setStoredProfiles
                     (List.filter
                        (λ p, negb (extUri_isEqual
                                      (StoredUserDataProfile.location p)
                                      (location revived)))
                        stored)) s3 = (r, s'))
               ∨ (∃ e, r0 = Throw e ∧ r = Throw e ∧ s3 = s'))) as Hdel.
  { subst target. case_bool_decide.
    all: apply bind_inv in Hrun as [(a & s3 & Hdel & Hrun)|(e & Hdel & ->)].
    all: eexists _, _; split; [exact Hdel|]; by eauto. }
  clear Hrun. destruct Hdel as (r0 & s3 & Hdel & Hrun).
  apply fileOp_spec in Hdel as [Hev3 _]; [|done].
  pose proof (evolves_trans _ _ _ _ _ Hev1
                (evolves_trans _ _ _ _ _ Hev2 Hev3)) as Hev.
  change ([] ++ [Del target true]) with [Del target true] in Hev.
  destruct Hrun as [(a & -> & Hrun)|(e & -> & -> & ->)]; [|by left; eauto].
  right.
  assert (stateMainService s3 = stateMainService s) as Hstore3.
  { rewrite (evolves_silent _ _ _ Hev3), (evolves_silent _ _ _ Hev2);
      [done|done|by apply Forall_singleton]. }
  rewrite bind_gets, (storedWorskpaceInfos_ext s s3) in Hrun by done.
  apply bind_inv in Hrun as [(u & s4 & Hinfos & Hrun)|(e & Hinfos & _)].
  2:{ by apply setStoredWorskpaceInfos_spec in Hinfos as [? _]. }
  apply setStoredWorskpaceInfos_spec in Hinfos as [_ Hev4].
  rewrite bind_gets in Hrun.
  rewrite (storedProfiles_infos_written s3 s4 _ (proj1 (proj2 Hev4))),
    (storedProfiles_ext s s3) in Hrun by done.
  apply setStoredProfiles_spec in Hrun as [-> (all' & Hev5)].
  exists all'. split; [done|].
  pose proof (evolves_trans _ _ _ _ _ Hev
                (evolves_trans _ _ _ _ _ Hev4 Hev5)) as Hfinal.
  eapply evolves_eq; [exact Hfinal|].
  unfold announced. by same_effects.
Qed.

Lemma bind_ret {A B} (a : A) (k : A → M B) s : bind (ret a) k s = k a s.
Proof. done. Qed.

(** [createProfile], case by case: the name is taken, the profiles home
    cannot be created, a veto, and the completed creation. *)
Lemma createProfile_spec profile workspaceIdentifier s r s' :
  createProfile profile workspaceIdentifier s = (r, s') →
  let revived := reviveProfile profile (scheme (profilesHome s)) in
  let taken :=
    existsb (λ p, bool_decide (StoredUserDataProfile.name p = name revived))
      (storedProfiles s) in
  let joiners := joinedBy (_onWillCreateProfile s) revived in
  let news :=
    announced (WillCreateProfile revived) (_onWillCreateProfile s) revived in
  let pre :=
    if fileService_exists (fileSystem s) (profilesHome s) then []
    else [CreateFolder (profilesHome s)] in
  let added :=
    StoredUserDataProfile.make (name revived) (location revived)
      (useDefaultFlags revived) in
  let associated :=
    match workspaceIdentifier with
    | None => []
    | Some workspaceIdentifier =>
        let workspace := getWorkspace workspaceIdentifier in
        let kept :=
          List.filter
            (λ info, negb (extUri_isEqual
                             (StoredWorkspaceInfo.workspace info) workspace))
            (storedWorskpaceInfos s) in
        [SetItem WORKSPACE_PROFILE_INFO_KEY
           (WorkspaceInfosItem
              (if isDefault revived then kept
               else kept ++ [StoredWorkspaceInfo.make workspace
                               (location revived)]))]
    end in
  (taken = true
   ∧ r = Throw ("Profile with name " +:+ name revived +:+ " already exists")
   ∧ s' = s)
  ∨ (taken = false
     ∧ ((∃ e, r = Throw e ∧ evolves s s' [CreateFolder (profilesHome s)])
        ∨ (∃ e rest,
             r = Throw e ∧ omap outcome joiners = e :: rest
             ∧ evolves s s' (pre ++ news))
        ∨ (omap outcome joiners = []
           ∧ ∃ found all,
               r = Ok found
               ∧ evolves s s'
                   (pre ++ news
                    ++ [SetItem PROFILES_KEY
                          (ProfilesItem (storedProfiles s ++ [added]));
                        DidChangeProfiles all]
                    ++ associated)))).
Proof.
  unfold createProfile. rewrite !bind_gets. simpl.
  set (revived := reviveProfile profile (scheme (profilesHome s))).
  destruct (existsb _ (storedProfiles s)) eqn:Htaken.
  { intros [-> ->]%throw_inv. by left. }
  rewrite bind_gets. intros Hrun. right. split; [done|].
  set (pre := if fileService_exists _ _ then _ else _).
  set (rest := λ _ : unit, bind (gets _onWillCreateProfile) _) in Hrun.
  assert ((∃ e, r = Throw e ∧ evolves s s' [CreateFolder (profilesHome s)])
          ∨ (∃ s1, evolves s s1 pre ∧ rest () s1 = (r, s'))) as [?|Hcont].
  { subst pre. destruct (fileService_exists _ _).
    - right. exists s. split; [apply evolves_refl|]. by rewrite bind_ret in Hrun.
    - apply bind_inv in Hrun as [(u & s1 & Hop & Hrun)|(e & Hop & ->)].
      + apply fileOp_spec in Hop as [Hop _]; [|done]. destruct u. eauto.
      + apply fileOp_spec in Hop as [Hop _]; [|done]. eauto. }
  { by left. }
  clear Hrun. destruct Hcont as (s1 & Hev1 & Hrun). subst rest. simpl in Hrun.
  assert (Forall (λ e, isWrite e = false) pre) as Hpre.
  { subst pre. destruct (fileService_exists _ _); [done|].
    by apply Forall_singleton. }
  pose proof Hev1 as (_ & _ & Hhome1 & _ & Hlisteners1 & _).
  rewrite bind_gets, Hlisteners1 in Hrun.
  apply announce_spec in Hrun
    as [(e & rest & -> & Hveto & Hev2)|(s2 & Hnone & Hev2 & Hrun)]; [| |done].
  { right. left. exists e, rest. split_and!; [done..|].
    by apply (evolves_trans _ _ _ _ _ Hev1 Hev2). }
  right. right. split; [done|].
  pose proof (evolves_trans _ _ _ _ _ Hev1 Hev2) as Hev12.
  assert (stateMainService s2 = stateMainService s) as Hstore2.
  { apply (evolves_silent _ _ _ Hev12). apply Forall_app. split; [done|].
    by apply announced_silent. }
  rewrite bind_gets, (storedProfiles_ext s s2) in Hrun by done.
  apply bind_inv in Hrun as [(u & s3 & Hset & Hrun)|(e & Hset & _)].
  2:{ by apply setStoredProfiles_spec in Hset as [? _]. }
  apply setStoredProfiles_spec in Hset as [_ (all & Hev3)].
  pose proof (evolves_trans _ _ _ _ _ Hev12 Hev3) as Hev123.
  pose proof Hev123 as (_ & _ & Hhome3 & _).
  assert (storedWorskpaceInfos s3 = storedWorskpaceInfos s) as Hinfos3.
  { rewrite (storedWorskpaceInfos_profiles_written s2 s3 _ (proj1 (proj2 Hev3))).
    by apply storedWorskpaceInfos_ext. }
  apply bind_inv in Hrun as [(u' & s4 & Hws & Hrun)|(e & Hws & ->)].
  - apply findByLocation_spec in Hrun as (found & -> & Hev5).
    exists found, all. split; [done|].
    destruct workspaceIdentifier as [workspaceIdentifier|].
    + apply setProfileForWorkspace_spec in Hws as (_ & _ & Hev4).
      rewrite Hhome3, Hinfos3 in Hev4. unfold revived in *.
      rewrite reviveProfile_again in Hev4.
      pose proof (evolves_trans _ _ _ _ _ Hev123
                    (evolves_trans _ _ _ _ _ Hev4 Hev5)) as Hfinal.
      eapply evolves_eq; [exact Hfinal|].
      unfold announced. by same_effects.
    + apply ret_inv in Hws as [_ ->].
      pose proof (evolves_trans _ _ _ _ _ Hev123 Hev5) as Hfinal.
      eapply evolves_eq; [exact Hfinal|].
      unfold announced. by same_effects.
  - exfalso. destruct workspaceIdentifier as [workspaceIdentifier|].
    + by apply setProfileForWorkspace_spec in Hws as (? & ? & _).
    + by apply ret_inv in Hws as [? _].
Qed.

(** *** Validation failures *)

(** C4.  [removeProfile] called with a profile flagged as the default one
    throws, and the service is left exactly as it was: the state store
    (profile list and workspace associations), the file system and the
    log of effects, to which no will-remove event is added. *)
Theorem removeProfile_default_throws profile s :
  isDefault profile = true →
  removeProfile profile s = (Throw "Cannot remove default profile", s).
Proof. intros Hdefault. unfold removeProfile. by rewrite Hdefault. Qed.

(** C7.  [removeProfile] called with a profile that is not flagged as the
    default one and whose location, once revived, is that of no stored
    profile, throws the does-not-exist error and leaves the service
    exactly as it was: nothing is written, no event is fired, no file is
    deleted. *)
Theorem removeProfile_unknown_throws profile s :
  isDefault profile = false →
  Forall
    (λ p, extUri_isEqual (StoredUserDataProfile.location p)
            (location (reviveProfile profile (scheme (profilesHome s))))
          = false)
    (storedProfiles s) →
  removeProfile profile s
  = (Throw ("Profile with name " +:+ name profile +:+ " does not exist"), s).
Proof.
  intros Hdefault Hunknown. unfold removeProfile.
  rewrite Hdefault, !bind_gets. simpl.
  assert (existsb
            (λ p, extUri_isEqual (StoredUserDataProfile.location p)
                    (location (reviveProfile profile (scheme (profilesHome s)))))
            (storedProfiles s) = false) as ->.
  { induction Hunknown as [|p l Hp _ IH]; [done|]. simpl. by rewrite Hp, IH. }
  simpl. by rewrite reviveProfile_name.
Qed.


(** *** Looking a workspace up *)

Lemma workspaces_lookup (all : list IUserDataProfile) infos workspace :
  ∀ (start : gmap URI IUserDataProfile) found,
    fold_left
      (λ workspaces info,
         match List.find
                 (λ p, extUri_isEqual (location p)
                         (StoredWorkspaceInfo.profile info)) all with
         | Some p => <[StoredWorkspaceInfo.workspace info := p]> workspaces
         | None => workspaces
         end)
      infos start !! workspace = Some found →
    start !! workspace = Some found
    ∨ ∃ info, info ∈ infos
        ∧ StoredWorkspaceInfo.workspace info = workspace
        ∧ List.find
            (λ p, extUri_isEqual (location p)
                    (StoredWorkspaceInfo.profile info)) all
          = Some found.
Proof.
  induction infos as [|info infos IH]; intros start found; simpl; [by left|].
  intros [Hstart|(info' & Hin & Hw & Hfind)]%IH.
  - destruct (List.find _ all) as [p|] eqn:Hfind; [|by left].
    destruct (decide (StoredWorkspaceInfo.workspace info = workspace))
      as [Heq|Hne].
    + rewrite Heq, lookup_insert_eq in Hstart. injection Hstart as ->.
      right. exists info. split_and!; [by left|done..].
    + rewrite lookup_insert_ne in Hstart by done. by left.
  - right. exists info'. split_and!; [by right|done..].
Qed.


(** *** Deleting on removal *)

Lemma filter_none {A} (f : A → bool) (l : list A) :
  Forall (λ x, f x = false) l → List.filter f l = [].
Proof. induction 1 as [|x l Hx _ IH]; simpl; [done|]. by rewrite Hx. Qed.




(** *** Waiting for the joiners *)

Lemma commit_after_quiet (quiet rest before after : list Effect) e :
  quiet ++ rest = before ++ e :: after →
  Forall (λ e, isCommit e = false) quiet → isCommit e = true →
  ∃ later, before = quiet ++ later.
Proof.
  revert before. induction quiet as [|q quiet IH]; intros before Heq Hquiet He.
  - by exists before.
  - apply Forall_cons in Hquiet as [Hq Hquiet].
    destruct before as [|b before]; simplify_eq/=; [congruence|].
    destruct (IH before) as (later & ->); [done..|]. by exists later.
Qed.

Lemma settledBeforeCommit_quiet new :
  Forall (λ e, isCommit e = false) new → settledBeforeCommit new.
Proof.
  intros Hquiet before e after promise -> He _. exfalso.
  rewrite Forall_app, Forall_cons in Hquiet. destruct Hquiet as (_ & ? & _).
  congruence.
Qed.

Lemma settledBeforeCommit_announced pre event listeners profile post :
  Forall (λ e, isCommit e = false ∧ isJoined e = false) pre →
  isCommit event = false → isJoined event = false →
  Forall (λ e, isJoined e = false) post →
  settledBeforeCommit (pre ++ announced event listeners profile ++ post).
Proof.
  intros Hpre Hevent Hevent' Hpost before e after promise Heq He Hjoined.
  rewrite app_assoc in Heq.
  apply commit_after_quiet in Heq as (later & ->); [|
    |done].
  2:{ apply Forall_app. split; [by eapply Forall_impl; [exact Hpre|]; intros ? [? _]|].
      apply Forall_cons. split; [done|]. apply Forall_app.
      split; [by apply Forall_Joined|by apply Forall_Settled]. }
  assert (promise ∈ joinedBy listeners profile) as Hpromise.
  { rewrite !elem_of_app in Hjoined. destruct Hjoined as [Hin|[Hin|Hin]].
    - rewrite Forall_forall in Hpre. by destruct (Hpre _ Hin) as [_ ?].
    - unfold announced in Hin. rewrite elem_of_cons, elem_of_app in Hin.
      destruct Hin as [Heq|[Hin|Hin]]; [by rewrite <- Heq in Hevent'| |].
      + apply list_elem_of_fmap in Hin as (promise' & [= ->] & ?). done.
      + by apply list_elem_of_fmap in Hin as (promise' & ? & ?).
    - rewrite Forall_forall in Hpost. by pose proof (Hpost _ Hin). }
  rewrite !elem_of_app. left. right. unfold announced.
  rewrite elem_of_cons, elem_of_app. right. right.
  apply list_elem_of_fmap. eauto.
Qed.

Lemma pre_quiet s :
  Forall (λ e, isCommit e = false ∧ isJoined e = false)
    (if fileService_exists (fileSystem s) (profilesHome s) then []
     else [CreateFolder (profilesHome s)]).
Proof. destruct (fileService_exists _ _); [done|]. by apply Forall_singleton. Qed.

Lemma announced_quiet event listeners profile :
  isCommit event = false →
  Forall (λ e, isCommit e = false) (announced event listeners profile).
Proof.
  intros Hevent. apply Forall_cons. split; [done|]. apply Forall_app.
  split; [by apply Forall_Joined|by apply Forall_Settled].
Qed.

Lemma Joined_announced event listeners profile promise :
  promise ∈ joinedBy listeners profile →
  Joined promise ∈ announced event listeners profile.
Proof.
  intros Hin. unfold announced. rewrite elem_of_cons, elem_of_app.
  right. left. apply list_elem_of_fmap. eauto.
Qed.

(** C8.  In both [createProfile] and [removeProfile], whatever the
    outcome: every promise that was joined has settled before the first
    write to the state store and before any deletion; if anything is
    committed at all, every promise the listeners passed to [join] while
    the event was fired was joined; and when one of these promises is
    rejected nothing is committed. *)
Theorem joiners_settle_before_commit profile s :
  let revived := reviveProfile profile (scheme (profilesHome s)) in
  (∀ workspaceIdentifier, ∃ new,
     effects (createProfile profile workspaceIdentifier s).2 = effects s ++ new
     ∧ settledBeforeCommit new
     ∧ (Exists (λ e, isCommit e = true) new →
        ∀ promise, promise ∈ joinedBy (_onWillCreateProfile s) revived →
          Joined promise ∈ new)
     ∧ (omap outcome (joinedBy (_onWillCreateProfile s) revived) ≠ [] →
        Forall (λ e, isCommit e = false) new))
  ∧ (∃ new,
       effects (removeProfile profile s).2 = effects s ++ new
       ∧ settledBeforeCommit new
       ∧ (Exists (λ e, isCommit e = true) new →
          ∀ promise, promise ∈ joinedBy (_onWillRemoveProfile s) revived →
            Joined promise ∈ new)
       ∧ (omap outcome (joinedBy (_onWillRemoveProfile s) revived) ≠ [] →
          Forall (λ e, isCommit e = false) new)).
Proof.
  intros revived.
  assert (∀ new : list Effect,
            Forall (λ e, isCommit e = false) new →
            ∀ joiners : list Promise,
              settledBeforeCommit new
              ∧ (Exists (λ e, isCommit e = true) new →
                 ∀ promise, promise ∈ joiners → Joined promise ∈ new)
              ∧ (omap outcome joiners ≠ [] →
                 Forall (λ e, isCommit e = false) new)) as Hquiet.
  { intros new Hnew joiners. split_and!; [by apply settledBeforeCommit_quiet| |done].
    intros Hcommit. exfalso. apply Exists_exists in Hcommit as (e & He & Hc).
    rewrite Forall_forall in Hnew. specialize (Hnew e He). congruence. }
  split.
  - intros workspaceIdentifier.
    destruct (createProfile profile workspaceIdentifier s) as [r s'] eqn:Hrun.
    simpl. apply createProfile_spec in Hrun. fold revived in Hrun.
    pose proof (pre_quiet s) as Hpre.
    destruct Hrun as [(_ & _ & ->)|(_ & [(e & _ & Hev)|[(e & rest & _ & _ & Hev)
      |(Hnone & found & all & _ & Hev)]])].
    + exists []. rewrite app_nil_r. split; [done|]. by apply Hquiet.
    + eexists. split; [apply Hev|]. apply Hquiet. by apply Forall_singleton.
    + eexists. split; [apply Hev|]. apply Hquiet. apply Forall_app. split.
      * eapply Forall_impl; [exact Hpre|]. by intros ? [? _].
      * by apply announced_quiet.
    + eexists. split; [apply Hev|]. split_and!.
      * apply settledBeforeCommit_announced; [done..|].
        apply Forall_app. split; [by repeat constructor|].
        destruct workspaceIdentifier; by repeat constructor.
      * intros _ promise Hpromise. rewrite !elem_of_app. right. left.
        by apply Joined_announced.
      * by rewrite Hnone.
  - destruct (removeProfile profile s) as [r s'] eqn:Hrun.
    simpl. apply removeProfile_spec in Hrun. fold revived in Hrun.
    destruct Hrun as [(_ & _ & ->)|[(_ & _ & _ & ->)|(_ & _ &
      [(e & rest & _ & _ & Hev)|(Hnone & all & _ & [(e & _ & Hev)|(all' & _ & Hev)])])]].
    + exists []. rewrite app_nil_r. split; [done|]. by apply Hquiet.
    + exists []. rewrite app_nil_r. split; [done|]. by apply Hquiet.
    + eexists. split; [apply Hev|]. apply Hquiet. by apply announced_quiet.
    + eexists. split; [apply Hev|]. split_and!.
      * apply (settledBeforeCommit_announced []); [done..|]. by repeat constructor.
      * intros _ promise Hpromise. rewrite !elem_of_app. left.
        by apply Joined_announced.
      * by rewrite Hnone.
    + eexists. split; [apply Hev|]. split_and!.
      * apply (settledBeforeCommit_announced []); [done..|]. by repeat constructor.
      * intros _ promise Hpromise. rewrite !elem_of_app. left.
        by apply Joined_announced.
      * by rewrite Hnone.
Qed.

(** *** The default profile is never associated *)

Lemma Forall_List_filter {A} (P : A → Prop) (f : A → bool) (l : list A) :
  Forall P l → Forall P (List.filter f l).
Proof.
  induction 1 as [|x l Hx _ IH]; simpl; [done|].
  destruct (f x); [by apply Forall_cons|done].
Qed.

Lemma storedWorskpaceInfos_written s s' v (store : gmap string Item) :
  stateMainService s'
  = <[WORKSPACE_PROFILE_INFO_KEY := WorkspaceInfosItem v]> store →
  storedWorskpaceInfos s' = v.
Proof. unfold storedWorskpaceInfos. intros ->. by rewrite lookup_insert_eq. Qed.

Lemma evolves_after_quiet s s' quiet new :
  evolves s s' (quiet ++ new) → Forall (λ e, isWrite e = false) quiet →
  stateMainService s' = replay new (stateMainService s)
  ∧ defaultProfile s' = defaultProfile s.
Proof.
  intros (_ & -> & _ & -> & _) Hquiet.
  by rewrite replay_app, (replay_silent quiet).
Qed.

Lemma noDefaultAssociation_same s s' :
  noDefaultAssociation s →
  stateMainService s' = stateMainService s →
  defaultProfile s' = defaultProfile s →
  noDefaultAssociation s'.
Proof.
  unfold noDefaultAssociation. intros Hs Hstore ->.
  by rewrite (storedWorskpaceInfos_ext s s').
Qed.

(** The list [setProfileForWorkspace] stores keeps the invariant. *)
Lemma association_allowed profile workspace s :
  noDefaultAssociation s → wellFlagged s profile →
  let revived := reviveProfile profile (scheme (profilesHome s)) in
  let kept :=
    List.filter
      (λ info, negb (extUri_isEqual (StoredWorkspaceInfo.workspace info)
                       workspace))
      (storedWorskpaceInfos s) in
  Forall
    (λ info, extUri_isEqual (StoredWorkspaceInfo.profile info)
               (location (defaultProfile s)) = false)
    (if isDefault revived then kept
     else kept ++ [StoredWorkspaceInfo.make workspace (location revived)]).
Proof.
  intros Hinv Hflag. simpl.
  rewrite reviveProfile_isDefault.
  destruct (isDefault profile) eqn:Hdefault; [by apply Forall_List_filter|].
  apply Forall_app. split; [by apply Forall_List_filter|].
  apply Forall_singleton. simpl. by apply Hflag.
Qed.

(** C10, as amended.  [setProfileForWorkspace] called with a profile
    flagged as the default one stores the associations of the other
    workspaces and none for this one.  For a profile that is flagged as the
    default one whenever it is located where the default profile is, each of
    [setProfileForWorkspace], [createProfile], [removeProfile], [getProfile]
    and [getAllProfiles] keeps the invariant that no stored association
    refers to the location of the default profile. *)
Theorem default_profile_never_associated profile s :
  noDefaultAssociation s →
  wellFlagged s profile →
  (∀ workspaceIdentifier,
     isDefault profile = true →
     storedWorskpaceInfos
       (setProfileForWorkspace profile workspaceIdentifier s).2
     = List.filter
         (λ info, negb (extUri_isEqual (StoredWorkspaceInfo.workspace info)
                          (getWorkspace workspaceIdentifier)))
         (storedWorskpaceInfos s))
  ∧ (∀ workspaceIdentifier,
       noDefaultAssociation
         (setProfileForWorkspace profile workspaceIdentifier s).2)
  ∧ (∀ workspaceIdentifier,
       noDefaultAssociation (createProfile profile workspaceIdentifier s).2)
  ∧ noDefaultAssociation (removeProfile profile s).2
  ∧ (∀ workspaceIdentifier,
       noDefaultAssociation (getProfile workspaceIdentifier s).2)
  ∧ noDefaultAssociation (getAllProfiles s).2.
Proof.
  intros Hinv Hflag.
  assert (∀ s' new,
            evolves s s' new → Forall (λ e, isWrite e = false) new →
            noDefaultAssociation s') as Hquiet.
  { intros s' new Hev Hnew. apply (noDefaultAssociation_same s); [done| |].
    - by eapply evolves_silent.
    - apply Hev. }
  split_and!.
  - intros workspaceIdentifier Hdefault.
    destruct (setProfileForWorkspace _ _ s) as [r s'] eqn:Hrun. simpl.
    apply setProfileForWorkspace_spec in Hrun as (found & _ & Hev).
    rewrite reviveProfile_isDefault, Hdefault in Hev.
    destruct Hev as (_ & Hstore & _). simpl in Hstore.
    by apply (storedWorskpaceInfos_written s s' _ _ Hstore).
  - intros workspaceIdentifier.
    destruct (setProfileForWorkspace _ _ s) as [r s'] eqn:Hrun. simpl.
    apply setProfileForWorkspace_spec in Hrun as (found & _ & Hev).
    destruct Hev as (_ & Hstore & _ & Hdefault & _). simpl in Hstore.
    unfold noDefaultAssociation.
    rewrite (storedWorskpaceInfos_written s s' _ _ Hstore), Hdefault.
    by apply association_allowed.
  - intros workspaceIdentifier.
    destruct (createProfile _ _ s) as [r s'] eqn:Hrun. simpl.
    apply createProfile_spec in Hrun.
    pose proof (pre_quiet s) as Hpre.
    assert (Forall (λ e, isWrite e = false)
              (if fileService_exists (fileSystem s) (profilesHome s) then []
               else [CreateFolder (profilesHome s)])) as Hpre'.
    { destruct (fileService_exists _ _); [done|]. by apply Forall_singleton. }
    destruct Hrun as [(_ & _ & ->)|(_ & [(e & _ & Hev)|[(e & rest & _ & _ & Hev)
      |(Hnone & found & all & _ & Hev)]])]; [done| | |].
    + apply (Hquiet _ _ Hev). by apply Forall_singleton.
    + apply (Hquiet _ _ Hev). apply Forall_app. split; [done|].
      by apply announced_silent.
    + rewrite app_assoc in Hev.
      apply evolves_after_quiet in Hev as [Hstore Hdefault].
      2:{ apply Forall_app. split; [done|]. by apply announced_silent. }
      unfold noDefaultAssociation. rewrite Hdefault.
      destruct workspaceIdentifier as [workspaceIdentifier|]; simpl in Hstore.
      * rewrite (storedWorskpaceInfos_written s s' _ _ Hstore).
        by apply association_allowed.
      * by rewrite (storedWorskpaceInfos_profiles_written s s' _ Hstore).
  - destruct (removeProfile profile s) as [r s'] eqn:Hrun. simpl.
    apply removeProfile_spec in Hrun.
    destruct Hrun as [(_ & _ & ->)|[(_ & _ & _ & ->)|(_ & _ &
      [(e & rest & _ & _ & Hev)|(Hnone & all & _ & [(e & _ & Hev)|(all' & _ & Hev)])])]];
      [done|done| | |].
    + apply (Hquiet _ _ Hev). by apply announced_silent.
    + apply (Hquiet _ _ Hev). apply Forall_app. split; [by apply announced_silent|].
      by apply Forall_singleton.
    + apply evolves_after_quiet in Hev as [Hstore Hdefault];
        [|by apply announced_silent].
      simpl in Hstore. unfold noDefaultAssociation. rewrite Hdefault.
      unfold storedWorskpaceInfos at 1. rewrite Hstore.
      rewrite lookup_insert_ne, lookup_insert_eq by done.
      by apply Forall_List_filter.
  - intros workspaceIdentifier.
    destruct (getProfile workspaceIdentifier s) as [r s'] eqn:Hrun. simpl.
    unfold getProfile in Hrun.
    apply bind_inv in Hrun as [(o & s1 & Ho & Hrun)|(e & Ho & _)].
    + apply profilesObject_spec in Ho as (_ & _ & Hev & _).
      assert (s' = s1) as ->.
      { destruct (_ !! _); [by apply ret_inv in Hrun as [_ ->]|].
        by apply gets_inv in Hrun as [_ ->]. }
      by apply (Hquiet _ _ Hev).
    + apply profilesObject_spec in Ho as (_ & _ & Hev & _).
      by apply (Hquiet _ _ Hev).
  - destruct (getAllProfiles s) as [r s'] eqn:Hrun. simpl.
    apply getProfiles_spec in Hrun as (_ & _ & Hev & _).
    by apply (Hquiet _ _ Hev).
Qed.

(** *** The cache stays coherent *)

(** Every operation takes a service with a coherent cache to a service
    with a coherent cache, so that the coherence assumed of the cache where
    it is read holds of every service reached from a fresh one. *)
Lemma operations_keep_cache_coherent profile s :
  cacheCoherent s →
  (∀ workspaceIdentifier,
     cacheCoherent (setProfileForWorkspace profile workspaceIdentifier s).2)
  ∧ (∀ workspaceIdentifier,
       cacheCoherent (createProfile profile workspaceIdentifier s).2)
  ∧ cacheCoherent (removeProfile profile s).2
  ∧ (∀ workspaceIdentifier,
       cacheCoherent (getProfile workspaceIdentifier s).2)
  ∧ cacheCoherent (getAllProfiles s).2.
Proof.
  intros Hcoherent.
  assert (∀ s' new, evolves s s' new → cacheCoherent s') as Hev.
  { intros s' new (_ & _ & _ & _ & _ & _ & Hkeep). by apply Hkeep. }
  split_and!.
  - intros workspaceIdentifier.
    destruct (setProfileForWorkspace _ _ s) as [r s'] eqn:Hrun. simpl.
    apply setProfileForWorkspace_spec in Hrun as (found & _ & ?). eauto.
  - intros workspaceIdentifier.
    destruct (createProfile _ _ s) as [r s'] eqn:Hrun. simpl.
    apply createProfile_spec in Hrun.
    destruct Hrun as [(_ & _ & ->)|(_ & [(e & _ & ?)|[(e & rest & _ & _ & ?)
      |(Hnone & found & all & _ & ?)]])]; eauto.
  - destruct (removeProfile profile s) as [r s'] eqn:Hrun. simpl.
    apply removeProfile_spec in Hrun.
    destruct Hrun as [(_ & _ & ->)|[(_ & _ & _ & ->)|(_ & _ &
      [(e & rest & _ & _ & ?)|(Hnone & all & _ & [(e & _ & ?)|(all' & _ & ?)])])]];
      eauto.
  - intros workspaceIdentifier.
    destruct (getProfile workspaceIdentifier s) as [r s'] eqn:Hrun. simpl.
    unfold getProfile in Hrun.
    apply bind_inv in Hrun as [(o & s1 & Ho & Hrun)|(e & Ho & _)].
    + apply profilesObject_spec in Ho as (_ & _ & ? & _).
      assert (s' = s1) as ->; [|by eauto].
      destruct (_ !! _); [by apply ret_inv in Hrun as [_ ->]|].
      by apply gets_inv in Hrun as [_ ->].
    + apply profilesObject_spec in Ho as (_ & _ & ? & _). eauto.
  - destruct (getAllProfiles s) as [r s'] eqn:Hrun. simpl.
    apply getProfiles_spec in Hrun as (_ & _ & ? & _). eauto.
Qed.
End ProfileServiceFacts.

(** ** The service on the sample states *)

Section SampleService.
Import UserDataProfilesMainService.

Lemma sampleOne_coherent : cacheCoherent sampleOne.
Proof. by left. Qed.

Lemma removeProfile_default_throws_witness :
  isDefault sampleDefault = true
  ∧ removeProfile sampleDefault sampleOne
    = (Throw "Cannot remove default profile", sampleOne).
Proof.
  split; [reflexivity|].
  apply (removeProfile_default_throws sampleDefault sampleOne). reflexivity.
Defined.

Lemma removeProfile_unknown_throws_witness :
  isDefault sampleHome = false
  ∧ removeProfile sampleHome sampleOne
    = (Throw "Profile with name home does not exist", sampleOne).
Proof.
  split; [reflexivity|].
  apply (removeProfile_unknown_throws sampleHome sampleOne); [reflexivity|].
  vm_compute. repeat constructor.
Defined.



Lemma joiners_settle_before_commit_witness :
  ∃ new,
    effects (removeProfile sampleWork sampleOne).2 = effects sampleOne ++ new
    ∧ settledBeforeCommit new.
Proof.
  destruct (joiners_settle_before_commit sampleWork sampleOne)
    as (_ & new & Hnew & Hsettled & _).
  exists new. by split.
Defined.


Lemma sampleOne_noDefaultAssociation : noDefaultAssociation sampleOne.
Proof. vm_compute. repeat constructor. Qed.

Lemma default_profile_never_associated_witness :
  noDefaultAssociation sampleOne
  ∧ wellFlagged sampleOne sampleHome
  ∧ noDefaultAssociation
      (setProfileForWorkspace sampleHome
         (SingleFolderWorkspace "app" (fileUri "/src/app")) sampleOne).2.
Proof.
  pose proof sampleOne_noDefaultAssociation as Hinv.
  assert (wellFlagged sampleOne sampleHome) as Hflag.
  { intros _. reflexivity. }
  split_and!; [exact Hinv|exact Hflag|].
  destruct (default_profile_never_associated sampleHome sampleOne Hinv Hflag)
    as (_ & Hset & _).
  apply Hset.
Defined.

(** C10, as stated, fails: what decides whether an association is stored
    is the [isDefault] flag of the profile handed in.  A profile that is
    not flagged as the default one but is located where the default profile
    is gets associated, and the stored association then refers to the
    location of the default profile. *)
Lemma default_profile_never_associated_counterexample :
  ¬ (∀ (profile : IUserDataProfile) (workspaceIdentifier : WorkspaceIdentifier)
       (s : Service (list URI)),
       noDefaultAssociation s →
       noDefaultAssociation
         (setProfileForWorkspace profile workspaceIdentifier s).2).
Proof.
  intros Hkept.
  specialize (Hkept (mkProfile "copy" (location sampleDefault) false None)
                (SingleFolderWorkspace "app" (fileUri "/src/app"))
                sampleEmpty).
  assert (noDefaultAssociation sampleEmpty) as Hempty.
  { vm_compute. constructor. }
  specialize (Hkept Hempty). vm_compute in Hkept.
  apply Forall_cons in Hkept as [Hfalse _]. discriminate Hfalse.
Qed.

(** The name of the default profile, which is not stored, is not among
    the names [createProfile] compares with. *)
Example createProfile_default_name_accepted :
  (createProfile (mkProfile "default" (fileUri "/user/profiles/d") false None)
     None sampleEmpty).1
  = Ok (Some (mkProfile "default" (fileUri "/user/profiles/d") false None)).
Proof. vm_compute. reflexivity. Qed.
(** What removing the only stored profile does, in order. *)
Example removeProfile_last_effects :
  effects (removeProfile sampleWork sampleOne).2
  = [WillRemoveProfile sampleWork;
     Joined (mkPromise 7 None);
     Settled (mkPromise 7 None);
     Del (fileUri "/user/profiles") true;
     SetItem WORKSPACE_PROFILE_INFO_KEY (WorkspaceInfosItem []);
     SetItem PROFILES_KEY (ProfilesItem []);
     DidChangeProfiles [sampleDefault]].
Proof. vm_compute. reflexivity. Qed.

(** A listener that vetoes: nothing is deleted and nothing is written. *)
Example removeProfile_vetoed :
  let vetoing := λ _ : IUserDataProfile, [mkPromise 8 (Some "not now")] in
  let s :=
    mkService (stateMainService sampleOne) (fileSystem sampleOne)
      (profilesHome sampleOne) (defaultProfile sampleOne) None
      [] [sampleListener; vetoing] [] in
  (removeProfile sampleWork s).1 = Throw "not now"
  ∧ effects (removeProfile sampleWork s).2
    = [WillRemoveProfile sampleWork;
       Joined (mkPromise 7 None); Joined (mkPromise 8 (Some "not now"));
       Settled (mkPromise 7 None); Settled (mkPromise 8 (Some "not now"))]
  ∧ stateMainService (removeProfile sampleWork s).2 = stateMainService sampleOne.
Proof. vm_compute. done. Qed.
End SampleService.

(* ===================================================================== *)
(** * Part V: more on the table of contents and on the symbol tree     *)
(* ===================================================================== *)

Section HeaderTextFacts.
Import TableOfContents.

Lemma list_ascii_app (s1 s2 : string) :
  String.list_ascii_of_string (s1 +:+ s2)
  = String.list_ascii_of_string s1 ++ String.list_ascii_of_string s2.
Proof. induction s1 as [|c s1 IH]; simpl; [done|]. by rewrite <- IH. Qed.

Lemma list_ascii_repeatChar c n :
  String.list_ascii_of_string (repeatChar c n) = replicate n c.
Proof. apply String.list_ascii_of_string_of_list_ascii. Qed.

Lemma takeWhile_replicate p c n s :
  p c = true → takeWhile p (replicate n c ++ s) = replicate n c ++ takeWhile p s.
Proof. intros Hc. induction n as [|n IH]; simpl; [done|]. by rewrite Hc, IH. Qed.

Lemma dropWhile_replicate p c n s :
  p c = true → dropWhile p (replicate n c ++ s) = dropWhile p s.
Proof. intros Hc. induction n as [|n IH]; simpl; [done|]. by rewrite Hc. Qed.

Lemma takeWhile_stop p s :
  from_option p false (head s) = false → takeWhile p s = [].
Proof. destruct s as [|c s]; simpl; [done|]. by intros ->. Qed.

Lemma dropWhile_stop p s :
  from_option p false (head s) = false → dropWhile p s = s.
Proof. destruct s as [|c s]; simpl; [done|]. by intros ->. Qed.

(** A closing mark is made of white space and hashes only. *)
Lemma closingMark_marks s :
  closingMark s = true → forallb (λ c, isSpace c || isHash c) s = true.
Proof.
  assert (∀ p t, dropWhile p t = [] → forallb p t = true) as Hdrop.
  { intros p t. induction t as [|c t IH]; simpl; [done|].
    destruct (p c) eqn:Hc; [by auto|done]. }
  assert (∀ (p q : ascii → bool) t, forallb q (dropWhile p t) = true →
            forallb (λ c, p c || q c) t = true) as Hsplit.
  { intros p q t. induction t as [|c t IH]; simpl; [done|].
    destruct (p c) eqn:Hc; simpl; [by auto|].
    intros [-> ?]%andb_true_iff. simpl.
    clear IH. induction t as [|d t IH]; simpl in *; [done|].
    apply andb_true_iff in H as [-> ?]. rewrite orb_true_r. by auto. }
  destruct s as [|c s]; [done|]. unfold closingMark.
  destruct (takeWhile isSpace (c :: s)) as [|? ?]; [done|].
  destruct (dropWhile isSpace (c :: s)) as [|h hs] eqn:Hhs; [done|].
  destruct (dropWhile isHash (h :: hs)) eqn:Hrest; [|done]. intros _.
  apply Hsplit. rewrite Hhs. by apply Hdrop.
Qed.

Lemma isPlain_not_mark c : isPlain c = true → isSpace c || isHash c = false.
Proof. unfold isPlain. by destruct (isSpace c), (isHash c). Qed.

(** A string that ends with a plain character is no closing mark. *)
Lemma closingMark_plain s c t :
  isPlain c = true → closingMark (s ++ c :: t) = false.
Proof.
  intros Hc. destruct (closingMark _) eqn:Hmark; [|done].
  apply closingMark_marks in Hmark. rewrite forallb_app in Hmark. simpl in Hmark.
  rewrite (isPlain_not_mark c Hc) in Hmark. simpl in Hmark.
  by rewrite andb_false_r in Hmark.
Qed.

(** The lazy group goes through a text that ends with a plain character. *)
Lemma lazyWord_through w0 c closing :
  forallb (λ c, negb (isLineTerminator c)) (w0 ++ [c]) = true →
  isPlain c = true →
  lazyWord ((w0 ++ [c]) ++ closing) = ((w0 ++ [c]) ++.) <$> lazyWord closing.
Proof.
  intros Hterm Hc. induction w0 as [|x w0 IH].
  - simpl in Hterm. apply andb_true_iff in Hterm as [Hterm _].
    apply negb_true_iff in Hterm. cbn [app lazyWord].
    change (c :: closing) with ([] ++ c :: closing).
    rewrite closingMark_plain by done. cbn [app]. rewrite Hterm.
    by destruct (lazyWord closing).
  - simpl in Hterm. apply andb_true_iff in Hterm as [Hx Hterm].
    specialize (IH Hterm). cbn [app lazyWord].
    assert (closingMark (x :: (w0 ++ [c]) ++ closing) = false) as ->.
    { rewrite <- app_assoc. apply (closingMark_plain (x :: w0) c closing Hc). }
    apply negb_true_iff in Hx. rewrite Hx.
    rewrite IH. by destruct (lazyWord closing).
Qed.

Lemma space_isSpace : isSpace " " = true.
Proof. done. Qed.
Lemma hash_isHash : isHash "#" = true.
Proof. done. Qed.

(** The lazy group on a closing sequence: nothing when hashes close the
    heading, the white space itself when there is no hash. *)
Lemma lazyWord_closing a b :
  (0 < b → 0 < a) →
  lazyWord (replicate a " "%char ++ replicate b "#"%char)
  = Some (if b is O then replicate a " "%char else []).
Proof.
  intros Hab. destruct b as [|b].
  - rewrite app_nil_r. clear Hab. induction a as [|a IH]; [done|].
    cbn [replicate lazyWord]. rewrite IH.
    assert (closingMark (" "%char :: replicate a " "%char) = false) as ->; [|done].
    pose proof (dropWhile_replicate isSpace " "%char (S a) [] eq_refl) as Hd.
    rewrite app_nil_r in Hd.
    change (replicate (S a) " "%char) with (" "%char :: replicate a " "%char)
      in Hd.
    unfold closingMark. rewrite Hd.
    by destruct (takeWhile isSpace _).
  - destruct a as [|a]; [lia|].
    assert (closingMark (replicate (S a) " "%char ++ replicate (S b) "#"%char)
            = true) as Hmark.
    { unfold closingMark.
      rewrite (takeWhile_replicate isSpace), (dropWhile_replicate isSpace)
        by done.
      simpl. rewrite <- (app_nil_r (replicate b _)).
      by rewrite (dropWhile_replicate isHash). }
    destruct a; simpl in *; by rewrite Hmark.
Qed.

Lemma trim_plain w0 c a :
  from_option isPlain false (head (w0 ++ [c])) = true →
  isPlain c = true →
  trim ((w0 ++ [c]) ++ replicate a " "%char) = w0 ++ [c].
Proof.
  intros Hhead Hc. unfold trim.
  assert (∀ x, isPlain x = true → isSpace x = false) as Hplain.
  { intros x. unfold isPlain. by destruct (isSpace x). }
  rewrite (dropWhile_stop isSpace ((w0 ++ [c]) ++ _)).
  2:{ destruct w0 as [|x w0]; simpl in *; by apply Hplain. }
  rewrite reverse_app, reverse_replicate, dropWhile_replicate by done.
  rewrite reverse_app. simpl. rewrite (Hplain c Hc).
  change (c :: reverse w0) with ([c] ++ reverse w0).
  by rewrite reverse_app, reverse_involutive.
Qed.

Lemma plainText_inv w :
  plainText w = true →
  ∃ w0 c, String.list_ascii_of_string w = w0 ++ [c]
    ∧ isPlain c = true
    ∧ from_option isPlain false (head (w0 ++ [c])) = true
    ∧ forallb (λ c, negb (isLineTerminator c)) (w0 ++ [c]) = true.
Proof.
  unfold plainText. intros [[Hh Hl]%andb_true_iff Ht]%andb_true_iff.
  destruct (String.list_ascii_of_string w) as [|x s] eqn:Hw using rev_ind;
    [done|].
  rewrite last_snoc in Hl. eauto 10.
Qed.

Lemma atxLine_chars n g w a b :
  String.list_ascii_of_string (atxLine n g w a b)
  = replicate n "#"%char ++ replicate g " "%char
    ++ String.list_ascii_of_string w
    ++ replicate a " "%char ++ replicate b "#"%char.
Proof.
  unfold atxLine. by rewrite !list_ascii_app, !list_ascii_repeatChar.
Qed.

Lemma head_plain_stop (p : ascii → bool) g s t :
  (∀ x, isPlain x = true → p x = false) → p " "%char = false ∨ g = 0 →
  from_option isPlain false (head s) = true →
  from_option p false (head (replicate g " "%char ++ s ++ t)) = false.
Proof.
  intros Hp Hg Hs. destruct g as [|g]; simpl.
  - destruct s as [|x s]; simpl in *; [done|]. by apply Hp.
  - by destruct Hg.
Qed.

Lemma isPlain_not_space x : isPlain x = true → isSpace x = false.
Proof. unfold isPlain. by destruct (isSpace x). Qed.

Lemma isPlain_not_hash x : isPlain x = true → isHash x = false.
Proof. unfold isPlain. by destruct (isSpace x), (isHash x). Qed.

Lemma atxLine_text n g w a b :
  0 < n → plainText w = true → (0 < b → 0 < a) →
  getHeaderText (atxLine n g w a b) = w.
Proof.
  intros Hn Hw Hab.
  destruct (plainText_inv w Hw) as (w0 & c & Hchars & Hc & Hhead & Hterm).
  unfold getHeaderText. rewrite atxLine_chars, Hchars.
  rewrite (dropWhile_stop isSpace) by (by destruct n; [lia|]).
  rewrite (takeWhile_replicate isHash), (dropWhile_replicate isHash) by done.
  rewrite (takeWhile_stop isHash), (dropWhile_stop isHash)
    by (apply head_plain_stop; auto using isPlain_not_hash).
  rewrite app_nil_r. destruct n as [|n]; [lia|]. cbn [replicate].
  rewrite (dropWhile_replicate isSpace) by done.
  rewrite (dropWhile_stop isSpace)
    by (apply (head_plain_stop isSpace 0);
        auto using isPlain_not_space).
  rewrite lazyWord_through, lazyWord_closing by done. simpl.
  rewrite <- (String.string_of_list_ascii_of_string w), Hchars. f_equal.
  destruct b.
  - by apply trim_plain.
  - rewrite app_nil_r. rewrite <- (app_nil_r (w0 ++ [c])) at 1.
    by apply (trim_plain w0 c 0).
Qed.

Lemma atxLine_leadingMarkLength n g w a b :
  0 < n → plainText w = true →
  leadingMarkLength (atxLine n g w a b) = n + g.
Proof.
  intros Hn Hw.
  destruct (plainText_inv w Hw) as (w0 & c & Hchars & Hc & Hhead & Hterm).
  unfold leadingMarkLength. rewrite atxLine_chars, Hchars.
  rewrite (takeWhile_replicate isHash), (dropWhile_replicate isHash) by done.
  rewrite (takeWhile_stop isHash), (dropWhile_stop isHash)
    by (apply head_plain_stop; auto using isPlain_not_hash).
  rewrite app_nil_r. destruct n as [|n]; [lia|]. cbn [replicate].
  rewrite (takeWhile_replicate isSpace) by done.
  rewrite (takeWhile_stop isSpace)
    by (apply (head_plain_stop isSpace 0);
        auto using isPlain_not_space).
  rewrite app_nil_r. simpl. by rewrite !length_replicate.
Qed.

Lemma atxLine_trailingMarkLength n g w a b :
  plainText w = true →
  trailingMarkLength (atxLine n g w a b) = a + b.
Proof.
  intros Hw.
  destruct (plainText_inv w Hw) as (w0 & c & Hchars & Hc & Hhead & Hterm).
  unfold trailingMarkLength. rewrite atxLine_chars, Hchars.
  rewrite !reverse_app, !reverse_replicate. simpl.
  rewrite <- !app_assoc.
  rewrite (takeWhile_replicate isHash), (dropWhile_replicate isHash) by done.
  assert (∀ (p : ascii → bool) t, (∀ x, isPlain x = true → p x = false) →
            p " "%char = false ∨ a = 0 →
            from_option p false (head (replicate a " "%char ++ [c] ++ t))
            = false) as Hstop.
  { intros p t Hp Ha. destruct a; simpl; [by apply Hp|by destruct Ha]. }
  rewrite (takeWhile_stop isHash), (dropWhile_stop isHash)
    by (apply Hstop; auto using isPlain_not_hash).
  rewrite (takeWhile_replicate isSpace) by done.
  rewrite (takeWhile_stop isSpace)
    by (simpl; by rewrite isPlain_not_space).
  rewrite !app_nil_r, !length_replicate. lia.
Qed.

Lemma atxLine_length n g w a b :
  String.length (atxLine n g w a b) = n + g + String.length w + a + b.
Proof.
  rewrite <- !list_ascii_length, atxLine_chars, !length_app, !length_replicate.
  lia.
Qed.

End HeaderTextFacts.

Section HeaderRangeFacts.
Import TableOfContents.
Variable parser : IMdParser.
Variable document : SkinnyTextDocument.


Lemma newRange4_inv sl sc el ec r :
  vscode.newRange4 sl sc el ec = Some r →
  r = vscode.newRange (vscode.mkPosition sl sc) (vscode.mkPosition el ec).
Proof.
  unfold vscode.newRange4, vscode.newPosition.
  repeat case_bool_decide; simpl; congruence.
Qed.

Lemma addHeading_headerShaped toc existing heading toc' existing' :
  addHeading parser document (toc, existing) heading = Some (toc', existing') →
  Forall (headerShaped document) toc → Forall (headerShaped document) toc'.
Proof.
  unfold addHeading. intros Hadd Hall.
  destruct (map heading) as [[n m]|]; [|by simplify_eq].
  destruct (lineAt document n) as [lineText|] eqn:Hline; [|done].
  simpl in Hadd. destruct (nextSlug parser existing lineText) as [s ex].
  destruct (vscode.newRange4 n 0 n _) as [headerRange|] eqn:Hheader; [|done].
  simpl in Hadd.
  destruct (vscode.newRange4 n (Z.of_nat (leadingMarkLength lineText)) n _)
    as [textRange|] eqn:Htext; [|done].
  simpl in Hadd. simplify_eq. apply Forall_app. split; [done|].
  apply Forall_singleton. exists lineText. simpl.
  apply newRange4_inv in Hheader, Htext. subst. split_and!; try done.
  f_equal. apply newRange_ordered.
  unfold vscode.isBefore. simpl.
  repeat case_bool_decide; simpl; try done; lia.
Qed.

Lemma addHeadings_headerShaped headings : ∀ toc existing toc' existing',
  addHeadings parser document (toc, existing) headings = Some (toc', existing') →
  Forall (headerShaped document) toc → Forall (headerShaped document) toc'.
Proof.
  induction headings as [|heading rest IH]; intros toc existing toc' existing'.
  - simpl. by intros [= -> ->].
  - cbn [addHeadings].
    destruct (addHeading parser document (toc, existing) heading)
      as [[toc1 ex1]|] eqn:Hstep; [|done].
    simpl. intros Hrest Hall. eapply IH; [done|].
    by eapply addHeading_headerShaped.
Qed.

(** The last line of a section is a line of the document, at or after
    the heading line. *)
Lemma sectionEndLine_bounds toc i entry :
  increasing (line <$> toc) = true →
  Forall (λ n, 0 ≤ n < lineCount document)%Z (line <$> toc) →
  toc !! i = Some entry →
  (line entry ≤ sectionEndLine document toc i (level entry)
   < lineCount document)%Z.
Proof.
  intros Hinc Hin Hi.
  assert (0 ≤ line entry < lineCount document)%Z as Hentry.
  { rewrite Forall_forall in Hin. apply Hin.
    apply list_elem_of_fmap. eauto using list_elem_of_lookup_2. }
  unfold sectionEndLine.
  destruct (findEnd _ _) as [z|] eqn:Hfind; simpl; [|lia].
  apply findEnd_Some in Hfind as (j & next & Hj & _ & -> & _).
  rewrite lookup_drop in Hj.
  assert (line entry < line next)%Z.
  { eapply (increasing_lookup (line <$> toc) i (S i + j)); [done| | |lia].
    - by rewrite list_lookup_fmap, Hi.
    - by rewrite list_lookup_fmap, Hj. }
  assert (0 ≤ line next < lineCount document)%Z.
  { rewrite Forall_forall in Hin. apply Hin.
    apply list_elem_of_fmap. eauto using list_elem_of_lookup_2. }
  lia.
Qed.

(** A run of [buildToc] on a well-formed document: the first loop ends
    with an array [toc0] that satisfies its invariant, and the result has,
    index by index, the entries of [toc0] with their section range. *)
Lemma buildToc_run :
  wellFormed parser document →
  ∃ toc0 existing toc,
    firstLoopInvariant parser document (headingTokens parser document)
      toc0 existing
    ∧ Forall (headerShaped document) toc0
    ∧ buildToc parser document = Some toc
    ∧ length toc = length toc0
    ∧ ∀ i entry, toc !! i = Some entry →
        ∃ entry0 endText,
          toc0 !! i = Some entry0
          ∧ lineAt document (sectionEndLine document toc0 i (level entry0))
            = Some endText
          ∧ entry
            = mkTocEntry (slug entry0) (text entry0) (level entry0)
                (line entry0)
                (vscode.mkLocation (uri document)
                   (vscode.mkRange (vscode.mkPosition (line entry0) 0)
                      (vscode.mkPosition
                         (sectionEndLine document toc0 i (level entry0))
                         (Z.of_nat (String.length endText)))))
                (headerLocation entry0) (headerTextLocation entry0).
Proof.
  intros [Hinc Hin].
  destruct (addHeadings_invariant parser document
              (headingTokens parser document) [] [] ∅
              (firstLoopInvariant_initial parser document) Hin)
    as (toc0 & existing & Hfirst & Hinv).
  simpl in Hinv.
  pose proof Hinv as (Hlines & _ & Hstart & _).
  fold (headingLines parser document) in Hlines.
  assert (∀ i entry0, toc0 !! i = Some entry0 →
            is_Some (withSection document toc0 i entry0)) as Htotal.
  { intros i entry0 Hi.
    destruct (withSection_spec document toc0 i entry0) as (endText & _ & ->);
      rewrite ?Hlines; try done.
    rewrite Forall_forall in Hstart. apply Hstart.
    eauto using list_elem_of_lookup_2. }
  destruct (mapM_imap_Some (withSection document toc0) toc0 Htotal)
    as (toc & Hsecond & Hlook).
  exists toc0, existing, toc.
  split_and!; [done| | |by eapply mapM_imap_length|].
  { by eapply addHeadings_headerShaped. }
  { unfold buildToc. fold (headingTokens parser document).
    rewrite Hfirst. simpl. exact Hsecond. }
  intros i entry Hi. destruct (Hlook i entry Hi) as (entry0 & Hi0 & Hwith).
  destruct (withSection_spec document toc0 i entry0)
    as (endText & HendText & Heq); rewrite ?Hlines; try done.
  { rewrite Forall_forall in Hstart. apply Hstart.
    eauto using list_elem_of_lookup_2. }
  exists entry0, endText. unfold sectionEndLine. simpl in *.
  split_and!; [done..|]. congruence.
Qed.

End HeaderRangeFacts.

Section SectionRangeFacts.
Import TableOfContents.
Variable parser : IMdParser.
Variable document : SkinnyTextDocument.

Lemma findEnd_exists later lv : ∀ m next,
  later !! m = Some next → (level next ≤ lv)%Z →
  ∃ m' next', m' ≤ m ∧ later !! m' = Some next'
    ∧ findEnd later lv = Some (line next' - 1)%Z.
Proof.
  induction later as [|c later IH]; intros m next Hm Hle; [done|].
  simpl. case_bool_decide as Hc.
  - exists 0, c. split_and!; [lia|done..].
  - destruct m as [|m]; simpl in Hm; [by simplify_eq|].
    destruct (IH m next Hm Hle) as (m' & next' & ? & ? & ?).
    exists (S m'), next'. split_and!; [lia|done..].
Qed.

Lemma increasing_lookup_le l i j a b :
  increasing l = true → l !! i = Some a → l !! j = Some b → i ≤ j → (a ≤ b)%Z.
Proof.
  intros Hinc Hi Hj Hij. destruct (decide (i = j)) as [->|].
  - assert (a = b) by congruence. lia.
  - assert (a < b)%Z; [|lia].
    eapply (increasing_lookup l i j); [done..|lia].
Qed.

(** Either the section of an entry ends before a later heading, or that
    heading and all those in between are of a greater level. *)
Lemma section_apart_or_deeper toc i j a b :
  increasing (line <$> toc) = true →
  i < j → toc !! i = Some a → toc !! j = Some b →
  (sectionEndLine document toc i (level a) < line b)%Z
  ∨ ∀ k c, i < k ≤ j → toc !! k = Some c → (level a < level c)%Z.
Proof.
  intros Hinc Hij Hi Hj. unfold sectionEndLine.
  destruct (findEnd _ _) as [z|] eqn:Hfind; simpl.
  - apply findEnd_Some in Hfind as (m & next & Hm & Hle & -> & Hbetween).
    rewrite lookup_drop in Hm.
    destruct (decide (S i + m ≤ j)) as [Hearly|Hlate].
    + left. assert (line next ≤ line b)%Z; [|lia].
      eapply (increasing_lookup_le (line <$> toc) (S i + m) j); [done| | |done].
      * by rewrite list_lookup_fmap, Hm.
      * by rewrite list_lookup_fmap, Hj.
    + right. intros k c Hk Hc. apply (Hbetween (k - S i)); [lia|].
      rewrite lookup_drop. by replace (S i + (k - S i)) with k by lia.
  - right. intros k c Hk Hc. eapply (findEnd_None _ _ Hfind (k - S i)).
    rewrite lookup_drop. by replace (S i + (k - S i)) with k by lia.
Qed.

(** The section of a heading ends no later than the section of an earlier
    heading when it and all the headings in between are of a greater level
    than that earlier heading. *)
Lemma section_nested toc i j a b :
  increasing (line <$> toc) = true →
  Forall (λ n, 0 ≤ n < lineCount document)%Z (line <$> toc) →
  i < j → toc !! i = Some a → toc !! j = Some b →
  (∀ k c, i < k ≤ j → toc !! k = Some c → (level a < level c)%Z) →
  (sectionEndLine document toc j (level b)
   ≤ sectionEndLine document toc i (level a))%Z.
Proof.
  intros Hinc Hin Hij Hi Hj Hdeep.
  pose proof (sectionEndLine_bounds document toc j b Hinc Hin Hj) as Hbound.
  unfold sectionEndLine in *.
  destruct (findEnd (drop (S i) toc) (level a)) as [z|] eqn:Hfind; simpl;
    [|lia].
  apply findEnd_Some in Hfind as (m & next & Hm & Hle & -> & _).
  rewrite lookup_drop in Hm.
  assert (j < S i + m) as Hlate.
  { destruct (decide (j < S i + m)) as [|Hearly]; [done|].
    assert (level a < level next)%Z; [|lia].
    apply (Hdeep (S i + m)); [lia|done]. }
  destruct (findEnd_exists (drop (S j) toc) (level b) (S i + m - S j) next)
    as (m' & next' & Hm' & Hnext' & ->).
  { rewrite lookup_drop. by replace (S j + (S i + m - S j)) with (S i + m) by lia. }
  { assert (level a < level b)%Z; [|lia]. apply (Hdeep j); [lia|done]. }
  simpl. rewrite lookup_drop in Hnext'.
  assert (line next' ≤ line next)%Z; [|lia].
  eapply (increasing_lookup_le (line <$> toc) (S j + m') (S i + m));
    [done| | |lia].
  - by rewrite list_lookup_fmap, Hnext'.
  - by rewrite list_lookup_fmap, Hm.
Qed.

End SectionRangeFacts.


Section SectionNestingFacts.
Variable parser : IMdParser.
Variable document : SkinnyTextDocument.

(** The sections of two entries of the table: the earlier one ends before
    the later one starts unless the later one and all the entries in
    between are of a greater level, and then it contains the later one. *)
Lemma buildToc_sections :
  wellFormed parser document →
  ∃ toc,
    TableOfContents.buildToc parser document = Some toc
    ∧ ∀ i j a b, i < j → toc !! i = Some a → toc !! j = Some b →
        let ra := vscode.range (sectionLocation a) in
        let rb := vscode.range (sectionLocation b) in
        (vscode.isBefore (vscode.end_ ra) (vscode.start rb) = true
         ∨ ∀ k c, i < k ≤ j → toc !! k = Some c → (level a < level c)%Z)
        ∧ ((∀ k c, i < k ≤ j → toc !! k = Some c → (level a < level c)%Z) →
           rangeContains ra rb = true).
Proof.
  intros Hwf.
  destruct (buildToc_run parser document Hwf)
    as (toc0 & existing & toc & Hinv & _ & Hbuild & Hlen & Hentries).
  destruct Hinv as (Hlines & _). destruct Hwf as [Hinc Hin].
  fold (headingLines parser document) in Hlines. rewrite <- Hlines in Hinc, Hin.
  exists toc. split; [done|]. intros i j a b Hij Hi Hj.
  destruct (Hentries i a Hi) as (a0 & endA & Hi0 & HendA & ->).
  destruct (Hentries j b Hj) as (b0 & endB & Hj0 & HendB & ->).
  simpl.
  assert (∀ k c0, toc0 !! k = Some c0 →
            ∃ c, toc !! k = Some c ∧ level c = level c0) as Hback.
  { intros k c0 Hk.
    destruct (lookup_lt_is_Some_2 toc k) as [c Hc].
    { rewrite Hlen. by eapply lookup_lt_Some. }
    destruct (Hentries k c Hc) as (c0' & ? & Hk' & _ & Heq).
    exists c. split; [done|]. rewrite Heq. simpl. congruence. }
  assert (∀ k c, toc !! k = Some c →
            ∃ c0, toc0 !! k = Some c0 ∧ level c = level c0) as Hforth.
  { intros k c Hc. destruct (Hentries k c Hc) as (c0 & ? & Hk & _ & ->).
    eauto. }
  assert (line a0 < line b0)%Z as Hlt.
  { eapply (increasing_lookup (line <$> toc0) i j); [done| | |done].
    - by rewrite list_lookup_fmap, Hi0.
    - by rewrite list_lookup_fmap, Hj0. }
  split.
  - destruct (section_apart_or_deeper document toc0 i j a0 b0 Hinc Hij Hi0 Hj0)
      as [Hapart|Hdeep].
    + left. unfold vscode.isBefore. simpl.
      by rewrite (bool_decide_eq_true_2 _ Hapart).
    + right. intros k c Hk Hc. destruct (Hforth k c Hc) as (c0 & Hc0 & ->).
      by apply (Hdeep k).
  - intros Hdeep.
    assert (∀ k c0, i < k ≤ j → toc0 !! k = Some c0 → (level a0 < level c0)%Z)
      as Hdeep0.
    { intros k c0 Hk Hc0. destruct (Hback k c0 Hc0) as (c & Hc & <-).
      by apply (Hdeep k). }
    pose proof (section_nested document toc0 i j a0 b0 Hinc Hin Hij Hi0 Hj0
                  Hdeep0) as Hnested.
    unfold rangeContains, positionLe, vscode.isBefore. simpl.
    destruct (decide (sectionEndLine document toc0 j (level b0)
                      = sectionEndLine document toc0 i (level a0))) as [Heq|].
    + rewrite Heq in HendB. assert (endB = endA) as -> by congruence.
      repeat (case_bool_decide; simpl); try done; lia.
    + repeat (case_bool_decide; simpl); try done; lia.
Qed.

End SectionNestingFacts.

(** X3.  On a well-formed document the sections of two entries never
    overlap partly: the section of the earlier entry ends before the later
    entry starts, or the later entry is of a greater level and its section
    lies within that of the earlier one. *)
Theorem sections_nest_or_lie_apart
    (parser : IMdParser) (document : SkinnyTextDocument) :
  wellFormed parser document →
  ∃ toc,
    TableOfContents.buildToc parser document = Some toc
    ∧ ∀ i j a b, i < j → toc !! i = Some a → toc !! j = Some b →
        let ra := vscode.range (sectionLocation a) in
        let rb := vscode.range (sectionLocation b) in
        vscode.isBefore (vscode.end_ ra) (vscode.start rb) = true
        ∨ ((level a < level b)%Z ∧ rangeContains ra rb = true).
Proof.
  intros Hwf.
  destruct (buildToc_sections parser document Hwf) as (toc & Hbuild & Hpairs).
  exists toc. split; [done|]. intros i j a b Hij Hi Hj.
  destruct (Hpairs i j a b Hij Hi Hj) as [[Hapart|Hdeep] Hnested];
    [by left|right].
  split; [apply (Hdeep j); [lia|done]|by apply Hnested].
Qed.

(** X5.  On a well-formed document, an entry whose heading line is such
    an ATX line has the text [w], and its header-text location spans
    exactly [w] on that line: from character [n + g] to character
    [n + g + length w]. *)
Theorem atx_heading_text_and_range
    (parser : IMdParser) (document : SkinnyTextDocument) :
  wellFormed parser document →
  ∃ toc,
    TableOfContents.buildToc parser document = Some toc
    ∧ ∀ entry n g w a b,
        entry ∈ toc →
        lineAt document (line entry) = Some (atxLine n g w a b) →
        0 < n → plainText w = true → (0 < b → 0 < a) →
        text entry = w
        ∧ vscode.range (headerTextLocation entry)
          = vscode.mkRange
              (vscode.mkPosition (line entry) (Z.of_nat (n + g)))
              (vscode.mkPosition (line entry)
                 (Z.of_nat (n + g + String.length w))).
Proof.
  intros Hwf.
  destruct (buildToc_run parser document Hwf)
    as (toc0 & existing & toc & _ & Hshaped & Hbuild & _ & Hentries).
  exists toc. split; [done|]. intros entry n g w a b Hentry Hline Hn Hw Hab.
  apply list_elem_of_lookup_1 in Hentry as [i Hi].
  destruct (Hentries i entry Hi) as (entry0 & endText & Hi0 & _ & ->).
  rewrite Forall_forall in Hshaped.
  destruct (Hshaped entry0) as (lineText & Hline0 & Htext & _ & Hrange);
    [by eauto using list_elem_of_lookup_2|].
  simpl in *. assert (lineText = atxLine n g w a b) as -> by congruence.
  rewrite Htext, Hrange. simpl.
  rewrite atxLine_text, atxLine_leadingMarkLength, atxLine_trailingMarkLength,
    atxLine_length by done.
  split; [done|].
  assert (0 < String.length w) as Hlen.
  { destruct w; [done|simpl; lia]. }
  unfold vscode.newRange, vscode.isBefore. simpl.
  rewrite (bool_decide_eq_false_2 (line entry0 < line entry0)%Z) by lia.
  rewrite (bool_decide_eq_true_2 (line entry0 = line entry0)) by done.
  rewrite bool_decide_eq_true_2 by lia. simpl.
  do 2 f_equal. lia.
Qed.

(** X4.  The header text of the line of an ATX heading is its text: for
    a line made of [n] hashes (at least one), [g] spaces, a text [w] that
    starts and ends with a character that is neither white space nor a hash
    and has no line terminator, then [a] spaces and [b] hashes (no closing
    hashes unless a space precedes them), [getHeaderText] returns [w]; the
    opening hashes, the closing sequence and the white space around the
    text are removed. *)
Theorem getHeaderText_strips_the_marks (n g : nat) (w : string) (a b : nat) :
  0 < n → plainText w = true → (0 < b → 0 < a) →
  TableOfContents.getHeaderText (atxLine n g w a b) = w.
Proof. apply atxLine_text. Qed.

Lemma atxDocument_wellFormed : wellFormed atxParser atxDocument.
Proof. split; [done|]. vm_compute. repeat constructor; done. Qed.


Lemma sections_nest_or_lie_apart_witness :
  wellFormed atxParser atxDocument
  ∧ ∃ toc, TableOfContents.buildToc atxParser atxDocument = Some toc.
Proof.
  split; [exact atxDocument_wellFormed|].
  destruct (sections_nest_or_lie_apart atxParser atxDocument
              atxDocument_wellFormed) as (toc & Hbuild & _).
  by exists toc.
Defined.

Lemma getHeaderText_strips_the_marks_witness :
  TableOfContents.getHeaderText "## Install ##" = "Install".
Proof.
  apply (getHeaderText_strips_the_marks 2 1 "Install" 1 2); [lia|done|lia].
Defined.

(** X1.  On a well-formed document [buildToc] returns one entry per
    [heading_open] token that has a source map, in token order (the tokens
    without a map are skipped): the line of an entry is the first line of
    the map, its level is the level of the markup of the token, and its
    text is the header text of that line of the document. *)
Theorem entries_mirror_the_heading_tokens
    (parser : IMdParser) (document : SkinnyTextDocument) :
  wellFormed parser document →
  ∃ toc,
    TableOfContents.buildToc parser document = Some toc
    ∧ line <$> toc
      = omap (λ token, fst <$> map token) (headingTokens parser document)
    ∧ level <$> toc
      = omap (λ token,
                (λ _, TableOfContents.getHeaderLevel (markup token))
                <$> map token)
          (headingTokens parser document)
    ∧ ∀ entry, entry ∈ toc →
        ∃ lineText,
          lineAt document (line entry) = Some lineText
          ∧ text entry = TableOfContents.getHeaderText lineText.
Proof.
  intros Hwf.
  destruct (buildToc_run parser document Hwf)
    as (toc0 & existing & toc & Hinv & Hshaped & Hbuild & Hlen & Hentries).
  destruct Hinv as (Hlines & Hlevels & _).
  assert (∀ (f : TocEntry → Z),
            (∀ i entry, toc !! i = Some entry →
               ∃ entry0, toc0 !! i = Some entry0 ∧ f entry = f entry0) →
            f <$> toc = f <$> toc0) as Hsame.
  { intros f Hf. apply list_eq. intros i. rewrite !list_lookup_fmap.
    destruct (toc !! i) as [entry|] eqn:Hi.
    - destruct (Hf i entry Hi) as (entry0 & -> & Heq). simpl. by rewrite Heq.
    - apply lookup_ge_None in Hi. rewrite Hlen in Hi.
      apply lookup_ge_None in Hi. by rewrite Hi. }
  exists toc. split_and!; [done| | |].
  - rewrite <- Hlines. apply Hsame. intros i entry Hi.
    destruct (Hentries i entry Hi) as (entry0 & ? & Hi0 & _ & ->). eauto.
  - rewrite <- Hlevels. apply Hsame. intros i entry Hi.
    destruct (Hentries i entry Hi) as (entry0 & ? & Hi0 & _ & ->). eauto.
  - intros entry [i Hi]%list_elem_of_lookup_1.
    destruct (Hentries i entry Hi) as (entry0 & ? & Hi0 & _ & ->).
    rewrite Forall_forall in Hshaped.
    destruct (Hshaped entry0) as (lineText & Hline & Htext & _);
      [by eauto using list_elem_of_lookup_2|].
    exists lineText. by split.
Qed.

Lemma entries_mirror_the_heading_tokens_witness :
  wellFormed atxParser atxDocument
  ∧ ∃ toc,
      TableOfContents.buildToc atxParser atxDocument = Some toc
      ∧ level <$> toc = [1; 2; 3; 2; 1]%Z.
Proof.
  split; [exact atxDocument_wellFormed|].
  destruct (entries_mirror_the_heading_tokens atxParser atxDocument
              atxDocument_wellFormed) as (toc & Hbuild & _ & Hlevels & _).
  exists toc. split; [exact Hbuild|]. rewrite Hlevels. reflexivity.
Defined.

Section BuildTocEdges.
Import TableOfContents.
Variable parser : IMdParser.
Variable document : SkinnyTextDocument.

Lemma lineAt_outside n :
  ¬ (0 ≤ n < lineCount document)%Z → lineAt document n = None.
Proof.
  intros Hout. unfold lineAt. case_bool_decide; [|done].
  apply lookup_ge_None. unfold lineCount in Hout. lia.
Qed.

Lemma addHeadings_outside headings : ∀ state token n m,
  token ∈ headings → map token = Some (n, m) → lineAt document n = None →
  addHeadings parser document state headings = None.
Proof.
  induction headings as [|heading rest IH]; intros state token n m Hin Hmap Hline.
  - by inv Hin.
  - cbn [addHeadings]. inv Hin.
    + destruct state as [toc existing]. unfold addHeading.
      by rewrite Hmap, Hline.
    + destruct (addHeading parser document state heading) as [state'|];
        [|done].
      simpl. by eapply IH.
Qed.

Lemma addHeadings_skip headings : ∀ state,
  omap (λ token, fst <$> map token) headings = [] →
  addHeadings parser document state headings = Some state.
Proof.
  induction headings as [|heading rest IH]; intros state Hnone; [done|].
  cbn [addHeadings]. simpl in Hnone.
  destruct (map heading) as [[n m]|] eqn:Hmap; [done|].
  rewrite addHeading_skip by done. simpl. by apply IH.
Qed.

End BuildTocEdges.

(** X6.  [buildToc] throws when a [heading_open] token with a source map
    starts at a line that is not a line of the document
    ([document.lineAt] throws); so do [TableOfContents.create] and the two
    entry points of the symbol provider. *)
Theorem buildToc_throws_on_a_heading_outside_the_document
    (parser : IMdParser) (document : SkinnyTextDocument)
    (token : Token) (n m : Z) :
  token ∈ tokenize parser document →
  type token = "heading_open" →
  map token = Some (n, m) →
  ¬ (0 ≤ n < lineCount document)%Z →
  TableOfContents.buildToc parser document = None
  ∧ TableOfContentsClass.create parser document = None
  ∧ MdDocumentSymbolProvider.provideDocumentSymbols parser document = None
  ∧ MdDocumentSymbolInformation.provideDocumentSymbolInformation
      parser document = None.
Proof.
  intros Hin Htype Hmap Hout.
  assert (TableOfContents.buildToc parser document = None) as Hbuild.
  { unfold TableOfContents.buildToc.
    rewrite (addHeadings_outside parser document _ _ token n m); [done| |done|].
    - by apply list_elem_of_filter.
    - by apply lineAt_outside. }
  unfold TableOfContentsClass.create,
    MdDocumentSymbolProvider.provideDocumentSymbols,
    MdDocumentSymbolInformation.provideDocumentSymbolInformation.
  by rewrite Hbuild.
Qed.

(** X7.  When no [heading_open] token has a source map, the table of
    contents is empty, [provideDocumentSymbols] returns an empty array (the
    store holds the empty array of the root only), the flat list is empty,
    and [lookup] finds nothing whatever the fragment and [Slug.equals]. *)
Theorem document_without_headings_has_no_symbols
    (parser : IMdParser) (document : SkinnyTextDocument) :
  headingLines parser document = [] →
  TableOfContents.buildToc parser document = Some []
  ∧ MdDocumentSymbolProvider.provideDocumentSymbols parser document
    = Some ([], [[]])
  ∧ MdDocumentSymbolInformation.provideDocumentSymbolInformation
      parser document = Some []
  ∧ ∃ toc,
      TableOfContentsClass.create parser document = Some toc
      ∧ ∀ equals fragment,
          TableOfContentsClass.lookup equals toc fragment = None.
Proof.
  intros Hnone.
  assert (TableOfContents.buildToc parser document = Some []) as Hbuild.
  { unfold TableOfContents.buildToc.
    fold (headingTokens parser document).
    by rewrite (addHeadings_skip parser document _ _ Hnone). }
  unfold TableOfContentsClass.create,
    MdDocumentSymbolProvider.provideDocumentSymbols,
    MdDocumentSymbolInformation.provideDocumentSymbolInformation.
  rewrite Hbuild. split_and!; [done..|]. eexists. split; [done|]. done.
Qed.

Section SymbolShapeFacts.
Import MdDocumentSymbolProvider.

Lemma ownerOf_le toc lv j : ownerOf toc lv j ≤ j.
Proof.
  induction j as [|i IH]; simpl; [done|].
  destruct (toc !! i); [case_bool_decide|]; lia.
Qed.

Lemma ownerOf_app toc rest lv j :
  j ≤ length toc → ownerOf (toc ++ rest) lv j = ownerOf toc lv j.
Proof.
  induction j as [|i IH]; simpl; [done|]. intros Hj.
  rewrite lookup_app_l by lia. rewrite IH by lia. done.
Qed.

(** [ownerOf] finds the nearest earlier heading of a smaller level. *)
Lemma ownerOf_nearest toc lv p : ∀ j,
  p ≤ j → j ≤ length toc →
  levelLt (levelOf toc p) (Finite lv) →
  (∀ k entry, p ≤ k → k < j → toc !! k = Some entry → (lv ≤ level entry)%Z) →
  ownerOf toc lv j = p.
Proof.
  induction j as [|i IH]; intros Hp Hj Hlevel Hbetween; simpl; [lia|].
  destruct (lookup_lt_is_Some_2 toc i) as [entry Hi]; [lia|]. rewrite Hi.
  destruct (decide (p = S i)) as [->|Hne].
  - simpl in Hlevel. rewrite Hi in Hlevel. simpl in Hlevel.
    by rewrite bool_decide_eq_true_2.
  - rewrite bool_decide_eq_false_2.
    + apply IH; [lia..|done|]. intros k e ? ?. apply Hbetween; lia.
    + assert (lv ≤ level entry)%Z; [|lia]. apply (Hbetween i); [lia..|done].
Qed.

Lemma ownerOf_inv toc lv : ∀ j,
  j ≤ length toc →
  levelLt (levelOf toc (ownerOf toc lv j)) (Finite lv)
  ∧ ∀ k entry, ownerOf toc lv j ≤ k → k < j → toc !! k = Some entry →
      (lv ≤ level entry)%Z.
Proof.
  induction j as [|i IH]; intros Hj; simpl; [split; [done|lia]|].
  destruct (lookup_lt_is_Some_2 toc i) as [entry Hi]; [lia|]. rewrite Hi.
  case_bool_decide as Hlv.
  - split; [simpl; by rewrite Hi|]. lia.
  - destruct IH as [Hlevel Hbetween]; [lia|]. split; [done|].
    intros k e Hk Hlt Hke. destruct (decide (k = i)) as [->|].
    + assert (e = entry) as -> by congruence. lia.
    + apply (Hbetween k); [done|lia|done].
Qed.

Lemma elem_of_childrenOf toc q s :
  s ∈ childrenOf toc q
  ↔ ∃ j entry, toc !! j = Some entry
      ∧ ownerOf toc (level entry) j = q ∧ s = symbolOf entry (S j).
Proof.
  unfold childrenOf. rewrite list_elem_of_omap. split.
  - intros (o & Ho & Hs). simpl in Hs. subst o.
    apply list_elem_of_lookup_1 in Ho as [j Hj].
    rewrite list_lookup_imap in Hj.
    destruct (toc !! j) as [entry|] eqn:Hentry; [|done]. simpl in Hj.
    unfold childOf in Hj. case_decide; [|done]. simplify_eq. eauto.
  - intros (j & entry & Hj & Ho & ->). exists (Some (symbolOf entry (S j))).
    split; [|done]. apply (list_elem_of_lookup_2 _ j).
    rewrite list_lookup_imap, Hj. simpl. unfold childOf.
    by rewrite decide_True.
Qed.

Lemma childrenOf_snoc placed entry q :
  childrenOf (placed ++ [entry]) q
  = childrenOf placed q
    ++ if decide (ownerOf placed (level entry) (length placed) = q)
       then [symbolOf entry (S (length placed))] else [].
Proof.
  unfold childrenOf. rewrite imap_app, omap_app. f_equal.
  - f_equal. apply imap_ext. intros j b Hj. unfold childOf.
    rewrite ownerOf_app; [done|]. apply lookup_lt_Some in Hj. lia.
  - simpl. unfold childOf. rewrite Nat.add_0_r, ownerOf_app by done.
    by case_decide.
Qed.

Lemma childrenOf_beyond toc q : length toc < q → childrenOf toc q = [].
Proof.
  intros Hq. destruct (childrenOf toc q) as [|s l] eqn:Hc; [done|].
  assert (s ∈ childrenOf toc q) as Hs by (rewrite Hc; left).
  apply elem_of_childrenOf in Hs as (j & entry & Hj & Ho & _).
  pose proof (ownerOf_le toc (level entry) j). apply lookup_lt_Some in Hj. lia.
Qed.

Lemma chainBelow_grow placed entry : ∀ m lv cAbove,
  chainBelow placed (Some (lv, cAbove)) m →
  cAbove ≤ S (length placed) →
  chainBelow (placed ++ [entry]) (Some (lv, cAbove)) m.
Proof.
  fix IH 1. intros [l p c] lv cAbove. simpl.
  intros (Hl & Hc & (Hlt & Hca & Hbetween) & Hp) Hle.
  split_and!.
  - by rewrite levelOf_app.
  - rewrite length_app. lia.
  - done.
  - done.
  - intros k e Hk Hk' Hke. apply (Hbetween k); [done..|].
    by rewrite lookup_app_l in Hke by lia.
  - destruct p as [m'|]; [|done].
    destruct Hp as (lz & -> & Hm'). exists lz. split; [done|].
    apply IH; [done|lia].
Qed.

(** The [while] loop stops at the symbol of the nearest earlier heading
    whose level is below that of the entry. *)
Lemma climb_nearest placed lv : ∀ m above,
  chainBelow placed above m →
  match above with
  | Some (la, cAbove) =>
      (lv ≤ la)%Z
      ∧ ∀ k entry, cAbove ≤ S k → placed !! k = Some entry →
          (lv ≤ level entry)%Z
  | None => True
  end →
  ∃ r above',
    climb lv m = Some r
    ∧ chainBelow placed above' r
    ∧ levelLt (MarkdownSymbol.level r) (Finite lv)
    ∧ ∀ k entry, MarkdownSymbol.children r ≤ k → placed !! k = Some entry →
        (lv ≤ level entry)%Z.
Proof.
  fix IH 1. intros [l p c] above Hchain Habove.
  assert (∀ k entry, c ≤ k → placed !! k = Some entry → (lv ≤ level entry)%Z)
    as Hlater.
  { intros k e Hk Hke. pose proof Hchain as (_ & _ & Hab & _).
    destruct above as [[la cAbove]|].
    - destruct Hab as (_ & _ & Hbetween). destruct Habove as [Hla Hafter].
      destruct (decide (S k < cAbove)).
      + assert (la ≤ level e)%Z; [by apply (Hbetween k)|lia].
      + apply (Hafter k); [lia|done].
    - apply lookup_lt_Some in Hke. lia. }
  cbn [climb]. destruct (levelLe lv l) eqn:Hle.
  - pose proof Hchain as (Hl & Hc & _ & Hp).
    destruct p as [m'|].
    + destruct Hp as (lz & -> & Hm'). simpl in Hle.
      apply bool_decide_eq_true in Hle.
      apply (IH m' (Some (lz, c)) Hm'). split; [done|].
      intros k e Hk Hke. destruct (decide (c ≤ k)); [by eapply Hlater|].
      assert (c = S k) as -> by lia.
      simpl in Hl. rewrite Hke in Hl. simpl in Hl. by simplify_eq.
    + destruct Hp as [-> _]. done.
  - exists (MarkdownSymbol.make l p c), above.
    split; [done|]. split; [exact Hchain|].
    split; [by apply levelLe_false|done].
Qed.

Lemma treeShape_initial :
  treeShape [] [[]] (MarkdownSymbol.make NegInfinity None 0).
Proof.
  split; [by simpl|]. intros q Hq. simpl in Hq.
  by replace q with 0 by lia.
Qed.

(** One call of [buildTree] appends the symbol of the entry to the array
    that owns it. *)
Lemma place_shape placed store parent entry :
  treeInvariant placed store parent →
  treeShape placed store parent →
  ∃ store' parent',
    place store parent entry = Some (store', parent')
    ∧ treeInvariant (placed ++ [entry]) store' parent'
    ∧ treeShape (placed ++ [entry]) store' parent'.
Proof.
  intros Hinv [Hchain Harrays].
  destruct (place_spec placed store parent entry Hinv)
    as (p & Hclimb & _ & Hcp & Hplace & Hinv').
  destruct (climb_nearest placed (level entry) parent None Hchain I)
    as (r & above' & Hclimb' & Hr & Hlt & Hlater).
  assert (r = p) as -> by congruence.
  pose proof Hinv as (Hlen & _).
  assert (MarkdownSymbol.level p
          = levelOf placed (MarkdownSymbol.children p)
          ∧ MarkdownSymbol.children p ≤ length placed) as [Hlevel Hcp'].
  { destruct p as [l m c]. simpl in *. by destruct Hr as (? & ? & _). }
  assert (ownerOf placed (level entry) (length placed)
          = MarkdownSymbol.children p) as Howner.
  { apply ownerOf_nearest; [done..| |].
    - by rewrite <- Hlevel.
    - intros k e Hk _. by apply Hlater. }
  eexists _, _. split; [exact Hplace|]. split; [exact Hinv'|]. split.
  - simpl. rewrite length_app, Hlen. simpl.
    split_and!; [|lia|lia|].
    + by rewrite lookup_app_r, Nat.sub_diag by lia.
    + exists (level entry). split; [done|].
      destruct p as [l m c]. simpl in *.
      destruct Hr as (Hl & Hc & _ & Hm). split_and!.
      * by rewrite levelOf_app.
      * rewrite length_app. lia.
      * done.
      * lia.
      * intros k e Hk Hk' Hke. apply (Hlater k); [done|].
        by rewrite lookup_app_l in Hke by lia.
      * destruct m as [m'|]; [|done].
        destruct Hm as (lz & -> & Hm'). exists lz. split; [done|].
        apply chainBelow_grow; [done|lia].
  - intros q Hq. rewrite length_app in Hq. simpl in Hq.
    rewrite childrenOf_snoc, Howner. unfold push.
    destruct (decide (q = S (length placed))) as [->|Hne].
    + rewrite list_lookup_alter_ne by lia.
      rewrite lookup_app_r by lia. rewrite Hlen, Nat.sub_diag. simpl.
      rewrite childrenOf_beyond by lia. rewrite decide_False by lia. done.
    + specialize (Harrays q). rewrite Hlen.
      destruct (decide (MarkdownSymbol.children p = q)) as [Heq|Hneq].
      * subst q. rewrite list_lookup_alter_eq, lookup_app_l by lia.
        rewrite Harrays by lia. done.
      * rewrite list_lookup_alter_ne, lookup_app_l by (try done; lia).
        rewrite Harrays by lia. by rewrite app_nil_r.
Qed.

Lemma buildTree_shape rest : ∀ placed store parent,
  treeInvariant placed store parent →
  treeShape placed store parent →
  ∃ final parent',
    buildTree store parent rest = Some final
    ∧ treeInvariant (placed ++ rest) final parent'
    ∧ treeShape (placed ++ rest) final parent'.
Proof.
  induction rest as [|entry rest IH]; intros placed store parent Hinv Hshape.
  - exists store, parent. by rewrite app_nil_r.
  - destruct (place_shape placed store parent entry Hinv Hshape)
      as (store1 & parent1 & Hplace & Hinv1 & Hshape1).
    destruct (IH _ _ _ Hinv1 Hshape1) as (final & parent' & Hrest & ? & ?).
    exists final, parent'. cbn [buildTree]. rewrite Hplace. simpl.
    by rewrite <- app_assoc in *.
Qed.

End SymbolShapeFacts.

Section SymbolTreeShape.
Import MdDocumentSymbolProvider.

Lemma positionLe_trans a b c :
  positionLe a b = true → positionLe b c = true → positionLe a c = true.
Proof.
  unfold positionLe, vscode.isBefore.
  repeat (case_bool_decide; simpl); try done; lia.
Qed.

Lemma rangeContains_trans r1 r2 r3 :
  rangeContains r1 r2 = true → rangeContains r2 r3 = true →
  rangeContains r1 r3 = true.
Proof.
  unfold rangeContains.
  intros [? ?]%andb_true_iff [? ?]%andb_true_iff. apply andb_true_iff.
  split; by eapply positionLe_trans.
Qed.

Lemma Descendant_snoc store a b c array :
  Descendant store a b → store !! vscode.children b = Some array → c ∈ array →
  Descendant store a c.
Proof.
  induction 1 as [a b array' Ha Hb|a b b' array' Ha Hb _ IH]; intros Hc Hin.
  - eapply Descendant_deeper; [done..|]. by eapply Descendant_child.
  - eapply Descendant_deeper; [done..|]. by apply IH.
Qed.

(** [provideDocumentSymbols] on a table of contents: the arrays of the
    final store hold the headings they own. *)
Lemma provideDocumentSymbols_shape parser document toc :
  TableOfContents.buildToc parser document = Some toc →
  ∃ store,
    provideDocumentSymbols parser document = Some (childrenOf toc 0, store)
    ∧ length store = S (length toc)
    ∧ ∀ q, q ≤ length toc → store !! q = Some (childrenOf toc q).
Proof.
  intros Hbuild.
  destruct (buildTree_shape toc [] [[]] _ treeInvariant_initial
              treeShape_initial) as (store & parent & Htree & Hinv & Hshape).
  simpl in Hinv, Hshape. destruct Hinv as (Hlen & _).
  destruct Hshape as [_ Harrays].
  exists store. split_and!; [|done..].
  unfold provideDocumentSymbols. rewrite Hbuild. simpl. rewrite Htree. simpl.
  by rewrite Harrays by lia.
Qed.

End SymbolTreeShape.

(** X9.  On a well-formed document, the store that
    [provideDocumentSymbols] builds has one array per heading and one for
    the root, and the array at every address holds, in document order,
    exactly the symbols of the headings owned by that address: a heading is
    in the array of the nearest earlier heading of a smaller level (all the
    headings in between are of a level at least its own), in the array of
    the root when there is no such heading, and in no other array. *)
Theorem headings_sit_under_the_nearest_shallower_heading
    (parser : IMdParser) (document : SkinnyTextDocument) :
  wellFormed parser document →
  ∃ toc roots store,
    TableOfContents.buildToc parser document = Some toc
    ∧ MdDocumentSymbolProvider.provideDocumentSymbols parser document
      = Some (roots, store)
    ∧ length store = S (length toc)
    ∧ roots = childrenOf toc 0
    ∧ (∀ q, q ≤ length toc → store !! q = Some (childrenOf toc q))
    ∧ (∀ j b q elements,
         toc !! j = Some b → store !! q = Some elements →
         MdDocumentSymbolProvider.symbolOf b (S j) ∈ elements
         ↔ q = ownerOf toc (level b) j)
    ∧ (∀ j b, toc !! j = Some b →
         let q := ownerOf toc (level b) j in
         q ≤ j
         ∧ levelLt (levelOf toc q) (Finite (level b))
         ∧ ∀ k c, q ≤ k → k < j → toc !! k = Some c → (level b ≤ level c)%Z).
Proof.
  intros Hwf.
  destruct (buildToc_run parser document Hwf)
    as (_ & _ & toc & _ & _ & Hbuild & _).
  destruct (provideDocumentSymbols_shape parser document toc Hbuild)
    as (store & Hsymbols & Hlen & Harrays).
  exists toc, (childrenOf toc 0), store. split_and!; [done..| |].
  - intros j b q elements Hj Hq.
    assert (q ≤ length toc) as Hle.
    { apply lookup_lt_Some in Hq. lia. }
    rewrite Harrays in Hq by done. injection Hq as <-.
    rewrite elem_of_childrenOf. split.
    + intros (j' & b' & Hj' & Ho & Heq).
      assert (j' = j) as -> by (by injection Heq).
      by simplify_eq.
    + intros ->. eauto.
  - intros j b Hj. simpl. split; [apply ownerOf_le|].
    apply ownerOf_inv. apply lookup_lt_Some in Hj. lia.
Qed.

(** X10.  On a well-formed document, the range of every symbol nested
    under the symbol of a heading, at any depth, lies within the section
    range of that heading. *)
Theorem nested_symbols_lie_within_their_ancestors
    (parser : IMdParser) (document : SkinnyTextDocument) :
  wellFormed parser document →
  ∃ toc roots store,
    TableOfContents.buildToc parser document = Some toc
    ∧ MdDocumentSymbolProvider.provideDocumentSymbols parser document
      = Some (roots, store)
    ∧ ∀ i a s, toc !! i = Some a →
        Descendant store (MdDocumentSymbolProvider.symbolOf a (S i)) s →
        rangeContains (vscode.range (sectionLocation a)) (vscode.symRange s)
        = true.
Proof.
  intros Hwf.
  destruct (buildToc_sections parser document Hwf) as (toc & Hbuild & Hpairs).
  destruct (provideDocumentSymbols_shape parser document toc Hbuild)
    as (store & Hsymbols & Hlen & Harrays).
  exists toc, (childrenOf toc 0), store. split_and!; [done..|].
  assert (∀ i a s array, toc !! i = Some a →
            store !! S i = Some array → s ∈ array →
            ∃ j b, toc !! j = Some b
              ∧ s = MdDocumentSymbolProvider.symbolOf b (S j)
              ∧ rangeContains (vscode.range (sectionLocation a))
                  (vscode.range (sectionLocation b)) = true) as Hchild.
  { intros i a s array Hi Harray Hs.
    rewrite Harrays in Harray by (apply lookup_lt_Some in Hi; lia).
    injection Harray as <-.
    apply elem_of_childrenOf in Hs as (j & b & Hj & Ho & ->).
    exists j, b. split_and!; [done..|].
    pose proof (ownerOf_le toc (level b) j) as Hle.
    destruct (ownerOf_inv toc (level b) j) as [Hlevel Hbetween].
    { apply lookup_lt_Some in Hj. lia. }
    rewrite Ho in Hle, Hlevel, Hbetween. simpl in Hlevel.
    rewrite Hi in Hlevel. simpl in Hlevel.
    destruct (Hpairs i j a b) as [_ Hnested]; [lia|done..|].
    apply Hnested. intros k c Hk Hc.
    destruct (decide (k = j)) as [->|]; [by simplify_eq|].
    assert (level b ≤ level c)%Z; [|lia]. apply (Hbetween k); [lia..|done]. }
  intros i a s Hi Hdesc.
  remember (MdDocumentSymbolProvider.symbolOf a (S i)) as sa eqn:Hsa.
  revert i a Hi Hsa.
  induction Hdesc as [sa s array Harray Hs|sa sb s array Harray Hsb _ IH];
    intros i a Hi ->; simpl in Harray.
  - destruct (Hchild i a s array Hi Harray Hs) as (j & b & _ & -> & Hin).
    done.
  - destruct (Hchild i a sb array Hi Harray Hsb) as (j & b & Hj & -> & Hin).
    eapply rangeContains_trans; [exact Hin|]. by eapply IH.
Qed.

(** X11.  On a well-formed document, the symbol of every heading is in
    the array returned by [provideDocumentSymbols] or is a descendant of a
    symbol of that array: no heading is left out of the tree. *)
Theorem every_heading_is_reachable_from_the_root
    (parser : IMdParser) (document : SkinnyTextDocument) :
  wellFormed parser document →
  ∃ toc roots store,
    TableOfContents.buildToc parser document = Some toc
    ∧ MdDocumentSymbolProvider.provideDocumentSymbols parser document
      = Some (roots, store)
    ∧ ∀ j b, toc !! j = Some b →
        let s := MdDocumentSymbolProvider.symbolOf b (S j) in
        s ∈ roots ∨ ∃ r, r ∈ roots ∧ Descendant store r s.
Proof.
  intros Hwf.
  destruct (buildToc_run parser document Hwf)
    as (_ & _ & toc & _ & _ & Hbuild & _).
  destruct (provideDocumentSymbols_shape parser document toc Hbuild)
    as (store & Hsymbols & Hlen & Harrays).
  exists toc, (childrenOf toc 0), store. split_and!; [done..|].
  intros j. induction (lt_wf j) as [j _ IH]. intros b Hj. simpl.
  pose proof (ownerOf_le toc (level b) j) as Hle.
  assert (MdDocumentSymbolProvider.symbolOf b (S j)
          ∈ childrenOf toc (ownerOf toc (level b) j)) as Hin.
  { apply elem_of_childrenOf. eauto. }
  destruct (ownerOf toc (level b) j) as [|i] eqn:Ho; [by left|right].
  destruct (lookup_lt_is_Some_2 toc i) as [a Hi].
  { apply lookup_lt_Some in Hj. lia. }
  assert (store !! S i = Some (childrenOf toc (S i))) as Harray.
  { apply Harrays. apply lookup_lt_Some in Hi. lia. }
  destruct (IH i ltac:(lia) a Hi) as [Hroot|(r & Hr & Hdesc)].
  - eexists. split; [exact Hroot|]. by eapply Descendant_child.
  - exists r. split; [done|]. by eapply Descendant_snoc.
Qed.

Lemma find_first {A} (p : A → bool) (l : list A) :
  match List.find p l with
  | Some x =>
      ∃ j, l !! j = Some x ∧ p x = true
        ∧ ∀ i y, i < j → l !! i = Some y → p y = false
  | None => ∀ y, y ∈ l → p y = false
  end.
Proof.
  induction l as [|a l IH]; simpl.
  - intros y Hy. by inv Hy.
  - destruct (p a) eqn:Ha.
    + exists 0. split_and!; [done..|]. lia.
    + destruct (List.find p l) as [x|].
      * destruct IH as (j & Hj & Hx & Hbefore). exists (S j).
        split_and!; [done..|]. intros [|i] y Hi Hy; simpl in Hy.
        -- by simplify_eq.
        -- apply (Hbefore i); [lia|done].
      * intros y Hy. inv Hy; [done|]. by apply IH.
Qed.

(** X8.  On a well-formed document, with a [Slug.equals] that holds of
    equal slugs only, [lookup] returns the first entry of the table whose
    slug is the slug of the fragment, and [undefined] when no entry has
    that slug.  An entry whose slug is also the slug of an earlier entry is
    therefore never returned. *)
Theorem lookup_resolves_to_the_first_heading_with_the_slug
    (equals : Slug → Slug → bool)
    (parser : IMdParser) (document : SkinnyTextDocument) :
  wellFormed parser document →
  (∀ a b, equals a b = true ↔ a = b) →
  ∃ toc,
    TableOfContentsClass.create parser document = Some toc
    ∧ TableOfContents.buildToc parser document
      = Some (TableOfContentsClass.entries toc)
    ∧ ∀ fragment,
        let wanted := fromHeading (slugifier parser) fragment in
        match TableOfContentsClass.lookup equals toc fragment with
        | Some found =>
            ∃ j, TableOfContentsClass.entries toc !! j = Some found
              ∧ slug found = wanted
              ∧ ∀ i a, i < j →
                  TableOfContentsClass.entries toc !! i = Some a →
                  slug a ≠ wanted
        | None =>
            ∀ a, a ∈ TableOfContentsClass.entries toc → slug a ≠ wanted
        end.
Proof.
  intros Hwf Hequals.
  destruct (buildToc_run parser document Hwf)
    as (_ & _ & entries & _ & _ & Hbuild & _).
  exists (TableOfContentsClass.make entries (slugifier parser)).
  split_and!.
  - unfold TableOfContentsClass.create. rewrite Hbuild. simpl.
    by destruct parser.
  - done.
  - intros fragment. unfold TableOfContentsClass.lookup. simpl.
    pose proof (find_first
      (λ entry, equals (slug entry)
                  (fromHeading (slugifier parser) fragment)) entries) as Hfind.
    destruct (List.find _ entries) as [found|].
    + destruct Hfind as (j & Hj & Hfound & Hbefore). exists j.
      split_and!; [done|by apply Hequals|].
      intros i a Hi Ha Heq. apply Hequals in Heq.
      by rewrite (Hbefore i a Hi Ha) in Heq.
    + intros a Ha Heq. apply Hequals in Heq. by rewrite (Hfind a Ha) in Heq.
Qed.

(** X12.  On a well-formed document,
    [provideDocumentSymbolInformation] returns one symbol per entry of the
    table, in order, with an empty container name and a location in the uri
    of the document; the store of [provideDocumentSymbols] holds, for each
    of them, a symbol of the same name and the same range. *)
Theorem flat_list_and_tree_show_the_same_symbols
    (parser : IMdParser) (document : SkinnyTextDocument) :
  wellFormed parser document →
  ∃ toc flat roots store,
    TableOfContents.buildToc parser document = Some toc
    ∧ MdDocumentSymbolInformation.provideDocumentSymbolInformation
        parser document = Some flat
    ∧ MdDocumentSymbolProvider.provideDocumentSymbols parser document
      = Some (roots, store)
    ∧ length flat = length toc
    ∧ ∀ j info, flat !! j = Some info →
        MdDocumentSymbolInformation.containerName info = EmptyString
        ∧ vscode.uri (MdDocumentSymbolInformation.location info)
          = uri document
        ∧ ∃ q elements s,
            store !! q = Some elements ∧ s ∈ elements
            ∧ vscode.children s = S j
            ∧ vscode.name s = MdDocumentSymbolInformation.name info
            ∧ vscode.symRange s
              = vscode.range (MdDocumentSymbolInformation.location info).
Proof.
  intros Hwf.
  destruct (buildToc_run parser document Hwf)
    as (toc0 & existing & toc & _ & _ & Hbuild & _ & Hentries).
  destruct (provideDocumentSymbols_shape parser document toc Hbuild)
    as (store & Hsymbols & Hlen & Harrays).
  exists toc, (MdDocumentSymbolInformation.toSymbolInformation <$> toc),
    (childrenOf toc 0), store.
  split_and!; [done| |done|by rewrite length_fmap|].
  { unfold MdDocumentSymbolInformation.provideDocumentSymbolInformation.
    by rewrite Hbuild. }
  intros j info Hj. rewrite list_lookup_fmap in Hj.
  destruct (toc !! j) as [b|] eqn:Hb; [|done]. simpl in Hj.
  injection Hj as <-. split; [done|]. split.
  { destruct (Hentries j b Hb) as (b0 & endText & _ & _ & Heq).
    by rewrite Heq. }
  exists (ownerOf toc (level b) j), (childrenOf toc (ownerOf toc (level b) j)),
    (MdDocumentSymbolProvider.symbolOf b (S j)).
  split_and!; [|by apply elem_of_childrenOf; eauto|done..].
  apply Harrays. pose proof (ownerOf_le toc (level b) j).
  apply lookup_lt_Some in Hb. lia.
Qed.

Lemma atx_heading_text_and_range_witness :
  wellFormed atxParser atxDocument
  ∧ ∃ toc entry,
      TableOfContents.buildToc atxParser atxDocument = Some toc
      ∧ toc !! 1 = Some entry
      ∧ text entry = "Install"
      ∧ vscode.range (headerTextLocation entry)
        = vscode.mkRange (vscode.mkPosition 2 3) (vscode.mkPosition 2 10).
Proof.
  split; [exact atxDocument_wellFormed|].
  destruct (atx_heading_text_and_range atxParser atxDocument
              atxDocument_wellFormed) as (toc & Hbuild & Hentries).
  assert (∃ entry, toc !! 1 = Some entry ∧ line entry = 2%Z)
    as (entry & Hentry & Hline).
  { vm_compute in Hbuild. injection Hbuild as <-. eexists. split; reflexivity. }
  exists toc, entry. split; [exact Hbuild|]. split; [exact Hentry|].
  destruct (Hentries entry 2 1 "Install" 1 2) as [Htext Hrange].
  - by eapply list_elem_of_lookup_2.
  - rewrite Hline. reflexivity.
  - lia.
  - reflexivity.
  - lia.
  - split; [exact Htext|]. rewrite Hrange, Hline. reflexivity.
Defined.

Lemma headings_sit_under_the_nearest_shallower_heading_witness :
  wellFormed atxParser atxDocument
  ∧ ∃ toc roots store,
      MdDocumentSymbolProvider.provideDocumentSymbols atxParser atxDocument
      = Some (roots, store)
      ∧ roots = childrenOf toc 0
      ∧ length store = S (length toc).
Proof.
  split; [exact atxDocument_wellFormed|].
  destruct (headings_sit_under_the_nearest_shallower_heading
              atxParser atxDocument atxDocument_wellFormed)
    as (toc & roots & store & _ & Hsymbols & Hlen & Hroots & _).
  by exists toc, roots, store.
Defined.

Lemma nested_symbols_lie_within_their_ancestors_witness :
  wellFormed atxParser atxDocument
  ∧ ∃ roots store,
      MdDocumentSymbolProvider.provideDocumentSymbols atxParser atxDocument
      = Some (roots, store).
Proof.
  split; [exact atxDocument_wellFormed|].
  destruct (nested_symbols_lie_within_their_ancestors
              atxParser atxDocument atxDocument_wellFormed)
    as (toc & roots & store & _ & Hsymbols & _).
  by exists roots, store.
Defined.

Lemma every_heading_is_reachable_from_the_root_witness :
  wellFormed atxParser atxDocument
  ∧ ∃ roots store,
      MdDocumentSymbolProvider.provideDocumentSymbols atxParser atxDocument
      = Some (roots, store).
Proof.
  split; [exact atxDocument_wellFormed|].
  destruct (every_heading_is_reachable_from_the_root
              atxParser atxDocument atxDocument_wellFormed)
    as (toc & roots & store & _ & Hsymbols & _).
  by exists roots, store.
Defined.

Lemma lookup_resolves_to_the_first_heading_with_the_slug_witness :
  wellFormed sampleParser sampleDocument
  ∧ (∀ a b : Slug, bool_decide (a = b) = true ↔ a = b)
  ∧ ∃ toc,
      TableOfContentsClass.create sampleParser sampleDocument = Some toc.
Proof.
  assert (∀ a b : Slug, bool_decide (a = b) = true ↔ a = b) as Hequals.
  { intros a b. apply bool_decide_eq_true. }
  split; [exact sampleDocument_wellFormed|]. split; [exact Hequals|].
  destruct (lookup_resolves_to_the_first_heading_with_the_slug
              (λ a b, bool_decide (a = b)) sampleParser sampleDocument
              sampleDocument_wellFormed Hequals) as (toc & Hcreate & _).
  by exists toc.
Defined.

Lemma flat_list_and_tree_show_the_same_symbols_witness :
  wellFormed atxParser atxDocument
  ∧ ∃ flat,
      MdDocumentSymbolInformation.provideDocumentSymbolInformation
        atxParser atxDocument = Some flat.
Proof.
  split; [exact atxDocument_wellFormed|].
  destruct (flat_list_and_tree_show_the_same_symbols
              atxParser atxDocument atxDocument_wellFormed)
    as (toc & flat & roots & store & _ & Hflat & _).
  by exists flat.
Defined.

Lemma buildToc_throws_on_a_heading_outside_the_document_witness :
  TableOfContents.buildToc strayParser plainDocument = None.
Proof.
  apply (buildToc_throws_on_a_heading_outside_the_document
           strayParser plainDocument
           (mkToken "heading_open" (Some (5, 6)%Z) "#") 5 6).
  - vm_compute. left.
  - reflexivity.
  - reflexivity.
  - vm_compute. intros [_ Hlt]. discriminate Hlt.
Defined.

Lemma document_without_headings_has_no_symbols_witness :
  headingLines sampleParser plainDocument = []
  ∧ MdDocumentSymbolProvider.provideDocumentSymbols sampleParser plainDocument
    = Some ([], [[]]).
Proof.
  split; [reflexivity|].
  apply (document_without_headings_has_no_symbols sampleParser plainDocument).
  reflexivity.
Defined.

(** The outline of the sample ATX document. *)
Example atxDocument_outline :
  MdDocumentSymbolProvider.outline atxParser atxDocument
  = Some
      [MdDocumentSymbolProvider.Node "# Guide"
         (vscode.mkRange (vscode.mkPosition 0 0) (vscode.mkPosition 6 6))
         [MdDocumentSymbolProvider.Node "## Install"
            (vscode.mkRange (vscode.mkPosition 2 0) (vscode.mkPosition 5 3))
            [MdDocumentSymbolProvider.Node "### Linux"
               (vscode.mkRange (vscode.mkPosition 4 0) (vscode.mkPosition 5 3))
               []];
          MdDocumentSymbolProvider.Node "## Use"
            (vscode.mkRange (vscode.mkPosition 6 0) (vscode.mkPosition 6 6))
            []];
       MdDocumentSymbolProvider.Node "# Notes"
         (vscode.mkRange (vscode.mkPosition 7 0) (vscode.mkPosition 7 7)) []].
Proof. vm_compute. reflexivity. Qed.

(* ===================================================================== *)
(** * Part VI: more on the profile service                             *)
(* ===================================================================== *)

Section ProfileServiceOutcomes.
Import UserDataProfilesMainService.
Context {FS : Type} `{!Host FS}.
Implicit Types (s : Service FS) (profile : IUserDataProfile).
Implicit Types (new : list Effect).

Lemma filter_announced (f : Effect → bool) event listeners profile :
  f event = false → (∀ promise, f (Joined promise) = false) →
  (∀ promise, f (Settled promise) = false) →
  List.filter f (announced event listeners profile) = [].
Proof.
  intros Hevent Hjoined Hsettled. apply filter_none. unfold announced.
  constructor; [done|]. apply Forall_app.
  split; [by apply Forall_Joined|by apply Forall_Settled].
Qed.

Lemma Forall_announced (P : Effect → Prop) event listeners profile :
  P event → (∀ promise, P (Joined promise)) →
  (∀ promise, P (Settled promise)) →
  Forall P (announced event listeners profile).
Proof.
  intros Hevent Hjoined Hsettled. unfold announced.
  constructor; [done|]. apply Forall_app.
  split; [by apply Forall_Joined|by apply Forall_Settled].
Qed.

Lemma pre_silent s :
  Forall (λ e, isWrite e = false ∧ isDidChange e = false)
    (if fileService_exists (fileSystem s) (profilesHome s) then []
     else [CreateFolder (profilesHome s)]).
Proof. destruct (fileService_exists _ _); [done|]. by apply Forall_singleton. Qed.

Lemma Forall_silent new :
  Forall (λ e, isWrite e = false ∧ isDidChange e = false) new →
  Forall (λ e, isWrite e = false) new.
Proof. intros Hnew. eapply Forall_impl; [exact Hnew|]. by intros e [? _]. Qed.

(** What [createProfile] leaves behind: nothing in the state store when
    it throws; the new record and, when a workspace is given, its
    association when it returns. *)
Lemma createProfile_outcome profile workspaceIdentifier s r s' :
  createProfile profile workspaceIdentifier s = (r, s') →
  let revived := reviveProfile profile (scheme (profilesHome s)) in
  let added :=
    StoredUserDataProfile.make (name revived) (location revived)
      (useDefaultFlags revived) in
  ∃ new,
    evolves s s' new
    ∧ ((∃ e, r = Throw e
          ∧ Forall (λ e, isWrite e = false ∧ isDidChange e = false) new)
       ∨ (∃ found all,
            r = Ok found
            ∧ existsb
                (λ p, bool_decide (StoredUserDataProfile.name p = name revived))
                (storedProfiles s) = false
            ∧ omap outcome (joinedBy (_onWillCreateProfile s) revived) = []
            ∧ storedProfiles s' = storedProfiles s ++ [added]
            ∧ storedWorskpaceInfos s'
              = match workspaceIdentifier with
                | Some workspaceIdentifier =>
                    associate (getWorkspace workspaceIdentifier) revived
                      (storedWorskpaceInfos s)
                | None => storedWorskpaceInfos s
                end
            ∧ List.filter isDidChange new = [DidChangeProfiles all])).
Proof.
  intros Hrun. apply createProfile_spec in Hrun. cbv zeta in Hrun. cbv zeta.
  set (revived := reviveProfile profile (scheme (profilesHome s))) in *.
  destruct Hrun as [(_ & -> & ->)|(Hfree & [(e & -> & Hev)|[(e & rest & -> & _ & Hev)
    |(Hjoin & found & all & -> & Hev)]])].
  - exists []. split; [apply evolves_refl|]. left. eauto.
  - eexists. split; [exact Hev|]. left. eexists. split; [done|].
    by apply Forall_singleton.
  - eexists. split; [exact Hev|]. left. eexists. split; [done|].
    apply Forall_app. split; [apply pre_silent|].
    by apply Forall_announced.
  - eexists. split; [exact Hev|]. right. exists found, all.
    split_and!; [done..| | |].
    + rewrite app_assoc in Hev.
      apply evolves_after_quiet in Hev as [Hstore _].
      2:{ apply Forall_app. split; [apply Forall_silent, pre_silent|].
          by apply announced_silent. }
      unfold storedProfiles. rewrite Hstore.
      destruct workspaceIdentifier; simpl.
      * rewrite lookup_insert_ne by done. by rewrite lookup_insert_eq.
      * by rewrite lookup_insert_eq.
    + rewrite app_assoc in Hev.
      apply evolves_after_quiet in Hev as [Hstore _].
      2:{ apply Forall_app. split; [apply Forall_silent, pre_silent|].
          by apply announced_silent. }
      unfold storedWorskpaceInfos at 1. rewrite Hstore.
      destruct workspaceIdentifier; simpl.
      * by rewrite lookup_insert_eq.
      * rewrite lookup_insert_ne by done. done.
    + rewrite !List.filter_app, filter_announced by done.
      rewrite (filter_none isDidChange
                 (if fileService_exists _ _ then _ else _)).
      2:{ eapply Forall_impl; [apply pre_silent|]. by intros ? [_ ?]. }
      by destruct workspaceIdentifier.
Qed.

(** What [removeProfile] leaves behind: nothing in the state store when
    it throws; when it returns, the records and the associations that are
    not at the location of the profile. *)
Lemma removeProfile_outcome profile s r s' :
  removeProfile profile s = (r, s') →
  let revived := reviveProfile profile (scheme (profilesHome s)) in
  ∃ new,
    evolves s s' new
    ∧ ((∃ e, r = Throw e
          ∧ Forall (λ e, isWrite e = false ∧ isDidChange e = false) new)
       ∨ (∃ all,
            r = Ok ()
            ∧ isDefault profile = false
            ∧ existsb
                (λ p, extUri_isEqual (StoredUserDataProfile.location p)
                        (location revived))
                (storedProfiles s) = true
            ∧ omap outcome (joinedBy (_onWillRemoveProfile s) revived) = []
            ∧ storedProfiles s'
              = List.filter
                  (λ p, negb (extUri_isEqual (StoredUserDataProfile.location p)
                                (location revived)))
                  (storedProfiles s)
            ∧ storedWorskpaceInfos s'
              = List.filter
                  (λ p, negb (extUri_isEqual (StoredWorkspaceInfo.profile p)
                                (location revived)))
                  (storedWorskpaceInfos s)
            ∧ List.filter isDidChange new = [DidChangeProfiles all])).
Proof.
  intros Hrun. apply removeProfile_spec in Hrun. cbv zeta in Hrun. cbv zeta.
  set (revived := reviveProfile profile (scheme (profilesHome s))) in *.
  destruct Hrun as [(_ & -> & ->)|[(_ & _ & -> & ->)
    |(Hflag & Hknown & [(e & rest & -> & _ & Hev)
       |(Hjoin & all & _ & [(e & -> & Hev)|(all' & -> & Hev)])])]].
  - exists []. split; [apply evolves_refl|]. left. eauto.
  - exists []. split; [apply evolves_refl|]. left. eauto.
  - eexists. split; [exact Hev|]. left. eexists. split; [done|].
    by apply Forall_announced.
  - eexists. split; [exact Hev|]. left. eexists. split; [done|].
    apply Forall_app. split; [by apply Forall_announced|].
    by apply Forall_singleton.
  - eexists. split; [exact Hev|]. right. exists all'.
    assert (stateMainService s'
            = replay
                [Del (if bool_decide (length all = 2) then profilesHome s
                      else location revived) true;
                 SetItem WORKSPACE_PROFILE_INFO_KEY
                   (WorkspaceInfosItem
                      (List.filter
                         (λ p, negb (extUri_isEqual
                                       (StoredWorkspaceInfo.profile p)
                                       (location revived)))
                         (storedWorskpaceInfos s)));
                 SetItem PROFILES_KEY
                   (ProfilesItem
                      (List.filter
                         (λ p, negb (extUri_isEqual
                                       (StoredUserDataProfile.location p)
                                       (location revived)))
                         (storedProfiles s)));
                 DidChangeProfiles all'] (stateMainService s)) as Hstore.
    { apply evolves_after_quiet in Hev as [Hstore _]; [done|].
      by apply announced_silent. }
    simpl in Hstore. split_and!; [done..| | |].
    + unfold storedProfiles at 1. by rewrite Hstore, lookup_insert_eq.
    + unfold storedWorskpaceInfos at 1. rewrite Hstore.
      rewrite lookup_insert_ne by done. by rewrite lookup_insert_eq.
    + rewrite List.filter_app, filter_announced by done. done.
Qed.

End ProfileServiceOutcomes.

Section ProfileServiceCompositions.
Import UserDataProfilesMainService.
Context {FS : Type} `{!Host FS}.
Implicit Types (s : Service FS) (profile : IUserDataProfile).
Implicit Types (new : list Effect).

Lemma createProfile_taken profile workspaceIdentifier s :
  existsb
    (λ p, bool_decide (StoredUserDataProfile.name p = name profile))
    (storedProfiles s) = true →
  createProfile profile workspaceIdentifier s
  = (Throw ("Profile with name " +:+ name profile +:+ " already exists"), s).
Proof.
  intros Htaken. unfold createProfile. rewrite !bind_gets.
  cbv zeta. rewrite reviveProfile_name, Htaken. done.
Qed.

Lemma removeProfile_unknown profile s :
  isDefault profile = false →
  existsb
    (λ p, extUri_isEqual (StoredUserDataProfile.location p)
            (location (reviveProfile profile (scheme (profilesHome s)))))
    (storedProfiles s) = false →
  removeProfile profile s
  = (Throw ("Profile with name " +:+ name profile +:+ " does not exist"), s).
Proof.
  intros Hflag Hunknown. unfold removeProfile. rewrite Hflag, !bind_gets.
  cbv zeta. rewrite Hunknown, reviveProfile_name. done.
Qed.

Lemma existsb_filter_negb {A} (f : A → bool) (l : list A) :
  existsb f (List.filter (λ x, negb (f x)) l) = false.
Proof.
  induction l as [|x l IH]; simpl; [done|].
  destruct (f x) eqn:Hx; simpl; [done|]. by rewrite Hx.
Qed.

Lemma NoDup_fmap_filter {A B} (f : A → B) (g : A → bool) (l : list A) :
  NoDup (f <$> l) → NoDup (f <$> List.filter g l).
Proof.
  induction l as [|x l IH]; simpl; [done|].
  intros [Hx Hl]%NoDup_cons. destruct (g x); simpl; [|by auto].
  apply NoDup_cons. split; [|by auto].
  intros (y & Hy & Hin)%list_elem_of_fmap. apply Hx.
  apply list_elem_of_fmap. exists y. split; [done|].
  apply list_elem_of_In in Hin. apply List.filter_In in Hin as [Hin _].
  by apply list_elem_of_In.
Qed.

Lemma getProfile_value workspaceIdentifier s :
  cacheCoherent s →
  (getProfile workspaceIdentifier s).1
  = Ok (default (defaultProfile s)
          (workspaces (readProfilesObject s)
             !! getWorkspace workspaceIdentifier)).
Proof.
  intros Hcache. unfold getProfile, profilesObject, bind, gets, ret,
    setProfilesObject. cbn -[readProfilesObject].
  destruct (_profilesObject s) as [o|] eqn:Ho; cbn -[readProfilesObject].
  - destruct Hcache as [Hc|Hc]; [congruence|].
    assert (o = readProfilesObject s) as -> by congruence.
    by destruct (_ !! getWorkspace workspaceIdentifier).
  - by destruct (_ !! getWorkspace workspaceIdentifier).
Qed.

Lemma getAllProfiles_value s :
  cacheCoherent s →
  (getAllProfiles s).1 = Ok (defaultProfile s :: (listed <$> storedProfiles s)).
Proof.
  intros Hcache. unfold getAllProfiles, getProfiles, profilesObject, bind,
    gets, ret, setProfilesObject. simpl.
  destruct (_profilesObject s) as [o|] eqn:Ho; simpl; [|done].
  destruct Hcache as [Hc|Hc]; [congruence|].
  by assert (o = readProfilesObject s) as -> by congruence.
Qed.

Lemma workspacesOf_read s :
  workspaces (readProfilesObject s)
  = workspacesOf (profiles (readProfilesObject s)) (storedWorskpaceInfos s).
Proof. done. Qed.

Lemma workspacesOf_snoc (all : list IUserDataProfile) infos info :
  workspacesOf all (infos ++ [info])
  = match List.find
            (λ p, extUri_isEqual (location p)
                    (StoredWorkspaceInfo.profile info)) all with
    | Some p => <[StoredWorkspaceInfo.workspace info := p]>
                  (workspacesOf all infos)
    | None => workspacesOf all infos
    end.
Proof. unfold workspacesOf. by rewrite fold_left_app. Qed.

Lemma workspacesOf_absent (all : list IUserDataProfile) infos workspace :
  (∀ info, info ∈ infos → StoredWorkspaceInfo.workspace info ≠ workspace) →
  workspacesOf all infos !! workspace = None.
Proof.
  intros Habsent. destruct (workspacesOf all infos !! workspace) as [p|] eqn:Hp;
    [|done].
  apply workspaces_lookup in Hp as [Hp|(info & Hin & Hw & _)]; [done|].
  by destruct (Habsent info Hin).
Qed.

(** The entry of a workspace depends on the associations of that
    workspace only. *)
Lemma workspacesOf_only (all : list IUserDataProfile) workspace infos infos' :
  List.filter
    (λ info, bool_decide (StoredWorkspaceInfo.workspace info = workspace))
    infos
  = List.filter
      (λ info, bool_decide (StoredWorkspaceInfo.workspace info = workspace))
      infos' →
  workspacesOf all infos !! workspace = workspacesOf all infos' !! workspace.
Proof.
  set (step := λ (workspaces : gmap URI IUserDataProfile) info,
         match List.find
                 (λ p, extUri_isEqual (location p)
                         (StoredWorkspaceInfo.profile info)) all with
         | Some p => <[StoredWorkspaceInfo.workspace info := p]> workspaces
         | None => workspaces
         end).
  set (mine := λ info : StoredWorkspaceInfo.t,
         bool_decide (StoredWorkspaceInfo.workspace info = workspace)).
  assert (∀ l (m1 m2 : gmap URI IUserDataProfile),
            m1 !! workspace = m2 !! workspace →
            fold_left step l m1 !! workspace
            = fold_left step l m2 !! workspace) as Hext.
  { induction l as [|info l IH]; intros m1 m2 Hm; simpl; [done|].
    apply IH. unfold step. destruct (List.find _ all); [|done].
    destruct (decide (StoredWorkspaceInfo.workspace info = workspace))
      as [->|Hne].
    - by rewrite !lookup_insert_eq.
    - by rewrite !lookup_insert_ne. }
  assert (∀ l (m : gmap URI IUserDataProfile),
            fold_left step l m !! workspace
            = fold_left step (List.filter mine l) m !! workspace) as Hfilter.
  { induction l as [|info l IH]; intros m; simpl; [done|].
    unfold mine at 1. case_bool_decide as Hw; simpl; [by apply IH|].
    rewrite <- IH. apply Hext. unfold step.
    destruct (List.find _ all); [|done]. by rewrite lookup_insert_ne. }
  intros Hsame. unfold workspacesOf. fold step.
  by rewrite (Hfilter infos), (Hfilter infos'), Hsame.
Qed.

Lemma filter_mine_associate workspace other revived infos :
  extUri_isEqual other workspace = false → other ≠ workspace →
  List.filter
    (λ info, bool_decide (StoredWorkspaceInfo.workspace info = other))
    (associate workspace revived infos)
  = List.filter
      (λ info, bool_decide (StoredWorkspaceInfo.workspace info = other))
      infos.
Proof.
  intros Hne Hne'. unfold associate.
  assert (List.filter
            (λ info, bool_decide (StoredWorkspaceInfo.workspace info = other))
            (List.filter
               (λ info, negb (extUri_isEqual
                                (StoredWorkspaceInfo.workspace info) workspace))
               infos)
          = List.filter
              (λ info, bool_decide (StoredWorkspaceInfo.workspace info = other))
              infos) as Hkept.
  { induction infos as [|info infos IH]; simpl; [done|].
    destruct (extUri_isEqual (StoredWorkspaceInfo.workspace info) workspace)
      eqn:Heq; simpl.
    - rewrite bool_decide_eq_false_2; [done|]. intros Hw.
      rewrite Hw in Heq. congruence.
    - by rewrite IH. }
  destruct (isDefault revived); [done|].
  rewrite List.filter_app, Hkept. simpl.
  rewrite bool_decide_eq_false_2 by done. by rewrite app_nil_r.
Qed.

(** [setProfileForWorkspace], step by step: the association slot is
    written, and the cache is filled again from the state store. *)
Lemma setProfileForWorkspace_run profile workspaceIdentifier s :
  let revived := reviveProfile profile (scheme (profilesHome s)) in
  let infos :=
    associate (getWorkspace workspaceIdentifier) revived
      (storedWorskpaceInfos s) in
  let written :=
    mkService
      (<[WORKSPACE_PROFILE_INFO_KEY := WorkspaceInfosItem infos]>
         (stateMainService s))
      (fileSystem s) (profilesHome s) (defaultProfile s) None
      (_onWillCreateProfile s) (_onWillRemoveProfile s)
      (effects s
         ++ [SetItem WORKSPACE_PROFILE_INFO_KEY (WorkspaceInfosItem infos)]) in
  setProfileForWorkspace profile workspaceIdentifier s
  = (Ok (List.find (λ p, extUri_isEqual (location p) (location revived))
           (profiles (readProfilesObject written))),
     mkService (stateMainService written) (fileSystem s) (profilesHome s)
       (defaultProfile s) (Some (readProfilesObject written))
       (_onWillCreateProfile s) (_onWillRemoveProfile s) (effects written)).
Proof. reflexivity. Qed.

Lemma readProfilesObject_written s infos fs cache log :
  let written :=
    mkService
      (<[WORKSPACE_PROFILE_INFO_KEY := WorkspaceInfosItem infos]>
         (stateMainService s))
      fs (profilesHome s) (defaultProfile s) cache
      (_onWillCreateProfile s) (_onWillRemoveProfile s) log in
  readProfilesObject written
  = mkProfilesObject (profiles (readProfilesObject s))
      (workspacesOf (profiles (readProfilesObject s)) infos).
Proof.
  simpl. unfold readProfilesObject, workspacesOf, storedProfiles,
    storedWorskpaceInfos. simpl.
  rewrite lookup_insert_eq, lookup_insert_ne by done. done.
Qed.

End ProfileServiceCompositions.

Section ProfileServiceExtras.
Import UserDataProfilesMainService.
Context {FS : Type} `{!Host FS}.
Implicit Types (s : Service FS) (profile : IUserDataProfile).
Implicit Types (new : list Effect).

(** X13.  A call of [createProfile] or [removeProfile] that throws
    leaves the state store as it was: none of its effects is a write to the
    store, and the change event is not fired. *)
Theorem failed_operations_write_nothing profile s :
  (∀ workspaceIdentifier e,
     (createProfile profile workspaceIdentifier s).1 = Throw e →
     let s' := (createProfile profile workspaceIdentifier s).2 in
     stateMainService s' = stateMainService s
     ∧ ∃ new,
         effects s' = effects s ++ new
         ∧ Forall (λ e, isWrite e = false ∧ isDidChange e = false) new)
  ∧ (∀ e,
       (removeProfile profile s).1 = Throw e →
       let s' := (removeProfile profile s).2 in
       stateMainService s' = stateMainService s
       ∧ ∃ new,
           effects s' = effects s ++ new
           ∧ Forall (λ e, isWrite e = false ∧ isDidChange e = false) new).
Proof.
  split.
  - intros workspaceIdentifier e.
    destruct (createProfile profile workspaceIdentifier s) as [r s'] eqn:Hrun.
    simpl. intros ->.
    apply createProfile_outcome in Hrun
      as (new & Hev & [(e' & _ & Hnew)|(found & all & ? & _)]); [|done].
    split; [by eapply evolves_silent, Forall_silent|].
    exists new. split; [apply Hev|done].
  - intros e. destruct (removeProfile profile s) as [r s'] eqn:Hrun.
    simpl. intros ->.
    apply removeProfile_outcome in Hrun
      as (new & Hev & [(e' & _ & Hnew)|(all & ? & _)]); [|done].
    split; [by eapply evolves_silent, Forall_silent|].
    exists new. split; [apply Hev|done].
Qed.

(** X14.  When [createProfile] returns, no stored profile had the name
    of the profile and no listener vetoed; the stored profiles are the
    former ones followed by the record of the revived profile; the stored
    associations are the former ones or, when a workspace is given, what
    [setProfileForWorkspace] makes of them; and the change event was fired
    exactly once. *)
Theorem createProfile_stores_the_profile
    profile workspaceIdentifier s found s' :
  createProfile profile workspaceIdentifier s = (Ok found, s') →
  let revived := reviveProfile profile (scheme (profilesHome s)) in
  (∀ p, p ∈ storedProfiles s → StoredUserDataProfile.name p ≠ name profile)
  ∧ omap outcome (joinedBy (_onWillCreateProfile s) revived) = []
  ∧ storedProfiles s'
    = storedProfiles s
      ++ [StoredUserDataProfile.make (name profile) (location revived)
            (useDefaultFlags revived)]
  ∧ storedWorskpaceInfos s'
    = match workspaceIdentifier with
      | Some workspaceIdentifier =>
          associate (getWorkspace workspaceIdentifier) revived
            (storedWorskpaceInfos s)
      | None => storedWorskpaceInfos s
      end
  ∧ ∃ new all,
      effects s' = effects s ++ new
      ∧ List.filter isDidChange new = [DidChangeProfiles all].
Proof.
  intros Hrun. cbv zeta.
  apply createProfile_outcome in Hrun
    as (new & Hev & [(e & ? & _)|(found' & all & _ & Hfree & Hjoin & Hstored
                                    & Hinfos & Hchange)]); [done|].
  rewrite reviveProfile_name in Hfree, Hstored.
  split_and!; [|done..|].
  - intros p Hp Hname.
    assert (existsb
              (λ p, bool_decide (StoredUserDataProfile.name p = name profile))
              (storedProfiles s) = true) as Htaken; [|congruence].
    apply existsb_exists. exists p.
    split; [by apply list_elem_of_In|by apply bool_decide_eq_true].
  - exists new, all. split; [apply Hev|done].
Qed.

(** X16.  Once [createProfile] has returned, creating a profile of the
    same name throws "already exists" and changes nothing. *)
Theorem createProfile_twice_throws
    profile workspaceIdentifier s found s' other workspaceIdentifier' :
  createProfile profile workspaceIdentifier s = (Ok found, s') →
  name other = name profile →
  createProfile other workspaceIdentifier' s'
  = (Throw ("Profile with name " +:+ name profile +:+ " already exists"), s').
Proof.
  intros Hrun Hname.
  apply createProfile_outcome in Hrun
    as (new & Hev & [(e & ? & _)|(found' & all & _ & _ & _ & Hstored & _)]);
    [done|].
  rewrite <- Hname. apply createProfile_taken.
  rewrite Hstored, existsb_app. simpl.
  rewrite reviveProfile_name, Hname, bool_decide_eq_true_2 by done.
  by rewrite orb_true_r.
Qed.


(** X18.  When [removeProfile] returns, the stored profiles and the
    stored associations are the former ones without those at the location
    of the revived profile; nothing stored refers to that location any
    more; at least one stored profile is gone; and removing the profile
    again throws "does not exist" and changes nothing. *)
Theorem removeProfile_forgets_the_profile profile s s' :
  removeProfile profile s = (Ok (), s') →
  let revived := reviveProfile profile (scheme (profilesHome s)) in
  storedProfiles s'
  = List.filter
      (λ p, negb (extUri_isEqual (StoredUserDataProfile.location p)
                    (location revived)))
      (storedProfiles s)
  ∧ storedWorskpaceInfos s'
    = List.filter
        (λ info, negb (extUri_isEqual (StoredWorkspaceInfo.profile info)
                         (location revived)))
        (storedWorskpaceInfos s)
  ∧ Forall
      (λ p, extUri_isEqual (StoredUserDataProfile.location p)
              (location revived) = false)
      (storedProfiles s')
  ∧ Forall
      (λ info, extUri_isEqual (StoredWorkspaceInfo.profile info)
                 (location revived) = false)
      (storedWorskpaceInfos s')
  ∧ length (storedProfiles s') < length (storedProfiles s)
  ∧ removeProfile profile s'
    = (Throw ("Profile with name " +:+ name profile +:+ " does not exist"), s').
Proof.
  intros Hrun. cbv zeta.
  apply removeProfile_outcome in Hrun
    as (new & Hev & [(e & ? & _)|(all & _ & Hflag & Hknown & _ & Hstored
                                    & Hinfos & _)]); [done|].
  assert (∀ {A} (f : A → bool) (l : list A),
            Forall (λ x, f x = false) (List.filter (λ x, negb (f x)) l))
    as Hgone.
  { intros A f l. apply Forall_forall. intros x Hx.
    apply list_elem_of_In, List.filter_In in Hx as [_ Hx].
    by apply negb_true_iff. }
  split_and!; [done|done| | | |].
  - rewrite Hstored. apply Hgone.
  - rewrite Hinfos.
    apply (Hgone _ (λ info, extUri_isEqual (StoredWorkspaceInfo.profile info)
                              (location (reviveProfile profile
                                           (scheme (profilesHome s)))))).
  - rewrite Hstored. clear -Hknown.
    induction (storedProfiles s) as [|p l IH]; simpl in *; [done|].
    destruct (extUri_isEqual _ _); simpl in *.
    + pose proof (List.filter_length_le
        (λ p, negb (extUri_isEqual (StoredUserDataProfile.location p)
                      (location (reviveProfile profile
                                   (scheme (profilesHome s)))))) l).
      lia.
    + specialize (IH Hknown). lia.
  - apply removeProfile_unknown; [done|].
    destruct Hev as (_ & _ & -> & _). rewrite Hstored.
    apply (existsb_filter_negb
             (λ p, extUri_isEqual (StoredUserDataProfile.location p)
                     (location (reviveProfile profile
                                  (scheme (profilesHome s)))))).
Qed.

(** X19.  When the workspace is equal to itself for [extUri.isEqual],
    [setProfileForWorkspace] returns the first listed profile at the
    location of the revived profile, and [getProfile] of that workspace
    then returns the default profile if the profile is flagged as default,
    and otherwise that listed profile (the default profile when there is
    none).  The call writes the association slot of the state store once,
    leaves the file system and the stored profiles alone, and ends with a
    coherent cache. *)
Theorem setProfileForWorkspace_then_getProfile
    profile workspaceIdentifier s :
  let workspace := getWorkspace workspaceIdentifier in
  let revived := reviveProfile profile (scheme (profilesHome s)) in
  let found :=
    List.find (λ p, extUri_isEqual (location p) (location revived))
      (profiles (readProfilesObject s)) in
  let s' := (setProfileForWorkspace profile workspaceIdentifier s).2 in
  extUri_isEqual workspace workspace = true →
  (setProfileForWorkspace profile workspaceIdentifier s).1 = Ok found
  ∧ (getProfile workspaceIdentifier s').1
    = Ok (if isDefault profile then defaultProfile s
          else default (defaultProfile s) found)
  ∧ effects s'
    = effects s
      ++ [SetItem WORKSPACE_PROFILE_INFO_KEY
            (WorkspaceInfosItem
               (associate workspace revived (storedWorskpaceInfos s)))]
  ∧ fileSystem s' = fileSystem s
  ∧ storedProfiles s' = storedProfiles s
  ∧ cacheCoherent s'.
Proof.
  cbv zeta. intros Hrefl. rewrite setProfileForWorkspace_run.
  cbn [fst snd]. split_and!.
  - by rewrite readProfilesObject_written.
  - rewrite readProfilesObject_written.
    unfold getProfile, profilesObject, bind, gets, ret.
    cbn [_profilesObject defaultProfile fst snd workspaces].
    assert (workspacesOf (profiles (readProfilesObject s))
              (List.filter
                 (λ info, negb (extUri_isEqual
                                  (StoredWorkspaceInfo.workspace info)
                                  (getWorkspace workspaceIdentifier)))
                 (storedWorskpaceInfos s))
              !! getWorkspace workspaceIdentifier = None) as Hkept.
    { apply workspacesOf_absent. intros info Hin Hw.
      apply list_elem_of_In, List.filter_In in Hin as [_ Hin].
      rewrite Hw, Hrefl in Hin. done. }
    unfold associate. rewrite reviveProfile_isDefault.
    destruct (isDefault profile).
    + by rewrite Hkept.
    + rewrite workspacesOf_snoc. cbn [StoredWorkspaceInfo.profile
        StoredWorkspaceInfo.workspace].
      destruct (List.find _ (profiles (readProfilesObject s))) as [p|].
      * by rewrite lookup_insert_eq.
      * by rewrite Hkept.
  - done.
  - done.
  - unfold storedProfiles. cbn [stateMainService].
    by rewrite lookup_insert_ne.
  - right. reflexivity.
Qed.

(** X20.  From a coherent service, [setProfileForWorkspace] does not
    change what [getProfile] returns for another workspace, one that is
    neither the same URI nor equal to it for [extUri.isEqual]. *)
Theorem setProfileForWorkspace_leaves_other_workspaces
    profile workspaceIdentifier other s :
  cacheCoherent s →
  extUri_isEqual (getWorkspace other) (getWorkspace workspaceIdentifier)
  = false →
  getWorkspace other ≠ getWorkspace workspaceIdentifier →
  (getProfile other (setProfileForWorkspace profile workspaceIdentifier s).2).1
  = (getProfile other s).1.
Proof.
  intros Hcache Hne Hne'. rewrite (getProfile_value other s Hcache).
  rewrite setProfileForWorkspace_run. cbn [snd].
  rewrite !readProfilesObject_written.
  unfold getProfile, profilesObject, bind, gets, ret.
  cbn [_profilesObject defaultProfile fst snd workspaces].
  rewrite workspacesOf_read.
  rewrite (workspacesOf_only _ (getWorkspace other) _ (storedWorskpaceInfos s)).
  - by destruct (_ !! getWorkspace other).
  - by apply filter_mine_associate.
Qed.

(** X23.  [getProfile] and [getAllProfiles] write nothing: the state
    store, the file system, the effects and the default profile are as
    before (only the cache may have been filled), and calling either of
    them again, after either, returns the same result. *)
Theorem reading_changes_nothing_but_the_cache workspaceIdentifier s :
  let s1 := (getProfile workspaceIdentifier s).2 in
  let s2 := (getAllProfiles s).2 in
  (stateMainService s1 = stateMainService s ∧ fileSystem s1 = fileSystem s
   ∧ effects s1 = effects s ∧ defaultProfile s1 = defaultProfile s)
  ∧ (stateMainService s2 = stateMainService s ∧ fileSystem s2 = fileSystem s
     ∧ effects s2 = effects s ∧ defaultProfile s2 = defaultProfile s)
  ∧ (getProfile workspaceIdentifier s1).1 = (getProfile workspaceIdentifier s).1
  ∧ (getAllProfiles s2).1 = (getAllProfiles s).1
  ∧ (getProfile workspaceIdentifier s2).1 = (getProfile workspaceIdentifier s).1
  ∧ (getAllProfiles s1).1 = (getAllProfiles s).1.
Proof.
  cbv zeta.
  unfold getProfile, getAllProfiles, getProfiles, profilesObject, bind, gets,
    ret, setProfilesObject.
  cbn -[readProfilesObject].
  destruct (_profilesObject s) as [o|] eqn:Ho; cbn -[readProfilesObject].
  - destruct (workspaces o !! getWorkspace workspaceIdentifier) eqn:Hw;
      cbn -[readProfilesObject]; rewrite ?Ho; cbn -[readProfilesObject];
      rewrite ?Hw; by split_and!.
  - destruct (workspaces (readProfilesObject s)
                !! getWorkspace workspaceIdentifier) eqn:Hw;
      cbn -[readProfilesObject]; rewrite ?Hw; by split_and!.
Qed.

(** X24.  From a coherent service, [getAllProfiles] returns the default
    profile followed by one profile per stored record, in stored order;
    after a [createProfile] that returns, the list ends with the created
    profile; after a [removeProfile] that returns, the records at the
    location of the removed profile are gone. *)
Theorem getAllProfiles_lists_the_stored_profiles s :
  cacheCoherent s →
  (getAllProfiles s).1 = Ok (defaultProfile s :: (listed <$> storedProfiles s))
  ∧ (∀ profile workspaceIdentifier found s',
       createProfile profile workspaceIdentifier s = (Ok found, s') →
       let revived := reviveProfile profile (scheme (profilesHome s)) in
       (getAllProfiles s').1
       = Ok (defaultProfile s
             :: (listed <$> storedProfiles s)
             ++ [toUserDataProfile (name profile) (location revived)
                   (useDefaultFlags revived)]))
  ∧ (∀ profile s',
       removeProfile profile s = (Ok (), s') →
       let revived := reviveProfile profile (scheme (profilesHome s)) in
       (getAllProfiles s').1
       = Ok (defaultProfile s
             :: (listed
                 <$> List.filter
                       (λ p, negb (extUri_isEqual
                                     (StoredUserDataProfile.location p)
                                     (location revived)))
                       (storedProfiles s)))).
Proof.
  intros Hcache. split_and!.
  - by apply getAllProfiles_value.
  - intros profile workspaceIdentifier found s' Hrun. cbv zeta.
    apply createProfile_outcome in Hrun
      as (new & Hev & [(e & ? & _)|(found' & all & _ & _ & _ & Hstored & _)]);
      [done|].
    destruct Hev as (_ & _ & _ & Hdefault & _ & _ & Hcache').
    rewrite getAllProfiles_value by auto.
    rewrite Hdefault, Hstored, fmap_app. simpl.
    by rewrite reviveProfile_name.
  - intros profile s' Hrun. cbv zeta.
    apply removeProfile_outcome in Hrun
      as (new & Hev & [(e & ? & _)|(all & _ & _ & _ & _ & Hstored & _)]);
      [done|].
    destruct Hev as (_ & _ & _ & Hdefault & _ & _ & Hcache').
    rewrite getAllProfiles_value by auto.
    by rewrite Hdefault, Hstored.
Qed.

End ProfileServiceExtras.

Section ProfileServiceExtras2.
Import UserDataProfilesMainService.
Context {FS : Type} `{!Host FS}.
Implicit Types (s : Service FS) (profile : IUserDataProfile).
Implicit Types (new : list Effect).


Lemma NoDup_associate workspace revived infos :
  extUri_isEqual workspace workspace = true →
  NoDup (StoredWorkspaceInfo.workspace <$> infos) →
  NoDup (StoredWorkspaceInfo.workspace <$> associate workspace revived infos).
Proof.
  intros Hrefl Hdistinct. unfold associate.
  set (kept := List.filter _ infos).
  assert (NoDup (StoredWorkspaceInfo.workspace <$> kept)) as Hkept.
  { by apply NoDup_fmap_filter. }
  destruct (isDefault revived); [done|].
  rewrite fmap_app. apply NoDup_app. split_and!; [done| |apply NoDup_singleton].
  intros w (info & -> & Hin)%list_elem_of_fmap Hw%list_elem_of_singleton.
  simpl in Hw. apply list_elem_of_In, List.filter_In in Hin as [_ Hin].
  rewrite Hw, Hrefl in Hin. done.
Qed.

(** X21.  When every URI is equal to itself for [extUri.isEqual],
    [setProfileForWorkspace], [createProfile] and [removeProfile] keep the
    stored associations at one per workspace at most. *)
Theorem workspaces_keep_one_association profile s :
  (∀ u, extUri_isEqual u u = true) →
  oneAssociationPerWorkspace s →
  (∀ workspaceIdentifier,
     oneAssociationPerWorkspace
       (setProfileForWorkspace profile workspaceIdentifier s).2)
  ∧ (∀ workspaceIdentifier,
       oneAssociationPerWorkspace
         (createProfile profile workspaceIdentifier s).2)
  ∧ oneAssociationPerWorkspace (removeProfile profile s).2.
Proof.
  unfold oneAssociationPerWorkspace. intros Hrefl Hone. split_and!.
  - intros workspaceIdentifier. rewrite setProfileForWorkspace_run.
    cbn [snd]. unfold storedWorskpaceInfos at 1. cbn [stateMainService].
    rewrite lookup_insert_eq. by apply NoDup_associate.
  - intros workspaceIdentifier.
    destruct (createProfile profile workspaceIdentifier s) as [r s'] eqn:Hrun.
    cbn [snd].
    apply createProfile_outcome in Hrun
      as (new & Hev & [(e & _ & Hnew)
                      |(found & all & _ & _ & _ & _ & Hinfos & _)]).
    + rewrite (storedWorskpaceInfos_ext s s'); [done|].
      by eapply evolves_silent, Forall_silent.
    + rewrite Hinfos. destruct workspaceIdentifier; [|done].
      by apply NoDup_associate.
  - destruct (removeProfile profile s) as [r s'] eqn:Hrun. cbn [snd].
    apply removeProfile_outcome in Hrun
      as (new & Hev & [(e & _ & Hnew)
                      |(all & _ & _ & _ & _ & _ & Hinfos & _)]).
    + rewrite (storedWorskpaceInfos_ext s s'); [done|].
      by eapply evolves_silent, Forall_silent.
    + rewrite Hinfos. by apply NoDup_fmap_filter.
Qed.

End ProfileServiceExtras2.

Section ProfileServiceResults.
Import UserDataProfilesMainService.
Context {FS : Type} `{!Host FS}.
Implicit Types (s : Service FS) (profile : IUserDataProfile).

(** What a computation returns is what its last step returns. *)
Lemma bind_last {A B} (m : M A) (k : A → M B) (P : B → Service FS → Prop)
    s r s' :
  (∀ a s1, k a s1 = (Ok r, s') → P r s') →
  bind m k s = (Ok r, s') → P r s'.
Proof.
  intros Hk [(a & s1 & _ & Hrun)|(e & _ & ?)]%bind_inv; [|done].
  by eapply Hk.
Qed.

(** Looking a profile up again, right after it was looked up, gives the
    same answer and changes nothing. *)
Lemma findByLocation_again profile s found s' :
  findByLocation profile s = (Ok found, s') →
  findByLocation profile s' = (Ok found, s').
Proof.
  unfold findByLocation, profilesObject, bind, gets, ret, setProfilesObject.
  cbn -[readProfilesObject].
  destruct (_profilesObject s) as [o|] eqn:Ho; cbn -[readProfilesObject].
  - intros [= <- <-]. by rewrite Ho.
  - by intros [= <- <-].
Qed.

Lemma findByLocation_value profile s :
  cacheCoherent s →
  (findByLocation profile s).1
  = Ok (List.find (λ p, extUri_isEqual (location p) (location profile))
          (profiles (readProfilesObject s))).
Proof.
  intros Hcache.
  unfold findByLocation, profilesObject, bind, gets, ret, setProfilesObject.
  cbn -[readProfilesObject].
  destruct (_profilesObject s) as [o|] eqn:Ho; cbn -[readProfilesObject];
    [|done].
  destruct Hcache as [Hc|Hc]; [congruence|].
  by assert (o = readProfilesObject s) as -> by congruence.
Qed.

Lemma createProfile_result profile workspaceIdentifier s found s' :
  createProfile profile workspaceIdentifier s = (Ok found, s') →
  findByLocation (reviveProfile profile (scheme (profilesHome s))) s'
  = (Ok found, s').
Proof.
  unfold createProfile. rewrite !bind_gets. cbv zeta.
  destruct (existsb _ (storedProfiles s)); [done|].
  set (revived := reviveProfile profile (scheme (profilesHome s))).
  repeat lazymatch goal with
  | |- findByLocation _ _ = _ → _ => fail
  | |- bind (gets _) _ _ = _ → _ => rewrite bind_gets
  | |- bind _ _ _ = _ → _ =>
      apply (bind_last _ _
               (λ r s', findByLocation revived s' = (Ok r, s')));
      intros ? ?
  end.
  apply findByLocation_again.
Qed.

(** X15.  From a coherent service, what [createProfile] returns is the
    first profile, among the default profile, the profiles stored before
    and the created one, whose location is equal to that of the revived
    profile: the created profile when its location is equal to itself and
    no earlier profile is located there, the default profile when the
    default profile is located there. *)
Theorem createProfile_returns_the_listed_profile
    profile workspaceIdentifier s found s' :
  cacheCoherent s →
  createProfile profile workspaceIdentifier s = (Ok found, s') →
  let revived := reviveProfile profile (scheme (profilesHome s)) in
  let created :=
    toUserDataProfile (name profile) (location revived)
      (useDefaultFlags revived) in
  let all := defaultProfile s :: (listed <$> storedProfiles s) ++ [created] in
  found
  = List.find (λ p, extUri_isEqual (location p) (location revived)) all
  ∧ (extUri_isEqual (location created) (location revived) = true →
     (∀ p, p ∈ defaultProfile s :: (listed <$> storedProfiles s) →
        extUri_isEqual (location p) (location revived) = false) →
     found = Some created)
  ∧ (extUri_isEqual (location (defaultProfile s)) (location revived) = true →
     found = Some (defaultProfile s)).
Proof.
  intros Hcache Hrun. cbv zeta.
  pose proof (createProfile_result _ _ _ _ _ Hrun) as Hfound.
  apply createProfile_outcome in Hrun
    as (new & Hev & [(e & ? & _)|(found' & all & _ & _ & _ & Hstored & _)]);
    [done|].
  destruct Hev as (_ & _ & _ & Hdefault & _ & _ & Hcache').
  assert (profiles (readProfilesObject s')
          = defaultProfile s
            :: (listed <$> storedProfiles s)
            ++ [toUserDataProfile (name profile)
                  (location (reviveProfile profile (scheme (profilesHome s))))
                  (useDefaultFlags
                     (reviveProfile profile (scheme (profilesHome s))))])
    as Hprofiles.
  { unfold readProfilesObject. cbn [profiles].
    rewrite Hdefault, Hstored, fmap_app. simpl.
    by rewrite reviveProfile_name. }
  pose proof (findByLocation_value
                (reviveProfile profile (scheme (profilesHome s))) s'
                (Hcache' Hcache)) as Hvalue.
  rewrite Hprofiles, Hfound in Hvalue.
  set (all' := defaultProfile s :: _) in *.
  cbn [fst] in Hvalue.
  assert (found
          = List.find
              (λ p, extUri_isEqual (location p)
                      (location (reviveProfile profile
                                   (scheme (profilesHome s))))) all')
    as -> by congruence.
  subst all'.
  split_and!; [done| |].
  - intros Hself Hothers. rewrite app_comm_cons.
    set (before := defaultProfile s :: (listed <$> storedProfiles s)) in *.
    clearbody before. induction before as [|p before IH]; simpl.
    + by rewrite Hself.
    + rewrite Hothers by left. apply IH. intros q Hq. apply Hothers.
      by right.
  - intros Hdefault'. simpl. by rewrite Hdefault'.
Qed.

End ProfileServiceResults.

Section SampleServiceResults.
Import UserDataProfilesMainService.

Lemma createProfile_returns_the_listed_profile_witness :
  cacheCoherent sampleOne
  ∧ ∃ s', createProfile sampleHome None sampleOne = (Ok (Some sampleHome), s').
Proof.
  split; [exact sampleOne_coherent|].
  destruct (createProfile sampleHome None sampleOne) as [[found|e] s'] eqn:Hrun;
    [|by vm_compute in Hrun].
  exists s'.
  destruct (createProfile_returns_the_listed_profile sampleHome None sampleOne
              found s' sampleOne_coherent Hrun) as [Hfound _].
  rewrite Hfound. reflexivity.
Defined.

End SampleServiceResults.

Section SampleServiceExtras.
Import UserDataProfilesMainService.


Lemma sampleOne_oneAssociation : oneAssociationPerWorkspace sampleOne.
Proof. vm_compute. repeat constructor; set_solver. Qed.

Lemma sampleHost_reflexive (u : URI) : extUri_isEqual u u = true.
Proof. by apply bool_decide_eq_true. Qed.

Lemma failed_operations_write_nothing_witness :
  (createProfile sampleHome None sampleVetoed).1 = Throw "not now"
  ∧ stateMainService (createProfile sampleHome None sampleVetoed).2
    = stateMainService sampleVetoed.
Proof.
  split; [reflexivity|].
  destruct (failed_operations_write_nothing sampleHome sampleVetoed)
    as [Hcreate _].
  destruct (Hcreate None "not now") as [Hstore _]; [reflexivity|].
  exact Hstore.
Defined.

Lemma createProfile_stores_the_profile_witness :
  ∃ found s',
    createProfile sampleHome None sampleOne = (Ok found, s')
    ∧ storedProfiles s' = [stored sampleWork; stored sampleHome].
Proof.
  destruct (createProfile sampleHome None sampleOne) as [[found|e] s'] eqn:Hrun;
    [|by vm_compute in Hrun].
  exists found, s'. split; [reflexivity|].
  destruct (createProfile_stores_the_profile sampleHome None sampleOne found s'
              Hrun) as (_ & _ & Hstored & _).
  rewrite Hstored. reflexivity.
Defined.

Lemma createProfile_twice_throws_witness :
  ∃ found s',
    createProfile sampleHome None sampleOne = (Ok found, s')
    ∧ createProfile (mkProfile "home" (fileUri "/elsewhere") false None) None s'
      = (Throw "Profile with name home already exists", s').
Proof.
  destruct (createProfile sampleHome None sampleOne) as [[found|e] s'] eqn:Hrun;
    [|by vm_compute in Hrun].
  exists found, s'. split; [reflexivity|].
  apply (createProfile_twice_throws sampleHome None sampleOne found s'
           (mkProfile "home" (fileUri "/elsewhere") false None) None Hrun).
  reflexivity.
Defined.


Lemma removeProfile_forgets_the_profile_witness :
  ∃ s',
    removeProfile sampleWork sampleOne = (Ok (), s')
    ∧ storedProfiles s' = []
    ∧ removeProfile sampleWork s'
      = (Throw "Profile with name work does not exist", s').
Proof.
  destruct (removeProfile sampleWork sampleOne) as [[[]|e] s'] eqn:Hrun;
    [|by vm_compute in Hrun].
  exists s'. split; [reflexivity|].
  destruct (removeProfile_forgets_the_profile sampleWork sampleOne s' Hrun)
    as (Hstored & _ & _ & _ & _ & Hagain).
  split; [rewrite Hstored; reflexivity|exact Hagain].
Defined.

Lemma setProfileForWorkspace_then_getProfile_witness :
  extUri_isEqual (fileUri "/src/lib") (fileUri "/src/lib") = true
  ∧ (getProfile (SingleFolderWorkspace "lib" (fileUri "/src/lib"))
       (setProfileForWorkspace sampleWork
          (SingleFolderWorkspace "lib" (fileUri "/src/lib")) sampleOne).2).1
    = Ok sampleWork.
Proof.
  split; [reflexivity|].
  destruct (setProfileForWorkspace_then_getProfile sampleWork
              (SingleFolderWorkspace "lib" (fileUri "/src/lib")) sampleOne)
    as (_ & Hget & _); [reflexivity|].
  rewrite Hget. reflexivity.
Defined.

Lemma setProfileForWorkspace_leaves_other_workspaces_witness :
  cacheCoherent sampleOne
  ∧ (getProfile (SingleFolderWorkspace "app" (fileUri "/src/app"))
       (setProfileForWorkspace sampleDefault
          (SingleFolderWorkspace "lib" (fileUri "/src/lib")) sampleOne).2).1
    = (getProfile (SingleFolderWorkspace "app" (fileUri "/src/app"))
         sampleOne).1.
Proof.
  split; [exact sampleOne_coherent|].
  apply (setProfileForWorkspace_leaves_other_workspaces sampleDefault
           (SingleFolderWorkspace "lib" (fileUri "/src/lib"))
           (SingleFolderWorkspace "app" (fileUri "/src/app")) sampleOne).
  - exact sampleOne_coherent.
  - reflexivity.
  - discriminate.
Defined.

Lemma reading_changes_nothing_but_the_cache_witness :
  effects (getAllProfiles sampleOne).2 = effects sampleOne
  ∧ (getAllProfiles (getAllProfiles sampleOne).2).1
    = (getAllProfiles sampleOne).1.
Proof.
  destruct (reading_changes_nothing_but_the_cache
              (SingleFolderWorkspace "app" (fileUri "/src/app")) sampleOne)
    as (_ & (_ & _ & Hlog & _) & _ & Hagain & _).
  split; [exact Hlog|exact Hagain].
Defined.

Lemma getAllProfiles_lists_the_stored_profiles_witness :
  cacheCoherent sampleOne
  ∧ (getAllProfiles sampleOne).1 = Ok [sampleDefault; sampleWork].
Proof.
  split; [exact sampleOne_coherent|].
  destruct (getAllProfiles_lists_the_stored_profiles sampleOne
              sampleOne_coherent) as [Hall _].
  rewrite Hall. reflexivity.
Defined.


Lemma workspaces_keep_one_association_witness :
  (∀ u, extUri_isEqual u u = true)
  ∧ oneAssociationPerWorkspace sampleOne
  ∧ oneAssociationPerWorkspace
      (setProfileForWorkspace sampleWork
         (SingleFolderWorkspace "app" (fileUri "/src/app")) sampleOne).2.
Proof.
  split; [exact sampleHost_reflexive|].
  split; [exact sampleOne_oneAssociation|].
  destruct (workspaces_keep_one_association sampleWork sampleOne
              sampleHost_reflexive sampleOne_oneAssociation) as [Hset _].
  apply Hset.
Defined.

End SampleServiceExtras.
